(** * DBVerifyPro: the verification engine, embedded and verified

    A shallow embedding of the migration-verification engine of
    [server/services/database.ts] (type compatibility, schema comparison,
    sample-data comparison, the per-table verifier and the orchestrator with
    its sequential and parallel modes) and of the network connection pool
    [server/services/connection-pool.ts].

    Conventions of the embedding.
    - A JavaScript string is a [string]: a sequence of code units below 256
      (the Latin-1 range).  [toLowerCase] and [trim] follow ECMAScript on
      that range.
    - A JavaScript [number] that holds a row count or a timestamp is a [Z].
      NaN and values beyond 2^53 are outside the model.
    - Code that can throw returns a [Result]; a thrown value is a [Thrown].
    - Asynchronous calls into the database drivers are answered by a
      [World] record of oracles; interleavings of the parallel workers are
      given by an explicit schedule. *)

From Stdlib Require Import String Ascii List ZArith Bool Lia Arith.
From Stdlib Require Import Permutation Sorted.
Import ListNotations.

Local Open Scope string_scope.
Local Open Scope list_scope.

(* ------------------------------------------------------------------ *)
(** ** JavaScript values, strings and exceptions *)
(* ------------------------------------------------------------------ *)

Module JS.

(** A value that a [throw] or a rejected promise carries.  The engine only
    ever asks [error instanceof Error] and then reads [error.message]. *)

(** The classes [DatabaseError] and [TimeoutError] of
    [server/utils/error-handler.ts] extend [Error]; [JsError] stands for
    every other instance of [Error] (a driver error, a TypeError);
    [NonError] is a thrown value that is not an instance of [Error], kept
    by its [String()] rendering. *)
Inductive Thrown : Type :=
| JsError (message : string)
| DatabaseError (message : string) (code : string)
| TimeoutError (message : string) (timeoutMs : Z) (operation : string)
| NonError (rendering : string).

Inductive Result (A : Type) : Type :=
| Ok (a : A)
| Throw (e : Thrown).

Arguments Ok {A} a.
Arguments Throw {A} e.

Definition bind {A B : Type} (r : Result A) (k : A -> Result B) : Result B :=
  match r with
  | Ok a => k a
  | Throw e => Throw e
  end.

(** [error.message] of an instance of [Error]. *)
Definition errorMessage (e : Thrown) : option string :=
  match e with
  | JsError m | DatabaseError m _ | TimeoutError m _ _ => Some m
  | NonError _ => None
  end.

(** [error instanceof Error ? error.message : 'Unknown error'] *)
Definition messageOrUnknown (e : Thrown) : string :=
  match e with
  | JsError m | DatabaseError m _ | TimeoutError m _ _ => m
  | NonError _ => "Unknown error"
  end.

(** [error instanceof Error ? error.message : String(error)] *)
Definition messageOrString (e : Thrown) : string :=
  match e with
  | JsError m | DatabaseError m _ | TimeoutError m _ _ => m
  | NonError r => r
  end.

(** The double-quote character, for the template literals that quote a
    name. *)
Definition dquote : string := String (ascii_of_nat 34) EmptyString.

Definition isUpperAscii (c : ascii) : bool :=
  let n := nat_of_ascii c in ((65 <=? n) && (n <=? 90))%nat.

(** Upper-case letters of the Latin-1 supplement: U+00C0..U+00DE without
    the multiplication sign U+00D7. *)
Definition isUpperLatin1 (c : ascii) : bool :=
  let n := nat_of_ascii c in
  ((192 <=? n) && (n <=? 222) && negb (n =? 215))%nat.

Definition lowerChar (c : ascii) : ascii :=
  if isUpperAscii c || isUpperLatin1 c
  then ascii_of_nat (nat_of_ascii c + 32)
  else c.

(** Whether a string holds one of the letters A to Z. *)
Fixpoint hasUpperAscii (s : string) : bool :=
  match s with
  | EmptyString => false
  | String c s' => isUpperAscii c || hasUpperAscii s'
  end.

(** [s.toLowerCase()] *)
Fixpoint toLowerCase (s : string) : string :=
  match s with
  | EmptyString => EmptyString
  | String c s' => String (lowerChar c) (toLowerCase s')
  end.

(** White space and line terminators below U+0100: TAB, LF, VT, FF, CR,
    SPACE and NO-BREAK SPACE. *)
Definition isWhiteSpace (c : ascii) : bool :=
  let n := nat_of_ascii c in
  (((9 <=? n) && (n <=? 13)) || (n =? 32) || (n =? 160))%nat.

Fixpoint trimStart (s : string) : string :=
  match s with
  | EmptyString => EmptyString
  | String c s' => if isWhiteSpace c then trimStart s' else s
  end.

Fixpoint trimEnd (s : string) : string :=
  match s with
  | EmptyString => EmptyString
  | String c s' =>
      match trimEnd s' with
      | EmptyString => if isWhiteSpace c then EmptyString else String c EmptyString
      | r => String c r
      end
  end.

(** [s.trim()] *)
Definition trim (s : string) : string := trimEnd (trimStart s).

(** [arr.includes(x)] on an array of strings. *)
Definition includes (arr : list string) (x : string) : bool :=
  existsb (String.eqb x) arr.

(** [arr.indexOf(x)]: position of the first occurrence, [-1] when absent. *)
Fixpoint indexOf (arr : list string) (x : string) : Z :=
  match arr with
  | [] => (-1)%Z
  | y :: arr' =>
      if String.eqb y x then 0%Z
      else let i := indexOf arr' x in
           if (i <? 0)%Z then (-1)%Z else (i + 1)%Z
  end.

(** Decimal rendering of a non-negative integer inside a template
    literal. *)
Definition digitChar (n : nat) : ascii := ascii_of_nat (48 + n).

Fixpoint natToStringAux (fuel n : nat) (acc : string) : string :=
  match fuel with
  | O => acc
  | S fuel' =>
      let acc' := String (digitChar (n mod 10)) acc in
      if (n / 10 =? 0)%nat then acc' else natToStringAux fuel' (n / 10) acc'
  end.

Definition natToString (n : nat) : string := natToStringAux (S n) n "".

Definition numberToString (z : Z) : string :=
  match z with
  | Z0 => "0"
  | Zpos p => natToString (Pos.to_nat p)
  | Zneg p => "-" ++ natToString (Pos.to_nat p)
  end.

(** A [number] as [parseInt] leaves it in a configuration knob: an
    integer, or [NaN] when the text does not start with digits. *)
Inductive JsNumber : Type :=
| Num (value : Z)
| NaN.

(** [a < b] and [a <= b]: a comparison with [NaN] is [false]. *)
Definition numLt (a b : JsNumber) : bool :=
  match a, b with
  | Num x, Num y => (x <? y)%Z
  | _, _ => false
  end.

Definition numLe (a b : JsNumber) : bool :=
  match a, b with
  | Num x, Num y => (x <=? y)%Z
  | _, _ => false
  end.

(** [a > b] *)
Definition numGt (a b : JsNumber) : bool := numLt b a.

(** [Math.min(a, b)]: [NaN] as soon as one argument is. *)
Definition mathMin (a b : JsNumber) : JsNumber :=
  match a, b with
  | Num x, Num y => Num (Z.min x y)
  | _, _ => NaN
  end.

(** The number of rounds of [for (let i = 0; i < bound; i++)]. *)
Definition roundsBelow (bound : JsNumber) : nat :=
  match bound with
  | Num z => Z.to_nat z
  | NaN => 0
  end.

End JS.

Import JS.

Notation "x <- r ;; k" := (bind r (fun x => k))
  (at level 61, r at next level, right associativity).

(* ------------------------------------------------------------------ *)
(** ** Type compatibility resolver: [areTypesCompatible] *)
(* ------------------------------------------------------------------ *)

Module TypeCompat.

(** The object literal [typeMap], own properties in insertion order (the
    order [Object.entries] enumerates them in). *)
Definition typeMap : list (string * list string) :=
  [ (* String types *)
    ("varchar", ["character varying"; "text"; "varchar"; "char"; "character"]);
    ("char", ["character"; "char"; "character varying"; "varchar"]);
    ("text", ["text"; "character varying"; "varchar"]);
    ("longtext", ["text"; "character varying"]);
    ("mediumtext", ["text"; "character varying"]);
    ("tinytext", ["text"; "character varying"; "varchar"]);
    (* Integer types *)
    ("int", ["integer"; "bigint"; "int"; "int4"; "int8"]);
    ("integer", ["integer"; "bigint"; "int"; "int4"; "int8"]);
    ("tinyint", ["smallint"; "integer"; "boolean"; "int2"; "int4"]);
    ("smallint", ["smallint"; "integer"; "int2"; "int4"]);
    ("mediumint", ["integer"; "int4"]);
    ("bigint", ["bigint"; "integer"; "int8"; "int4"]);
    (* Decimal/Numeric types *)
    ("decimal", ["numeric"; "decimal"]);
    ("numeric", ["numeric"; "decimal"]);
    ("float", ["real"; "double precision"; "float4"; "float8"]);
    ("double", ["double precision"; "real"; "float8"; "float4"]);
    ("real", ["real"; "float4"]);
    (* Date/Time types *)
    ("datetime", ["timestamp"; "timestamp without time zone"; "timestamp with time zone"]);
    ("timestamp", ["timestamp"; "timestamp without time zone"; "timestamp with time zone"; "datetime"]);
    ("date", ["date"]);
    ("time", ["time"; "time without time zone"]);
    ("year", ["integer"; "smallint"]);
    (* Boolean types *)
    ("boolean", ["boolean"; "bool"]);
    ("bool", ["boolean"; "bool"]);
    (* Binary types *)
    ("blob", ["bytea"; "blob"]);
    ("longblob", ["bytea"; "blob"]);
    ("mediumblob", ["bytea"; "blob"]);
    ("tinyblob", ["bytea"; "blob"]);
    ("binary", ["bytea"; "blob"]);
    ("varbinary", ["bytea"; "blob"]);
    (* SQLite types *)
    ("TEXT", ["text"; "character varying"; "varchar"; "char"]);
    ("INTEGER", ["integer"; "bigint"; "int"; "smallint"; "int4"; "int8"; "int2"]);
    ("REAL", ["real"; "double precision"; "float"; "numeric"; "decimal"]);
    ("NUMERIC", ["numeric"; "decimal"; "real"; "double precision"]);
    ("BLOB", ["bytea"; "blob"]);
    (* JSON types *)
    ("json", ["json"; "jsonb"]);
    ("jsonb", ["json"; "jsonb"]) ].

(** The keys written in upper case in the literal (the SQLite catalog). *)
Definition upperCaseKeys : list string :=
  ["TEXT"; "INTEGER"; "REAL"; "NUMERIC"; "BLOB"].

(** What the property read [typeMap[key]] evaluates to.  [typeMap] is an
    ordinary object literal, so a key that is not an own property is looked
    up on [Object.prototype]. *)
Inductive PropertyValue : Type :=
| OwnArray (compatibleTypes : list string)
| Inherited
| Undefined.

(** Property names of [Object.prototype]; each holds a function or object:
    a truthy value that has no [includes] method. *)
Definition objectPrototypeKeys : list string :=
  ["constructor"; "__proto__"; "hasOwnProperty"; "isPrototypeOf";
   "propertyIsEnumerable"; "toLocaleString"; "toString"; "valueOf";
   "__defineGetter__"; "__defineSetter__"; "__lookupGetter__";
   "__lookupSetter__"].

Fixpoint ownProperty (m : list (string * list string)) (key : string)
  : option (list string) :=
  match m with
  | [] => None
  | (k, v) :: m' => if String.eqb k key then Some v else ownProperty m' key
  end.

Definition getProperty (key : string) : PropertyValue :=
  match ownProperty typeMap key with
  | Some v => OwnArray v
  | None => if includes objectPrototypeKeys key then Inherited else Undefined
  end.

(** The message of the TypeError raised by calling the missing method, as
    V8 words it, for the expression text [expr]. *)
Definition notAFunction (expr : string) : Thrown :=
  JsError (expr ++ ".includes is not a function").

(** [if (typeMap[key]) { const isCompatible = typeMap[key].includes(other);
    if (isCompatible) return true; }] reduced to the value of
    [isCompatible] ([false] when the guard is falsy). *)
Definition mappingCheck (expr key other : string) : Result bool :=
  match getProperty key with
  | Undefined => Ok false
  | OwnArray compatibleTypes => Ok (includes compatibleTypes other)
  | Inherited => Throw (notAFunction expr)
  end.

Definition sameGroup (normalizedSource normalizedTarget : string) : bool :=
  existsb
    (fun entry : string * list string =>
       let '(_, compatibleTypes) := entry in
       includes compatibleTypes normalizedSource
       && includes compatibleTypes normalizedTarget)
    typeMap.

Definition normalize (t : string) : string := trim (toLowerCase t).

Definition areTypesCompatible (sourceType targetType : string) : Result bool :=
  let normalizedSource := normalize sourceType in
  let normalizedTarget := normalize targetType in
  (* Exact match *)
  if String.eqb normalizedSource normalizedTarget then Ok true
  else
    (* Check if source type maps to target type *)
    direct <- mappingCheck "typeMap[normalizedSource]"
                normalizedSource normalizedTarget ;;
    if direct then Ok true
    else
      (* Check reverse mapping (target type maps to source type) *)
      reverse <- mappingCheck "typeMap[normalizedTarget]"
                   normalizedTarget normalizedSource ;;
      if reverse then Ok true
      else
        (* Check if both types are in the same compatibility group *)
        Ok (sameGroup normalizedSource normalizedTarget).

End TypeCompat.

Import TypeCompat.

(* ------------------------------------------------------------------ *)
(** ** Shared schema types ([shared/schema.ts]) *)
(* ------------------------------------------------------------------ *)

Module Column.
Record t : Type := mk { name : string; type : string; nullable : bool }.
End Column.

Inductive DbType : Type := mysql | postgres | sqlite.

Definition dbTypeName (d : DbType) : string :=
  match d with
  | mysql => "mysql"
  | postgres => "postgres"
  | sqlite => "sqlite"
  end.

Definition isSqlite (d : DbType) : bool :=
  match d with sqlite => true | _ => false end.

Module DBConnection.
Record t : Type := mk {
  type : DbType;
  host : option string;
  port : option Z;
  user : option string;
  password : option string;
  database : string;
  filePath : option string
}.
End DBConnection.

Inductive TableStatus : Type := MATCH | MISMATCH.

Definition isMatch (s : TableStatus) : bool :=
  match s with MATCH => true | MISMATCH => false end.

Module TableComparison.
Record t : Type := mk {
  tableName : string;
  sourceRows : Z;
  targetRows : Z;
  schemaMatch : bool;
  status : TableStatus;
  sourceColumns : list Column.t;
  targetColumns : list Column.t;
  dataMappingValid : bool;
  dataMappingDetails : string
}.
End TableComparison.

Inductive SummaryStatus : Type := SUCCESS | SUMMARY_MISMATCH.

Module VerificationSummary.
Record t : Type := mk {
  status : SummaryStatus;
  message : string;
  completedAt : string;
  totalTables : Z;
  matchedTables : Z;
  mismatchedTables : Z;
  totalRows : Z
}.
End VerificationSummary.

Module VerificationResult.
Record t : Type := mk {
  summary : VerificationSummary.t;
  comparison : list TableComparison.t
}.
End VerificationResult.

(** [appConfig]: the knobs the engine and the pool read.
    [maxConcurrentTables] decides how many workers start and is kept as
    the [number] that [parseInt] left, possibly [NaN]; the other numeric
    knobs reach the engine through messages, SQL text and timers only and
    stand for their integer values. *)
Module AppConfig.
Record t : Type := mk {
  maxConcurrentConnections : Z;
  maxConcurrentTables : JsNumber;
  sampleDataSize : Z;
  processingTimeout : Z;
  enableParallelProcessing : bool
}.

(** The values [createAppConfig] yields with an empty environment. *)
Definition defaults : t := mk 10 (Num 5) 5 30000 true.

(** The same with VERIFICATION_MAX_CONCURRENT_TABLES set to a text that
    [parseInt] cannot read. *)
Definition unparsedConcurrency : t := mk 10 NaN 5 30000 true.
End AppConfig.

(* ------------------------------------------------------------------ *)
(** ** Schema comparison: [compareSchemas] *)
(* ------------------------------------------------------------------ *)

Module SchemaCompare.

(** The body of the [for] loop, from position [i] on.  The third case
    cannot be reached behind the length check of [compareSchemas]; there
    [targetColumns[i]] is [undefined] and reading [target.name] throws. *)
Fixpoint compareColumns (sourceColumns targetColumns : list Column.t)
  : Result bool :=
  match sourceColumns, targetColumns with
  | [], _ => Ok true
  | source :: sourceRest, target :: targetRest =>
      (* Compare names case-insensitively *)
      if negb (String.eqb (toLowerCase (Column.name source))
                          (toLowerCase (Column.name target)))
      then Ok false
      (* Check nullable status *)
      else if negb (Bool.eqb (Column.nullable source) (Column.nullable target))
      then Ok false
      else
        (* Allow compatible type mappings *)
        compatible <- areTypesCompatible (Column.type source) (Column.type target) ;;
        if negb compatible then Ok false
        else compareColumns sourceRest targetRest
  | _ :: _, [] =>
      Throw (JsError "Cannot read properties of undefined (reading 'name')")
  end.

Definition compareSchemas (sourceColumns targetColumns : list Column.t)
  : Result bool :=
  if negb (Nat.eqb (List.length sourceColumns) (List.length targetColumns))
  then Ok false
  else compareColumns sourceColumns targetColumns.

(** The three ways in which the columns at one position can disagree,
    and agreement at a position. *)
Definition namesDiffer (source target : Column.t) : Prop :=
  toLowerCase (Column.name source) <> toLowerCase (Column.name target).

Definition nullabilityDiffers (source target : Column.t) : Prop :=
  Column.nullable source <> Column.nullable target.

Definition typesIncompatible (source target : Column.t) : Prop :=
  areTypesCompatible (Column.type source) (Column.type target) = Ok false.

Definition columnsDisagree (source target : Column.t) : Prop :=
  namesDiffer source target \/ nullabilityDiffers source target
  \/ typesIncompatible source target.

Definition columnsAgree (source target : Column.t) : Prop :=
  toLowerCase (Column.name source) = toLowerCase (Column.name target)
  /\ Column.nullable source = Column.nullable target
  /\ areTypesCompatible (Column.type source) (Column.type target) = Ok true.

(** The type check of the position returns a verdict. *)
Definition typeCheckReturns (source target : Column.t) : Prop :=
  exists v, areTypesCompatible (Column.type source) (Column.type target) = Ok v.

End SchemaCompare.

Import SchemaCompare.

(* ------------------------------------------------------------------ *)
(** ** The database drivers as an oracle, and the trace of queries *)
(* ------------------------------------------------------------------ *)

(** A cell of a sampled row.  The engine observes a cell through
    [=== null] and [String(value)] only, so a cell that is neither [null]
    nor [undefined] is kept by its [String()] rendering. *)
Inductive JsValue : Type :=
| JsNull
| JsUndefined
| JsCell (rendering : string).

(** [String(value)] *)
Definition stringOf (v : JsValue) : string :=
  match v with
  | JsNull => "null"
  | JsUndefined => "undefined"
  | JsCell s => s
  end.

Definition isNull (v : JsValue) : bool :=
  match v with JsNull => true | _ => false end.

(** A sampled row: the own properties of the row object in the order of
    [Object.keys]. *)
Definition Row : Type := list (string * JsValue).

Definition keysOf (r : Row) : list string := map fst r.

(** [row[key]] *)
Fixpoint rowGet (r : Row) (key : string) : JsValue :=
  match r with
  | [] => JsUndefined
  | (k, v) :: r' => if String.eqb k key then v else rowGet r' key
  end.

(** What the adapter methods of [DatabaseService] answer during one run:
    each either resolves with a value or rejects, and asked again it
    answers the same.  [processingTimedOut t] tells whether the timer of
    [withTimeout] fires before the verification of table [t] settles. *)
Record World : Type := mkWorld {
  testConnection : DBConnection.t -> Result unit;
  getTables : DBConnection.t -> Result (list string);
  getTableRowCount : DBConnection.t -> string -> Result Z;
  getTableSchema : DBConnection.t -> string -> Result (list Column.t);
  getSampleData : DBConnection.t -> string -> Z -> Result (list Row);
  processingTimedOut : string -> bool
}.

(** The queries a verification issues, in the order it issues them. *)
Inductive Event : Type :=
| RowCountQuery (config : DBConnection.t) (tableName : string)
| SchemaQuery (config : DBConnection.t) (tableName : string)
| SampleQuery (config : DBConnection.t) (tableName : string) (sampleSize : Z).


Module IO.

(** A computation that may throw and that appends to the query trace. *)
Definition t (A : Type) : Type := list Event -> Result A * list Event.

Definition ret {A : Type} (a : A) : t A := fun tr => (Ok a, tr).

Definition bind {A B : Type} (m : t A) (k : A -> t B) : t B :=
  fun tr =>
    match m tr with
    | (Ok a, tr') => k a tr'
    | (Throw e, tr') => (Throw e, tr')
    end.

Definition lift {A : Type} (r : Result A) : t A := fun tr => (r, tr).

(** An adapter call: the query is recorded, then the answer comes back. *)
Definition query {A : Type} (e : Event) (answer : Result A) : t A :=
  fun tr => (answer, tr ++ [e]).

(** [try { body } catch (error) { handler(error) }] *)
Definition tryCatch {A : Type} (body : t A) (handler : Thrown -> t A) : t A :=
  fun tr =>
    match body tr with
    | (Ok a, tr') => (Ok a, tr')
    | (Throw e, tr') => handler e tr'
    end.

(** Run from an empty trace and keep the outcome. *)
Definition outcome {A : Type} (m : t A) : Result A := fst (m []).

End IO.

Notation "x <~ m ;; k" := (IO.bind m (fun x => k))
  (at level 61, m at next level, right associativity).

(* ------------------------------------------------------------------ *)
(** ** Sample-data comparison: [verifyDataMapping] *)
(* ------------------------------------------------------------------ *)

Module DataMapping.

Record DataMappingResult : Type := mkResult {
  isValid : bool;
  details : string
}.

Definition invalid (details : string) : DataMappingResult :=
  mkResult false details.

(** [targetKeys.find(tk => tk.toLowerCase() === sourceKey.toLowerCase())];
    the guard [!targetKey] is also true for a key that is the empty
    string. *)
Definition findTargetKey (targetKeys : list string) (sourceKey : string)
  : option string :=
  match find (fun tk => String.eqb (toLowerCase tk) (toLowerCase sourceKey))
             targetKeys with
  | Some "" => None
  | found => found
  end.

(** The loop [for (const sourceKey of sourceKeys)] of row [i]; [Some r] is
    an early [return r], [None] the normal end of the loop. *)
Fixpoint compareCells (i : nat) (sourceRow targetRow : Row)
  (targetKeys sourceKeys : list string) : option DataMappingResult :=
  match sourceKeys with
  | [] => None
  | sourceKey :: rest =>
      match findTargetKey targetKeys sourceKey with
      | None =>
          Some (invalid ("Column " ++ dquote ++ sourceKey ++ dquote
                         ++ " not found in target row " ++ natToString (i + 1)))
      | Some targetKey =>
          let sourceValue := rowGet sourceRow sourceKey in
          let targetValue := rowGet targetRow targetKey in
          (* Handle null values *)
          if isNull sourceValue && isNull targetValue
          then compareCells i sourceRow targetRow targetKeys rest
          else if isNull sourceValue || isNull targetValue
          then Some (invalid ("Null value mismatch in row " ++ natToString (i + 1)
                              ++ ", column " ++ dquote ++ sourceKey ++ dquote
                              ++ ": source=" ++ stringOf sourceValue
                              ++ ", target=" ++ stringOf targetValue))
          else
            (* Convert to string for comparison *)
            let sourceStr := trim (stringOf sourceValue) in
            let targetStr := trim (stringOf targetValue) in
            if negb (String.eqb sourceStr targetStr)
            then Some (invalid ("Value mismatch in row " ++ natToString (i + 1)
                                ++ ", column " ++ dquote ++ sourceKey ++ "/"
                                ++ targetKey ++ dquote
                                ++ ": source=" ++ dquote ++ sourceStr ++ dquote
                                ++ ", target=" ++ dquote ++ targetStr ++ dquote))
            else compareCells i sourceRow targetRow targetKeys rest
      end
  end.

(** The loop [for (let i = 0; i < sourceData.length; i++)], from row [i].
    The third case cannot be reached behind the length check; there
    [Object.keys(undefined)] throws. *)
Fixpoint compareRows (i : nat) (sourceData targetData : list Row)
  : Result (option DataMappingResult) :=
  match sourceData, targetData with
  | [], _ => Ok None
  | sourceRow :: sourceRest, targetRow :: targetRest =>
      let sourceKeys := keysOf sourceRow in
      let targetKeys := keysOf targetRow in
      if negb (Nat.eqb (List.length sourceKeys) (List.length targetKeys))
      then Ok (Some (invalid ("Column count mismatch in row " ++ natToString (i + 1)
                              ++ ": source=" ++ natToString (List.length sourceKeys)
                              ++ ", target=" ++ natToString (List.length targetKeys))))
      else
        match compareCells i sourceRow targetRow targetKeys sourceKeys with
        | Some r => Ok (Some r)
        | None => compareRows (S i) sourceRest targetRest
        end
  | _ :: _, [] => Throw (JsError "Cannot convert undefined or null to object")
  end.

Definition compareSamples (sourceData targetData : list Row)
  : Result DataMappingResult :=
  if negb (Nat.eqb (List.length sourceData) (List.length targetData))
  then Ok (invalid ("Row count mismatch in sample: source="
                    ++ natToString (List.length sourceData)
                    ++ ", target=" ++ natToString (List.length targetData)))
  else
    early <- compareRows 0 sourceData targetData ;;
    match early with
    | Some r => Ok r
    | None =>
        Ok (mkResult true ("All " ++ natToString (List.length sourceData)
                           ++ " sample rows match perfectly"))
    end.

Definition sameSqliteDatabase (sourceConfig targetConfig : DBConnection.t)
  : bool :=
  isSqlite (DBConnection.type sourceConfig)
  && isSqlite (DBConnection.type targetConfig)
  && String.eqb (DBConnection.database sourceConfig)
                (DBConnection.database targetConfig).

Definition verifyDataMapping (w : World)
  (sourceConfig targetConfig : DBConnection.t) (tableName : string)
  (sampleSize : Z) : IO.t DataMappingResult :=
  IO.tryCatch
    ((* Special case: both configs are SQLite and name the same database *)
     if sameSqliteDatabase sourceConfig targetConfig
     then IO.ret (mkResult true
                    "Identical SQLite database - same file for source and target")
     else
       (* Get sample data from both databases *)
       sourceData <~ IO.query (SampleQuery sourceConfig tableName sampleSize)
                       (getSampleData w sourceConfig tableName sampleSize) ;;
       targetData <~ IO.query (SampleQuery targetConfig tableName sampleSize)
                       (getSampleData w targetConfig tableName sampleSize) ;;
       IO.lift (compareSamples sourceData targetData))
    (fun error =>
       IO.ret (invalid ("Error during data mapping verification: "
                        ++ messageOrString error))).

End DataMapping.

Import DataMapping.

(* ------------------------------------------------------------------ *)
(** ** Table verifier: [processTableVerification] *)
(* ------------------------------------------------------------------ *)

Module TableVerifier.

(** The object [processTableVerification] resolves with. *)
Record TableResult : Type := mkTableResult {
  sourceRows : Z;
  targetRows : Z;
  schemaMatch : bool;
  status : TableStatus;
  sourceColumns : list Column.t;
  targetColumns : list Column.t;
  dataMappingValid : bool;
  dataMappingDetails : string
}.

Definition processTableVerification (cfg : AppConfig.t) (w : World)
  (sourceConfig targetConfig : DBConnection.t) (tableName : string)
  : IO.t TableResult :=
  sourceRows <~ IO.query (RowCountQuery sourceConfig tableName)
                  (getTableRowCount w sourceConfig tableName) ;;
  targetRows <~ IO.query (RowCountQuery targetConfig tableName)
                  (getTableRowCount w targetConfig tableName) ;;
  sourceColumns <~ IO.query (SchemaQuery sourceConfig tableName)
                     (getTableSchema w sourceConfig tableName) ;;
  targetColumns <~ IO.query (SchemaQuery targetConfig tableName)
                     (getTableSchema w targetConfig tableName) ;;
  schemaMatch <~ IO.lift (compareSchemas sourceColumns targetColumns) ;;
  let rowsMatch := Z.eqb sourceRows targetRows in
  (* Perform data mapping verification for matched tables *)
  dataMappingResult <~
    (if schemaMatch && rowsMatch
     then verifyDataMapping w sourceConfig targetConfig tableName
            (AppConfig.sampleDataSize cfg)
     else IO.ret (mkResult true "Not verified")) ;;
  let status :=
    if schemaMatch && rowsMatch && isValid dataMappingResult
    then MATCH else MISMATCH in
  IO.ret (mkTableResult sourceRows targetRows schemaMatch status
            sourceColumns targetColumns
            (isValid dataMappingResult) (details dataMappingResult)).

End TableVerifier.

Import TableVerifier.

(* ------------------------------------------------------------------ *)
(** ** Verification orchestrator: [verifyMigration] and
       [processTablesInParallel] *)
(* ------------------------------------------------------------------ *)

Module Orchestrator.

(** [withTimeout(promise, timeoutMs, operation)] of
    [server/utils/error-handler.ts]: a race between the promise and a
    timer; [timerFirst] says who wins. *)
Definition withTimeout {A : Type} (timerFirst : bool) (promise : Result A)
  (timeoutMs : Z) (operation : string) : Result A :=
  if timerFirst
  then Throw (TimeoutError
                (operation ++ " timed out after " ++ numberToString timeoutMs ++ "ms")
                timeoutMs operation)
  else promise.

(** What [await withTimeout(this.processTableVerification(...), ...)]
    yields for one table. *)
Definition verifyTable (cfg : AppConfig.t) (w : World)
  (sourceConfig targetConfig : DBConnection.t) (tableName : string)
  : Result TableResult :=
  withTimeout (processingTimedOut w tableName)
    (IO.outcome (processTableVerification cfg w sourceConfig targetConfig tableName))
    (AppConfig.processingTimeout cfg)
    ("Table " ++ dquote ++ tableName ++ dquote ++ " processing").

(** The three accumulators of [verifyMigration]. *)
Record Tally : Type := mkTally {
  comparison : list TableComparison.t;
  totalSourceRows : Z;
  matchedTables : Z
}.

Definition emptyTally : Tally := mkTally [] 0 0.

(** *** Sequential mode *)

(** One iteration of [for (const tableName of commonTables)], with its
    [try]/[catch]. *)
Definition sequentialStep (verify : string -> Result TableResult)
  (acc : Tally) (tableName : string) : Tally :=
  match verify tableName with
  | Ok tableResult =>
      mkTally
        (comparison acc ++
           [TableComparison.mk tableName
              (sourceRows tableResult) (targetRows tableResult)
              (schemaMatch tableResult) (status tableResult)
              (sourceColumns tableResult) (targetColumns tableResult)
              (dataMappingValid tableResult) (dataMappingDetails tableResult)])
        (totalSourceRows acc + sourceRows tableResult)
        (if isMatch (status tableResult)
         then matchedTables acc + 1 else matchedTables acc)
  | Throw error =>
      (* Add failed table to comparison with error status *)
      mkTally
        (comparison acc ++
           [TableComparison.mk tableName 0 0 false MISMATCH [] [] false
              ("Processing failed: " ++ messageOrUnknown error)])
        (totalSourceRows acc)
        (matchedTables acc)
  end.

Definition processSequentially (verify : string -> Result TableResult)
  (commonTables : list string) : Tally :=
  fold_left (sequentialStep verify) commonTables emptyTally.

(** *** Parallel mode *)

(** Where a worker (one call of the closure [processTable]) stands: about
    to test the loop condition, awaiting the verification of a table, or
    returned. *)
Inductive Worker : Type :=
| AtLoopHead
| Processing (tableName : string)
| Finished.

(** The variables the workers share. *)
Record Shared : Type := mkShared {
  currentIndex : nat;
  results : list TableComparison.t;
  workers : list Worker
}.

Fixpoint setWorker (ws : list Worker) (i : nat) (w : Worker) : list Worker :=
  match ws, i with
  | [], _ => []
  | _ :: ws', O => w :: ws'
  | w0 :: ws', S i' => w0 :: setWorker ws' i' w
  end.

(** Worker [i] runs until its next suspension point.  At the loop head it
    reads [tableNames[currentIndex++]] (test and increment happen without
    an intervening [await]) or leaves the loop; when its verification
    settles it pushes the entry of the [try] or of the [catch] branch.
    A worker that has returned, or a number that names no worker, leaves
    the state alone.  The event loop runs each worker up to its first
    [await] as soon as it is started; a schedule may also delay that, so
    the schedules cover every interleaving of the event loop. *)
Definition workerStep (verify : string -> Result TableResult)
  (tableNames : list string) (s : Shared) (i : nat) : Shared :=
  match nth_error (workers s) i with
  | Some AtLoopHead =>
      match nth_error tableNames (currentIndex s) with
      | Some tableName =>
          mkShared (S (currentIndex s)) (results s)
                   (setWorker (workers s) i (Processing tableName))
      | None =>
          mkShared (currentIndex s) (results s)
                   (setWorker (workers s) i Finished)
      end
  | Some (Processing tableName) =>
      let entry :=
        match verify tableName with
        | Ok tableResult =>
            TableComparison.mk tableName
              (sourceRows tableResult) (targetRows tableResult)
              (schemaMatch tableResult) (status tableResult)
              (sourceColumns tableResult) (targetColumns tableResult)
              (dataMappingValid tableResult) (dataMappingDetails tableResult)
        | Throw error =>
            TableComparison.mk tableName 0 0 false MISMATCH [] [] false
              ("Processing failed: " ++ messageOrUnknown error)
        end in
      mkShared (currentIndex s) (results s ++ [entry])
               (setWorker (workers s) i AtLoopHead)
  | Some Finished | None => s
  end.

(** A schedule names, step after step, the worker that runs next. *)
Definition runSchedule (verify : string -> Result TableResult)
  (tableNames : list string) (schedule : list nat) (s : Shared) : Shared :=
  fold_left (workerStep verify tableNames) schedule s.

Definition isFinished (w : Worker) : bool :=
  match w with Finished => true | _ => false end.

Fixpoint firstActive (ws : list Worker) : option nat :=
  match ws with
  | [] => None
  | w :: ws' =>
      if isFinished w then option_map S (firstActive ws') else Some O
  end.

(** [await Promise.all(processing)]: the workers that the schedule left
    unfinished run on, the lowest-numbered first, until all promises are
    resolved. *)
Fixpoint awaitAll (verify : string -> Result TableResult)
  (tableNames : list string) (fuel : nat) (s : Shared) : Shared :=
  match fuel with
  | O => s
  | S fuel' =>
      match firstActive (workers s) with
      | Some i => awaitAll verify tableNames fuel' (workerStep verify tableNames s i)
      | None => s
      end
  end.

Definition workerWeight (w : Worker) : nat :=
  match w with
  | Finished => 0
  | AtLoopHead => 1
  | Processing _ => 2
  end.

(** Number of steps left, at most. *)
Definition stepsLeft (tableNames : list string) (s : Shared) : nat :=
  list_sum (map workerWeight (workers s))
  + 3 * (List.length tableNames - currentIndex s).

(** [arr.sort(compare)]: the sort is stable, so for a comparator that is a
    difference of keys the result is the one that stable insertion
    yields. *)
Fixpoint insertSorted {A : Type} (compare : A -> A -> Z) (x : A) (l : list A)
  : list A :=
  match l with
  | [] => [x]
  | y :: l' =>
      if (compare x y <=? 0)%Z then x :: l
      else y :: insertSorted compare x l'
  end.

Definition sort {A : Type} (compare : A -> A -> Z) (l : list A) : list A :=
  fold_right (insertSorted compare) [] l.

Definition byDiscoveryOrder (tableNames : list string)
  (a b : TableComparison.t) : Z :=
  let indexA := indexOf tableNames (TableComparison.tableName a) in
  let indexB := indexOf tableNames (TableComparison.tableName b) in
  (indexA - indexB)%Z.

Definition startWorkers (concurrency : nat) : Shared :=
  mkShared 0 [] (repeat AtLoopHead concurrency).

Definition processTablesInParallel (cfg : AppConfig.t)
  (verify : string -> Result TableResult) (tableNames : list string)
  (schedule : list nat) : list TableComparison.t :=
  let concurrency :=
    mathMin (AppConfig.maxConcurrentTables cfg)
            (Num (Z.of_nat (List.length tableNames))) in
  (* Start concurrent processing *)
  let started := startWorkers (roundsBelow concurrency) in
  let scheduled := runSchedule verify tableNames schedule started in
  let settled :=
    awaitAll verify tableNames (stepsLeft tableNames scheduled) scheduled in
  (* Sort results to maintain original table order *)
  sort (byDiscoveryOrder tableNames) (results settled).

(** The loop [for (const result of results)] of the parallel branch. *)
Definition tallyStep (acc : Tally) (result : TableComparison.t) : Tally :=
  mkTally
    (comparison acc ++ [result])
    (totalSourceRows acc + TableComparison.sourceRows result)
    (if isMatch (TableComparison.status result)
     then matchedTables acc + 1 else matchedTables acc).

(** *** Vocabulary of the statements *)

(** The entry that either mode records for a table: the verdict of the
    verification, or the MISMATCH entry of the [catch] branch. *)
Definition comparisonEntry (verify : string -> Result TableResult)
  (tableName : string) : TableComparison.t :=
  match verify tableName with
  | Ok tableResult =>
      TableComparison.mk tableName
        (sourceRows tableResult) (targetRows tableResult)
        (schemaMatch tableResult) (status tableResult)
        (sourceColumns tableResult) (targetColumns tableResult)
        (dataMappingValid tableResult) (dataMappingDetails tableResult)
  | Throw error =>
      TableComparison.mk tableName 0 0 false MISMATCH [] [] false
        ("Processing failed: " ++ messageOrUnknown error)
  end.

(** The tables whose verification is in flight. *)
Definition processingTables (ws : list Worker) : list string :=
  flat_map (fun w => match w with Processing t => [t] | _ => [] end) ws.

(** Position of an entry's table in the discovery order. *)
Definition discoveryIndex (tableNames : list string) (c : TableComparison.t)
  : Z :=
  indexOf tableNames (TableComparison.tableName c).

Definition inDiscoveryOrder (tableNames : list string)
  (a b : TableComparison.t) : Prop :=
  (discoveryIndex tableNames a <= discoveryIndex tableNames b)%Z.

(** A table list in which equal names stand next to each other, as every
    catalog query of the adapters yields ([SHOW TABLES], [sqlite_master]
    and the [ORDER BY table_name] of the PostgreSQL query): along the list
    the index of the first occurrence never decreases. *)
Definition Grouped (tableNames : list string) : Prop :=
  StronglySorted
    (fun a b => (indexOf tableNames a <= indexOf tableNames b)%Z) tableNames.

(** What holds of the shared variables at every suspension point: the
    index stays within the list, the entries pushed so far together with
    the tables in flight are the tables read so far, and a worker has
    returned only once the list was exhausted. *)
Record Invariant (verify : string -> Result TableResult)
  (tableNames : list string) (s : Shared) : Prop := mkInvariant {
  inv_index : currentIndex s <= List.length tableNames;
  inv_done :
    exists done,
      results s = map (comparisonEntry verify) done
      /\ Permutation (done ++ processingTables (workers s))
                     (firstn (currentIndex s) tableNames);
  inv_finished :
    In Finished (workers s) -> currentIndex s = List.length tableNames
}.

Definition allFinished (s : Shared) : Prop :=
  Forall (fun w => w = Finished) (workers s).

Definition matchCount (l : list TableComparison.t) : Z :=
  Z.of_nat (List.length
              (filter (fun c => isMatch (TableComparison.status c)) l)).

Definition mismatchCount (l : list TableComparison.t) : Z :=
  Z.of_nat (List.length
              (filter (fun c => negb (isMatch (TableComparison.status c))) l)).

Definition sourceRowsTotal (l : list TableComparison.t) : Z :=
  fold_right (fun c acc => (TableComparison.sourceRows c + acc)%Z) 0%Z l.

(** *** The run *)

Definition commonTablesOf (sourceTables targetTables : list string)
  : list string :=
  filter (fun table => includes targetTables table) sourceTables.

Definition missingInTargetOf (sourceTables targetTables : list string)
  : list string :=
  filter (fun table => negb (includes targetTables table)) sourceTables.

Definition extraInTargetOf (sourceTables targetTables : list string)
  : list string :=
  filter (fun table => negb (includes sourceTables table)) targetTables.

Definition useParallel (cfg : AppConfig.t) (commonTables : list string) : bool :=
  AppConfig.enableParallelProcessing cfg
  && (1 <? List.length commonTables)%nat.

Definition tallyTables (cfg : AppConfig.t)
  (verify : string -> Result TableResult) (commonTables : list string)
  (schedule : list nat) : Tally :=
  if useParallel cfg commonTables
  then fold_left tallyStep
         (processTablesInParallel cfg verify commonTables schedule) emptyTally
  else processSequentially verify commonTables.

Definition summarize (completedAt : string) (commonTables : list string)
  (tally : Tally) : VerificationResult.t :=
  let totalTables := Z.of_nat (List.length commonTables) in
  let mismatchedTables := (totalTables - matchedTables tally)%Z in
  let overallStatus :=
    if (mismatchedTables =? 0)%Z then SUCCESS else SUMMARY_MISMATCH in
  let message : string :=
    match overallStatus return string with
    | SUCCESS => "Migration Verification Completed Successfully"
    | SUMMARY_MISMATCH =>
        ("Migration Verification Found " ++ numberToString mismatchedTables
         ++ " Issue" ++ (if (1 <? mismatchedTables)%Z then "s" else ""))%string
    end in
  VerificationResult.mk
    (VerificationSummary.mk overallStatus message completedAt totalTables
       (matchedTables tally) mismatchedTables (totalSourceRows tally))
    (comparison tally).

(** [verifyMigration]; [schedule] resolves the interleaving of the
    parallel workers and [completedAt] is the clock reading at the end.
    The calls to the progress service only notify observers; they neither
    throw nor feed back into the result and are left out. *)
Definition verifyMigration (cfg : AppConfig.t) (w : World)
  (schedule : list nat) (completedAt : string)
  (sourceConfig targetConfig : DBConnection.t)
  : Result VerificationResult.t :=
  let body :=
    (* Test connections *)
    _ <- testConnection w sourceConfig ;;
    _ <- testConnection w targetConfig ;;
    (* Get tables from both databases *)
    sourceTables <- getTables w sourceConfig ;;
    targetTables <- getTables w targetConfig ;;
    (* Find common tables *)
    let commonTables := commonTablesOf sourceTables targetTables in
    let tally :=
      tallyTables cfg (verifyTable cfg w sourceConfig targetConfig)
        commonTables schedule in
    Ok (summarize completedAt commonTables tally) in
  match body with
  | Ok result => Ok result
  | Throw error =>
      Throw (JsError ("Database verification failed: " ++ messageOrUnknown error))
  end.

End Orchestrator.

Import Orchestrator.

(* ------------------------------------------------------------------ *)
(** ** Connection pool: [ConnectionPool] *)
(* ------------------------------------------------------------------ *)

Module Pool.

(** A live driver connection, known by its object identity. *)
Definition Handle : Type := nat.

Record PooledConnection : Type := mkPooled {
  connection : Handle;
  type : DbType;
  lastUsed : Z;
  inUse : bool;
  config : DBConnection.t
}.

(** The fields of the class: [pools] is a [Map] from pool key to an array
    of entries, kept in insertion order. *)
Record ConnectionPool : Type := mkPool {
  pools : list (string * list PooledConnection);
  activeConnections : Z;
  maxConnections : Z
}.

(** [new ConnectionPool()] *)
Definition newPool (cfg : AppConfig.t) : ConnectionPool :=
  mkPool [] 0 (AppConfig.maxConcurrentConnections cfg).

(** A field that may be [undefined], inside a template literal. *)
Definition renderString (o : option string) : string :=
  match o with Some s => s | None => "undefined" end.

Definition renderNumber (o : option Z) : string :=
  match o with Some z => numberToString z | None => "undefined" end.

Definition getPoolKey (config : DBConnection.t) : string :=
  dbTypeName (DBConnection.type config) ++ ":"
  ++ renderString (DBConnection.host config) ++ ":"
  ++ renderNumber (DBConnection.port config) ++ ":"
  ++ DBConnection.database config ++ ":"
  ++ renderString (DBConnection.user config).

(** [this.pools.get(poolKey)] *)
Fixpoint mapGet (m : list (string * list PooledConnection)) (poolKey : string)
  : option (list PooledConnection) :=
  match m with
  | [] => None
  | (k, pool) :: m' => if String.eqb k poolKey then Some pool else mapGet m' poolKey
  end.

(** [this.pools.set(poolKey, pool)]: a new key goes to the end. *)
Fixpoint mapSet (m : list (string * list PooledConnection)) (poolKey : string)
  (pool : list PooledConnection) : list (string * list PooledConnection) :=
  match m with
  | [] => [(poolKey, pool)]
  | (k, old) :: m' =>
      if String.eqb k poolKey then (k, pool) :: m'
      else (k, old) :: mapSet m' poolKey pool
  end.

(** Mutation, through the reference that [find] returned, of the first
    entry that satisfies [p]. *)
Fixpoint updateFirst (p : PooledConnection -> bool)
  (f : PooledConnection -> PooledConnection) (pool : list PooledConnection)
  : list PooledConnection :=
  match pool with
  | [] => []
  | pc :: pool' => if p pc then f pc :: pool' else pc :: updateFirst p f pool'
  end.

Definition isConnectionValid (now : Z) (pooledConnection : PooledConnection)
  : bool :=
  let maxAge := 300000%Z in
  let age := (now - lastUsed pooledConnection)%Z in
  (age <? maxAge)%Z.

Definition isAvailable (now : Z) (conn : PooledConnection) : bool :=
  negb (inUse conn) && isConnectionValid now conn.

Definition getAvailableConnection (now : Z) (cp : ConnectionPool)
  (poolKey : string) : option PooledConnection :=
  match mapGet (pools cp) poolKey with
  | None => None
  | Some pool => find (isAvailable now) pool
  end.

(** [availableConnection.inUse = true; availableConnection.lastUsed =
    Date.now()] *)
Definition markInUse (now : Z) (pc : PooledConnection) : PooledConnection :=
  mkPooled (connection pc) (type pc) now true (config pc).

(** [pooledConnection.inUse = false; pooledConnection.lastUsed =
    Date.now()] *)
Definition markIdle (now : Z) (pc : PooledConnection) : PooledConnection :=
  mkPooled (connection pc) (type pc) now false (config pc).

(** [createConnection]; [driver] is what connecting to the server yields:
    a fresh connection or a rejection. *)
Definition createConnection (driver : Result Handle) (config : DBConnection.t)
  : Result Handle :=
  match DBConnection.type config with
  | mysql | postgres => driver
  | sqlite =>
      Throw (DatabaseError ("Unsupported database type: " ++ dbTypeName sqlite)
                           "INVALID_DATABASE_TYPE")
  end.

(** [getConnection] at clock reading [now] (the readings of [Date.now()]
    within one call are taken to agree).  The [catch] clause logs and
    rethrows.  This is a call that no other call on the pool overlaps:
    nothing happens to the pool while [await this.createConnection(config)]
    is pending.  Overlapping calls are composed of [getConnectionCheck]
    and [getConnectionStore] below. *)
Definition getConnection (now : Z) (driver : Result Handle)
  (config : DBConnection.t) (cp : ConnectionPool)
  : Result Handle * ConnectionPool :=
  let poolKey := getPoolKey config in
  (* Try to get an existing connection from the pool *)
  match getAvailableConnection now cp poolKey with
  | Some availableConnection =>
      let pool :=
        match mapGet (pools cp) poolKey with Some pool => pool | None => [] end in
      (Ok (connection availableConnection),
       mkPool (mapSet (pools cp) poolKey (updateFirst (isAvailable now) (markInUse now) pool))
              (activeConnections cp) (maxConnections cp))
  | None =>
      (* Check connection limits *)
      if (maxConnections cp <=? activeConnections cp)%Z
      then (Throw (DatabaseError "Connection pool exhausted" "RESOURCE_EXHAUSTED"),
            cp)
      else
        (* Create new connection *)
        match createConnection driver config with
        | Throw e => (Throw e, cp)
        | Ok connection =>
            let pooledConnection :=
              mkPooled connection (DBConnection.type config) now true config in
            (* Add to pool *)
            let pool :=
              match mapGet (pools cp) poolKey with
              | Some pool => pool
              | None => []
              end in
            (Ok connection,
             mkPool (mapSet (pools cp) poolKey (pool ++ [pooledConnection]))
                    (activeConnections cp + 1) (maxConnections cp))
        end
  end.

(** What the first stretch of [getConnection] finds. *)
Inductive Checked : Type :=
| Reused (connection : Handle)
| Refused (error : Thrown)
| MustCreate.

(** [getConnection] up to [await this.createConnection(config)]: the
    search for an idle entry and the test of the limit, which run without
    a suspension point. *)
Definition getConnectionCheck (now : Z) (config : DBConnection.t)
  (cp : ConnectionPool) : Checked * ConnectionPool :=
  let poolKey := getPoolKey config in
  (* Try to get an existing connection from the pool *)
  match getAvailableConnection now cp poolKey with
  | Some availableConnection =>
      let pool :=
        match mapGet (pools cp) poolKey with Some pool => pool | None => [] end in
      (Reused (connection availableConnection),
       mkPool (mapSet (pools cp) poolKey (updateFirst (isAvailable now) (markInUse now) pool))
              (activeConnections cp) (maxConnections cp))
  | None =>
      (* Check connection limits *)
      if (maxConnections cp <=? activeConnections cp)%Z
      then (Refused (DatabaseError "Connection pool exhausted" "RESOURCE_EXHAUSTED"),
            cp)
      else (MustCreate, cp)
  end.

(** [getConnection] from the moment the driver has connected, at clock
    reading [now]: the new entry is pushed and counted.  The limit is not
    tested again. *)
Definition getConnectionStore (now : Z) (config : DBConnection.t)
  (connection : Handle) (cp : ConnectionPool) : ConnectionPool :=
  let poolKey := getPoolKey config in
  let pooledConnection :=
    mkPooled connection (DBConnection.type config) now true config in
  (* Add to pool *)
  let pool :=
    match mapGet (pools cp) poolKey with
    | Some pool => pool
    | None => []
    end in
  mkPool (mapSet (pools cp) poolKey (pool ++ [pooledConnection]))
         (activeConnections cp + 1) (maxConnections cp).

Definition holds (c : Handle) (pc : PooledConnection) : bool :=
  Nat.eqb (connection pc) c.

(** The loop of [releaseConnection] over [this.pools.entries()]; [None]
    when no pool holds the connection. *)
Fixpoint releaseIn (now : Z) (c : Handle)
  (entries : list (string * list PooledConnection))
  : option (list (string * list PooledConnection)) :=
  match entries with
  | [] => None
  | (poolKey, pool) :: rest =>
      if existsb (holds c) pool
      then Some ((poolKey, updateFirst (holds c) (markIdle now) pool) :: rest)
      else option_map (cons (poolKey, pool)) (releaseIn now c rest)
  end.

(** [releaseConnection] at clock reading [now]; the flag tells whether the
    connection was unknown to the pool and therefore closed directly. *)
Definition releaseConnection (now : Z) (c : Handle) (cp : ConnectionPool)
  : ConnectionPool * bool :=
  match releaseIn now c (pools cp) with
  | Some pools' =>
      (mkPool pools' (activeConnections cp) (maxConnections cp), false)
  | None => (cp, true)
  end.

(** [this.pools.delete(poolKey)] *)
Fixpoint mapDelete (m : list (string * list PooledConnection)) (poolKey : string)
  : list (string * list PooledConnection) :=
  match m with
  | [] => []
  | (k, pool) :: m' =>
      if String.eqb k poolKey then m' else (k, pool) :: mapDelete m' poolKey
  end.

(** The guard [if (poolKey)]: an absent key and the empty string are
    both falsy. *)
Definition truthyKey (poolKey : option string) : option string :=
  match poolKey with
  | Some "" => None
  | other => other
  end.

(** [closePool(poolKey?)]; closing the driver connections is an effect
    outside the pool's fields.  The call is taken without another call on
    the pool between its [await] and its bookkeeping. *)
Definition closePool (poolKey : option string) (cp : ConnectionPool)
  : ConnectionPool :=
  match truthyKey poolKey with
  | Some key =>
      match mapGet (pools cp) key with
      | Some pool =>
          mkPool (mapDelete (pools cp) key)
                 (activeConnections cp - Z.of_nat (List.length pool))
                 (maxConnections cp)
      | None => cp
      end
  | None =>
      (* Close all pools *)
      mkPool [] 0 (maxConnections cp)
  end.

Definition isExpired (now : Z) (pc : PooledConnection) : bool :=
  let maxAge := 300000%Z in
  negb (inUse pc) && (maxAge <? now - lastUsed pc)%Z.

(** [cleanupExpiredConnections] at clock reading [now]: every pool keeps
    the entries that are in use or young enough, and the count drops by
    the number of entries removed. *)
Definition cleanupExpiredConnections (now : Z) (cp : ConnectionPool)
  : ConnectionPool :=
  mkPool
    (map (fun entry : string * list PooledConnection =>
            (fst entry, filter (fun pc => negb (isExpired now pc)) (snd entry)))
         (pools cp))
    (activeConnections cp
     - Z.of_nat (List.length (filter (isExpired now) (flat_map snd (pools cp)))))
    (maxConnections cp).

(** One entry of [getPoolStats().pools]. *)
Record PoolStats : Type := mkStats {
  total : nat;
  statsInUse : nat;
  available : nat
}.

Definition statsOf (pool : list PooledConnection) : PoolStats :=
  mkStats (List.length pool)
          (List.length (filter inUse pool))
          (List.length (filter (fun pc => negb (inUse pc)) pool)).

Definition getPoolStats (cp : ConnectionPool)
  : Z * Z * list (string * PoolStats) :=
  (activeConnections cp, maxConnections cp,
   map (fun entry : string * list PooledConnection =>
          (fst entry, statsOf (snd entry))) (pools cp)).

(** All entries the pool holds. *)
Definition allEntries (cp : ConnectionPool) : list PooledConnection :=
  flat_map snd (pools cp).

(** The stretches of the pool's methods that run without a suspension
    point, as overlapping callers and the cleanup timer interleave them. *)
Inductive PoolStep : Type :=
| CheckStep (now : Z) (config : DBConnection.t)
| StoreStep (now : Z) (config : DBConnection.t) (connection : Handle)
| ReleaseStep (now : Z) (connection : Handle)
| CleanupStep (now : Z).

Definition poolStep (cp : ConnectionPool) (step : PoolStep) : ConnectionPool :=
  match step with
  | CheckStep now config => snd (getConnectionCheck now config cp)
  | StoreStep now config connection => getConnectionStore now config connection cp
  | ReleaseStep now connection => fst (releaseConnection now connection cp)
  | CleanupStep now => cleanupExpiredConnections now cp
  end.

Definition runPool (steps : list PoolStep) (cp : ConnectionPool)
  : ConnectionPool :=
  fold_left poolStep steps cp.

(** The shape of [pools] that the methods of the class establish and keep:
    a key occurs once, and an entry is filed under the key of its own
    [config]. *)
Definition WellFormed (cp : ConnectionPool) : Prop :=
  NoDup (map fst (pools cp))
  /\ Forall (fun entry : string * list PooledConnection =>
               Forall (fun pc => getPoolKey (config pc) = fst entry)
                      (snd entry))
            (pools cp).

(** An entry that [getConnection] may hand out for [c] at time [now]: it
    has the identity key of [c], is idle and has not expired. *)
Definition reusableFor (now : Z) (c : DBConnection.t) (pc : PooledConnection)
  : Prop :=
  getPoolKey (config pc) = getPoolKey c
  /\ inUse pc = false
  /\ (now - lastUsed pc < 300000)%Z.

End Pool.

(* ------------------------------------------------------------------ *)
(** ** Sample databases *)
(* ------------------------------------------------------------------ *)

Module Examples.

Definition sqliteFile (database path : string) : DBConnection.t :=
  DBConnection.mk sqlite None None None None database (Some path).

Definition mysqlShop : DBConnection.t :=
  DBConnection.mk mysql (Some "db1.local") (Some 3306%Z) (Some "app") None
    "shop" None.

Definition postgresShop : DBConnection.t :=
  DBConnection.mk postgres (Some "db2.local") (Some 5432%Z) (Some "app") None
    "shop" None.

Definition customersMysql : list Column.t :=
  [Column.mk "id" "int" false; Column.mk "Name" "varchar" true].

Definition customersPostgres : list Column.t :=
  [Column.mk "id" "bigint" false; Column.mk "name" "character varying" true].

Definition customersRows : list Row :=
  [[("id", JsCell "1"); ("name", JsCell "Ann ")];
   [("id", JsCell "2"); ("name", JsNull)]].

(** A MySQL source and a PostgreSQL target that hold the same two tables;
    the target also holds [audit], the source also holds [legacy], and the
    row count of [orders] cannot be read. *)
Definition shopWorld : World :=
  mkWorld
    (fun _ => Ok tt)
    (fun config =>
       match DBConnection.type config with
       | mysql => Ok ["customers"; "legacy"; "orders"]
       | _ => Ok ["audit"; "customers"; "orders"]
       end)
    (fun _ tableName =>
       if String.eqb tableName "orders"
       then Throw (DatabaseError "MySQL row count for orders failed: gone"
                                 "QUERY_ERROR")
       else Ok 2%Z)
    (fun config _ =>
       match DBConnection.type config with
       | mysql => Ok customersMysql
       | _ => Ok customersPostgres
       end)
    (fun _ _ _ => Ok customersRows)
    (fun _ => false).

(** A pool in which connection 7 to the MySQL shop was acquired at time
    1000 and released at time 2000. *)
Definition warmPool : Pool.ConnectionPool :=
  fst (Pool.releaseConnection 2000 7
         (snd (Pool.getConnection 1000 (Ok 7) mysqlShop
                 (Pool.newPool AppConfig.defaults)))).


(** Two workers; the second one, verifying [orders], settles first. *)
Definition ordersFirst : list nat := [0; 1; 1; 0].

Definition shopVerify : string -> Result TableResult :=
  verifyTable AppConfig.defaults shopWorld mysqlShop postgresShop.

End Examples.

(* ------------------------------------------------------------------ *)
(** ** Schema cache: [SchemaCache] ([server/services/schema-cache.ts]) *)
(* ------------------------------------------------------------------ *)

Module SchemaCache.

Record CacheEntry : Type := mkEntry {
  schema : list Column.t;
  timestamp : Z;
  connectionKey : string
}.

(** The field [cache]: a [Map] from cache key to entry, in insertion
    order.  A [Map] holds a key once; [Unique] states it and the methods
    keep it. *)
Definition t : Type := list (string * CacheEntry).

Definition Unique (c : t) : Prop := NoDup (map fst c).

Definition TTL : Z := 300000.

Definition getCacheKey (config : DBConnection.t) (tableName : string) : string :=
  dbTypeName (DBConnection.type config) ++ ":"
  ++ Pool.renderString (DBConnection.host config) ++ ":"
  ++ Pool.renderNumber (DBConnection.port config) ++ ":"
  ++ DBConnection.database config ++ ":"
  ++ tableName.

Definition getConnectionKey (config : DBConnection.t) : string :=
  dbTypeName (DBConnection.type config) ++ ":"
  ++ Pool.renderString (DBConnection.host config) ++ ":"
  ++ Pool.renderNumber (DBConnection.port config) ++ ":"
  ++ DBConnection.database config.

(** [this.cache.get(key)] *)
Fixpoint lookup (c : t) (key : string) : option CacheEntry :=
  match c with
  | [] => None
  | (k, e) :: c' => if String.eqb k key then Some e else lookup c' key
  end.

(** [this.cache.delete(key)] *)
Definition delete (c : t) (key : string) : t :=
  filter (fun entry : string * CacheEntry => negb (String.eqb (fst entry) key)) c.

(** [this.cache.set(key, entry)]: an existing key keeps its place, a new
    key goes to the end. *)
Fixpoint store (c : t) (key : string) (entry : CacheEntry) : t :=
  match c with
  | [] => [(key, entry)]
  | (k, e) :: c' =>
      if String.eqb k key then (k, entry) :: c'
      else (k, e) :: store c' key entry
  end.

(** [get(config, tableName)] at clock reading [now]: the schema or
    [null], and the cache as the call leaves it. *)
Definition get (now : Z) (config : DBConnection.t) (tableName : string) (c : t)
  : option (list Column.t) * t :=
  let key := getCacheKey config tableName in
  match lookup c key with
  | None => (None, c)
  | Some entry =>
      (* Check if cache entry is still valid *)
      let age := (now - timestamp entry)%Z in
      if (TTL <? age)%Z then (None, delete c key)
      else (Some (schema entry), c)
  end.

(** [set(config, tableName, schema)] at clock reading [now]. *)
Definition set (now : Z) (config : DBConnection.t) (tableName : string)
  (columns : list Column.t) (c : t) : t :=
  let key := getCacheKey config tableName in
  let connectionKey := getConnectionKey config in
  store c key (mkEntry columns now connectionKey).

(** The guard [if (tableName)]: an absent argument and the empty string
    are both falsy. *)
Definition truthyName (tableName : option string) : option string :=
  match tableName with
  | Some "" => None
  | other => other
  end.

(** [invalidate(config, tableName?)] *)
Definition invalidate (config : DBConnection.t) (tableName : option string)
  (c : t) : t :=
  match truthyName tableName with
  | Some name =>
      (* Invalidate specific table *)
      delete c (getCacheKey config name)
  | None =>
      (* Invalidate all tables for this connection *)
      let connectionKey := getConnectionKey config in
      filter (fun entry : string * CacheEntry =>
                negb (String.eqb (SchemaCache.connectionKey (snd entry))
                                 connectionKey)) c
  end.

(** [clear()] *)
Definition clear (c : t) : t := [].

(** [cleanupExpired()] at clock reading [now]. *)
Definition cleanupExpired (now : Z) (c : t) : t :=
  filter (fun entry : string * CacheEntry =>
            negb (TTL <? now - timestamp (snd entry))%Z) c.

End SchemaCache.

(* ------------------------------------------------------------------ *)
(** ** Pooled adapters of [DatabaseService]: row counts and schemas *)
(* ------------------------------------------------------------------ *)

Module Adapters.

Record MySQLColumnRow : Type := mkMySQLRow {
  COLUMN_NAME : string;
  DATA_TYPE : string;
  IS_NULLABLE : string
}.

Record PostgreSQLColumnRow : Type := mkPostgreSQLRow {
  column_name : string;
  data_type : string;
  is_nullable : string
}.

(** What the servers and the SQLite manager answer.  [connect] is the
    driver's part of [createConnection]; the count oracles give the number
    the adapter reads off the first row; [timedOut] tells, by the
    operation label handed to [withTimeout], whether the timer fires
    first, and [stalledConnecting] whether the adapter is then still
    waiting for the driver to connect rather than for its statement. *)
Record Backend : Type := mkBackend {
  connect : DBConnection.t -> Result Pool.Handle;
  mysqlCount : DBConnection.t -> string -> Result Z;
  postgresCountQualified : DBConnection.t -> string -> Result Z;
  postgresCountUnqualified : DBConnection.t -> string -> Result Z;
  mysqlColumns : DBConnection.t -> string -> Result (list MySQLColumnRow);
  postgresColumns : DBConnection.t -> string -> Result (list PostgreSQLColumnRow);
  sqliteRowCount : DBConnection.t -> string -> Result Z;
  sqliteSchema : DBConnection.t -> string -> Result (list Column.t);
  timedOut : string -> bool;
  stalledConnecting : string -> bool
}.

(** The two module-level singletons the adapters work on. *)
Record Services : Type := mkServices {
  pool : Pool.ConnectionPool;
  cache : SchemaCache.t
}.

(** [try { body } catch (error) { throw new DatabaseError(prefix + message,
    'QUERY_ERROR') }] around a query. *)
Definition wrapQueryError {A : Type} (prefix : string) (r : Result A) : Result A :=
  match r with
  | Ok a => Ok a
  | Throw error =>
      Throw (DatabaseError (prefix ++ messageOrUnknown error) "QUERY_ERROR")
  end.

(** A query on a borrowed connection: [getConnection] before the [try],
    [releaseConnection] in the [finally]. *)
Definition withPooledConnection {A : Type} (now : Z) (b : Backend)
  (config : DBConnection.t) (body : Result A) (p : Pool.ConnectionPool)
  : Result A * Pool.ConnectionPool :=
  match Pool.getConnection now (connect b config) config p with
  | (Throw e, p1) => (Throw e, p1)
  | (Ok connection, p1) =>
      (body, fst (Pool.releaseConnection now connection p1))
  end.

Definition getMySQLRowCount (now : Z) (b : Backend) (config : DBConnection.t)
  (tableName : string) (p : Pool.ConnectionPool)
  : Result Z * Pool.ConnectionPool :=
  withPooledConnection now b config
    (wrapQueryError ("MySQL row count for " ++ tableName ++ " failed: ")
       (mysqlCount b config tableName))
    p.

Definition getPostgreSQLRowCount (now : Z) (b : Backend)
  (config : DBConnection.t) (tableName : string) (p : Pool.ConnectionPool)
  : Result Z * Pool.ConnectionPool :=
  withPooledConnection now b config
    (wrapQueryError ("PostgreSQL row count for " ++ tableName ++ " failed: ")
       (* the schema-qualified query first, the plain one on any error *)
       match postgresCountQualified b config tableName with
       | Ok count => Ok count
       | Throw _ => postgresCountUnqualified b config tableName
       end)
    p.

(** The pool as the caller finds it when the timer of [withTimeout] has
    fired before the adapter settled.  [withTimeout] does not cancel the
    adapter: it is still waiting, either for the driver to connect (only
    the first stretch of [getConnection] has run) or for its statement,
    with the connection checked out.  The [finally] that releases the
    connection runs only when, and if, the statement settles. *)
Definition whilePending (now : Z) (b : Backend) (config : DBConnection.t)
  (label : string) (p : Pool.ConnectionPool) : Pool.ConnectionPool :=
  if stalledConnecting b label
  then snd (Pool.getConnectionCheck now config p)
  else snd (Pool.getConnection now (connect b config) config p).

(** [withTimeout(adapter, QUERY_TIMEOUT, label)] for a pooled adapter,
    with the pool as the caller finds it when the promise settles: the one
    the adapter left if the adapter settled first, the one of the pending
    adapter if the timer fired first. *)
Definition raced {A : Type} (now : Z) (queryTimeout : Z) (b : Backend)
  (config : DBConnection.t) (label : string)
  (adapter : Result A * Pool.ConnectionPool) (p : Pool.ConnectionPool)
  : Result A * Pool.ConnectionPool :=
  (withTimeout (timedOut b label) (fst adapter) queryTimeout label,
   if timedOut b label then whilePending now b config label p
   else snd adapter).

(** [getTableRowCount]: its [return withTimeout(...)] hands the promise
    out of the [try] block, so a rejection does not pass through the
    [catch]. *)
Definition getTableRowCount (now : Z) (queryTimeout : Z) (b : Backend)
  (config : DBConnection.t) (tableName : string) (p : Pool.ConnectionPool)
  : Result Z * Pool.ConnectionPool :=
  match DBConnection.type config with
  | sqlite =>
      (withTimeout (timedOut b "SQLite getTableRowCount")
         (sqliteRowCount b config tableName)
         queryTimeout "SQLite getTableRowCount", p)
  | mysql =>
      raced now queryTimeout b config "MySQL getTableRowCount"
        (getMySQLRowCount now b config tableName p) p
  | postgres =>
      raced now queryTimeout b config "PostgreSQL getTableRowCount"
        (getPostgreSQLRowCount now b config tableName p) p
  end.

Definition mysqlColumn (row : MySQLColumnRow) : Column.t :=
  Column.mk (COLUMN_NAME row) (DATA_TYPE row)
            (String.eqb (IS_NULLABLE row) "YES").

Definition postgresColumn (row : PostgreSQLColumnRow) : Column.t :=
  Column.mk (column_name row) (data_type row)
            (String.eqb (is_nullable row) "YES").

Definition getMySQLTableSchema (now : Z) (b : Backend) (config : DBConnection.t)
  (tableName : string) (p : Pool.ConnectionPool)
  : Result (list Column.t) * Pool.ConnectionPool :=
  withPooledConnection now b config
    (wrapQueryError ("MySQL schema for " ++ tableName ++ " failed: ")
       (rows <- mysqlColumns b config tableName ;; Ok (map mysqlColumn rows)))
    p.

Definition getPostgreSQLTableSchema (now : Z) (b : Backend)
  (config : DBConnection.t) (tableName : string) (p : Pool.ConnectionPool)
  : Result (list Column.t) * Pool.ConnectionPool :=
  withPooledConnection now b config
    (wrapQueryError ("PostgreSQL schema for " ++ tableName ++ " failed: ")
       (rows <- postgresColumns b config tableName ;;
        Ok (map postgresColumn rows)))
    p.

(** [error instanceof DatabaseError ? error : new DatabaseError(...)] *)
Definition asDatabaseError (prefix : string) (error : Thrown) : Thrown :=
  match error with
  | DatabaseError _ _ => error
  | _ => DatabaseError (prefix ++ messageOrUnknown error) "OPERATION_ERROR"
  end.

(** The query of [getTableSchema] behind a cache miss: the adapter of the
    backend under [withTimeout], awaited inside the [try]; the pool is the
    one the caller finds when that promise settles. *)
Definition querySchema (now : Z) (queryTimeout : Z) (b : Backend)
  (config : DBConnection.t) (tableName : string) (p : Pool.ConnectionPool)
  : Result (list Column.t) * Pool.ConnectionPool :=
  match DBConnection.type config with
  | sqlite =>
      (withTimeout (timedOut b "SQLite getTableSchema")
         (sqliteSchema b config tableName)
         queryTimeout "SQLite getTableSchema", p)
  | mysql =>
      raced now queryTimeout b config "MySQL getTableSchema"
        (getMySQLTableSchema now b config tableName p) p
  | postgres =>
      raced now queryTimeout b config "PostgreSQL getTableSchema"
        (getPostgreSQLTableSchema now b config tableName p) p
  end.

(** [getTableSchema] at clock reading [now]. *)
Definition getTableSchema (now : Z) (queryTimeout : Z) (b : Backend)
  (config : DBConnection.t) (tableName : string) (s : Services)
  : Result (list Column.t) * Services :=
  (* Check cache first (not for SQLite files as they can change) *)
  let '(cachedSchema, cache1) :=
    if isSqlite (DBConnection.type config) then (None, cache s)
    else SchemaCache.get now config tableName (cache s) in
  match cachedSchema with
  | Some columns => (Ok columns, mkServices (pool s) cache1)
  | None =>
      let '(r, p') := querySchema now queryTimeout b config tableName (pool s) in
      match r with
      | Ok columns =>
          (* Cache the result (not for SQLite files) *)
          let cache2 :=
            if isSqlite (DBConnection.type config) then cache1
            else SchemaCache.set now config tableName columns cache1 in
          (Ok columns, mkServices p' cache2)
      | Throw error =>
          (Throw (asDatabaseError "Get table schema failed: " error),
           mkServices p' cache1)
      end
  end.

(** The handles of the connections that are checked out. *)
Definition inUseHandles (p : Pool.ConnectionPool) : list Pool.Handle :=
  map Pool.connection (filter Pool.inUse (Pool.allEntries p)).

(** A live connection is pooled once. *)
Definition UniqueHandles (p : Pool.ConnectionPool) : Prop :=
  NoDup (map Pool.connection (Pool.allEntries p)).

(** The driver hands out a connection the pool does not hold yet. *)
Definition FreshConnect (b : Backend) (config : DBConnection.t)
  (p : Pool.ConnectionPool) : Prop :=
  forall h, connect b config = Ok h ->
            ~ In h (map Pool.connection (Pool.allEntries p)).

End Adapters.

(* ------------------------------------------------------------------ *)
(** ** Sample rows over a connection of its own: [getSampleData] *)
(* ------------------------------------------------------------------ *)

Module Sampling.

(** What [getSampleData] does to the connection it creates. *)
Inductive DriverEvent : Type :=
| Opened
| Queried (sql : string)
| Ended.

(** What the server answers: to the connection attempt
    ([mysql.createConnection], [client.connect]), to a statement, and to
    [end()].  [sqliteRows] answers the SQLite branch as a whole (file
    lookup and the [sqlite3] callbacks are not unfolded here). *)
Record SampleBackend : Type := mkSampleBackend {
  openAnswer : Result unit;
  run : string -> Result (list Row);
  endAnswer : Result unit;
  sqliteRows : Result (list Row)
}.

Definition backtick : string := String (ascii_of_nat 96) EmptyString.

Definition mysqlSampleQuery (tableName : string) (sampleSize : Z) : string :=
  "SELECT * FROM " ++ backtick ++ tableName ++ backtick
  ++ " LIMIT " ++ numberToString sampleSize.

Definition postgresQualifiedQuery (config : DBConnection.t)
  (tableName : string) (sampleSize : Z) : string :=
  "SELECT * FROM " ++ dquote ++ DBConnection.database config ++ dquote ++ "."
  ++ dquote ++ tableName ++ dquote ++ " LIMIT " ++ numberToString sampleSize.

Definition postgresPlainQuery (tableName : string) (sampleSize : Z) : string :=
  "SELECT * FROM " ++ dquote ++ tableName ++ dquote
  ++ " LIMIT " ++ numberToString sampleSize.

(** The statements the function may send, in the order it tries them. *)
Definition sampleQueries (config : DBConnection.t) (tableName : string)
  (sampleSize : Z) : list string :=
  match DBConnection.type config with
  | sqlite => []
  | mysql => [mysqlSampleQuery tableName sampleSize]
  | postgres => [postgresQualifiedQuery config tableName sampleSize;
                 postgresPlainQuery tableName sampleSize]
  end.

(** [await connection.end(); return rows] *)
Definition endThenReturn (sb : SampleBackend) (rows : list Row)
  (events : list DriverEvent) : Result (list Row) * list DriverEvent :=
  match endAnswer sb with
  | Ok _ => (Ok rows, events ++ [Ended])
  | Throw e => (Throw e, events ++ [Ended])
  end.

Definition getSampleData (sb : SampleBackend) (config : DBConnection.t)
  (tableName : string) (sampleSize : Z)
  : Result (list Row) * list DriverEvent :=
  match DBConnection.type config with
  | sqlite => (sqliteRows sb, [])
  | mysql =>
      match openAnswer sb with
      | Throw e => (Throw e, [])
      | Ok _ =>
          let sql := mysqlSampleQuery tableName sampleSize in
          match run sb sql with
          | Throw e => (Throw e, [Opened; Queried sql])
          | Ok rows => endThenReturn sb rows [Opened; Queried sql]
          end
      end
  | postgres =>
      match openAnswer sb with
      | Throw e => (Throw e, [])
      | Ok _ =>
          (* Try with schema name first, then without *)
          let qualified := postgresQualifiedQuery config tableName sampleSize in
          let plain := postgresPlainQuery tableName sampleSize in
          match run sb qualified with
          | Ok rows => endThenReturn sb rows [Opened; Queried qualified]
          | Throw _ =>
              match run sb plain with
              | Throw e =>
                  (Throw e, [Opened; Queried qualified; Queried plain])
              | Ok rows =>
                  endThenReturn sb rows
                    [Opened; Queried qualified; Queried plain]
              end
          end
      end
  end.

End Sampling.

(* ------------------------------------------------------------------ *)
(** ** Configuration: [validateConfig] ([server/config/app-config.ts]) *)
(* ------------------------------------------------------------------ *)

Module Config.

(** The numeric knobs are what [parseInt] made of the environment: an
    integer or [NaN]. *)
Record DatabaseConfig : Type := mkDatabaseConfig {
  connectionTimeout : JsNumber;
  queryTimeout : JsNumber;
  maxRetries : JsNumber;
  retryDelay : JsNumber;
  maxConcurrentConnections : JsNumber
}.

Record VerificationConfig : Type := mkVerificationConfig {
  maxConcurrentTables : JsNumber;
  tableBatchSize : JsNumber;
  sampleDataSize : JsNumber;
  processingTimeout : JsNumber;
  enableParallelProcessing : bool
}.

Record FileUploadConfig : Type := mkFileUploadConfig {
  maxFileSize : JsNumber;
  allowedExtensions : list string;
  uploadTimeout : JsNumber;
  tempFileCleanupInterval : JsNumber;
  tempFileRetentionHours : JsNumber
}.

Record LoggingConfig : Type := mkLoggingConfig {
  level : string;
  enableStructuredLogging : bool
}.

Record t : Type := mk {
  database : DatabaseConfig;
  verification : VerificationConfig;
  fileUpload : FileUploadConfig;
  logging : LoggingConfig
}.

Definition validateConfig (config : t) : list string :=
  let errors1 : list string :=
    if numLt (connectionTimeout (database config)) (Num 1000)
    then ["Database connection timeout must be at least 1000ms"] else [] in
  let errors2 : list string :=
    if numLt (maxConcurrentTables (verification config)) (Num 1)
       || numGt (maxConcurrentTables (verification config)) (Num 20)
    then errors1 ++ ["Max concurrent tables must be between 1 and 20"]
    else errors1 in
  if numLt (maxFileSize (fileUpload config)) (Num 1024)
     || numGt (maxFileSize (fileUpload config)) (Num 1073741824)
  then errors2 ++ ["Max file size must be between 1KB and 1GB"]
  else errors2.

(** The values [createAppConfig] yields with an empty environment. *)
Definition defaults : t :=
  mk (mkDatabaseConfig (Num 30000) (Num 60000) (Num 3) (Num 1000) (Num 10))
     (mkVerificationConfig (Num 5) (Num 10) (Num 5) (Num 30000) true)
     (mkFileUploadConfig (Num 104857600) [".db"; ".sqlite"; ".sqlite3"]
        (Num 30000) (Num 3600000) (Num 24))
     (mkLoggingConfig "info" false).

(** The values [createAppConfig] yields when the environment sets
    VERIFICATION_MAX_CONCURRENT_TABLES to a text that does not start with
    digits (say [five]) and nothing else: [parseInt] returns [NaN]. *)
Definition unparsedConcurrency : t :=
  mk (mkDatabaseConfig (Num 30000) (Num 60000) (Num 3) (Num 1000) (Num 10))
     (mkVerificationConfig NaN (Num 10) (Num 5) (Num 30000) true)
     (mkFileUploadConfig (Num 104857600) [".db"; ".sqlite"; ".sqlite3"]
        (Num 30000) (Num 3600000) (Num 24))
     (mkLoggingConfig "info" false).

End Config.

(* ------------------------------------------------------------------ *)
(** ** Vocabulary of further statements *)
(* ------------------------------------------------------------------ *)

Module Vocabulary.

(** A sampled row whose column names are not empty and stay distinct when
    case is ignored. *)
Definition PlainKeys (r : Row) : Prop :=
  NoDup (map toLowerCase (keysOf r)) /\ ~ In "" (keysOf r).

(** The source rows a table adds to the total of a run. *)
Definition rowsCounted (verify : string -> Result TableResult)
  (tableName : string) : Z :=
  match verify tableName with
  | Ok tableResult => sourceRows tableResult
  | Throw _ => 0%Z
  end.

Definition rowsCountedOver (verify : string -> Result TableResult)
  (tables : list string) : Z :=
  fold_right (fun t acc => (rowsCounted verify t + acc)%Z) 0%Z tables.

(** The counter of the pool agrees with the entries it holds and stays
    within the limit. *)
Definition Counted (cp : Pool.ConnectionPool) : Prop :=
  Pool.activeConnections cp = Z.of_nat (List.length (Pool.allEntries cp))
  /\ (Pool.activeConnections cp <= Pool.maxConnections cp)%Z.

(** The first half of [Counted] alone. *)
Definition CounterAgrees (cp : Pool.ConnectionPool) : Prop :=
  Pool.activeConnections cp = Z.of_nat (List.length (Pool.allEntries cp)).

(** The labels under which [getTableRowCount] and [getTableSchema] race
    the adapter of a backend against the timer. *)
Definition rowCountLabel (d : DbType) : string :=
  match d with
  | sqlite => "SQLite getTableRowCount"
  | mysql => "MySQL getTableRowCount"
  | postgres => "PostgreSQL getTableRowCount"
  end.

Definition schemaLabel (d : DbType) : string :=
  match d with
  | sqlite => "SQLite getTableSchema"
  | mysql => "MySQL getTableSchema"
  | postgres => "PostgreSQL getTableSchema"
  end.

Definition ageOf (now : Z) (pc : Pool.PooledConnection) : Z :=
  (now - Pool.lastUsed pc)%Z.

End Vocabulary.

Import Vocabulary.

(** Further sample databases. *)
Module MoreExamples.

(** A source and a target that share no table name ([Users] and [users]
    differ in case). *)
Definition disjointWorld : World :=
  mkWorld
    (fun _ => Ok tt)
    (fun config =>
       match DBConnection.type config with
       | mysql => Ok ["Users"; "orders_2024"]
       | _ => Ok ["users"]
       end)
    (fun _ _ => Ok 0%Z)
    (fun _ _ => Ok [])
    (fun _ _ _ => Ok [])
    (fun _ => false).

(** The shop of [Examples.shopWorld] with every row count readable: the
    two common tables, [customers] and [orders], verify as MATCH. *)
Definition healthyWorld : World :=
  mkWorld
    (fun _ => Ok tt)
    (fun config =>
       match DBConnection.type config with
       | mysql => Ok ["customers"; "legacy"; "orders"]
       | _ => Ok ["audit"; "customers"; "orders"]
       end)
    (fun _ _ => Ok 2%Z)
    (fun config _ =>
       match DBConnection.type config with
       | mysql => Ok Examples.customersMysql
       | _ => Ok Examples.customersPostgres
       end)
    (fun _ _ _ => Ok Examples.customersRows)
    (fun _ => false).

End MoreExamples.

Module MoreExamples2.

(** A MySQL server that accepts connections as handle 9 and answers every
    statement with an error. *)
Definition failingBackend : Adapters.Backend :=
  Adapters.mkBackend
    (fun _ => Ok 9)
    (fun _ _ => Throw (JsError "Table 'shop.orders' doesn't exist"))
    (fun _ _ => Throw (JsError "relation does not exist"))
    (fun _ _ => Throw (JsError "relation does not exist"))
    (fun _ _ => Throw (JsError "Table 'shop.orders' doesn't exist"))
    (fun _ _ => Throw (JsError "relation does not exist"))
    (fun _ _ => Ok 0%Z)
    (fun _ _ => Ok [])
    (fun _ => false)
    (fun _ => false).

(** A MySQL server that describes every table with the two columns of
    [customers]. *)
Definition describingBackend : Adapters.Backend :=
  Adapters.mkBackend
    (fun _ => Ok 9)
    (fun _ _ => Ok 2%Z)
    (fun _ _ => Ok 2%Z)
    (fun _ _ => Ok 2%Z)
    (fun _ _ => Ok [Adapters.mkMySQLRow "id" "int" "NO";
                    Adapters.mkMySQLRow "Name" "varchar" "YES"])
    (fun _ _ => Ok [])
    (fun _ _ => Ok 0%Z)
    (fun _ _ => Ok [])
    (fun _ => false)
    (fun _ => false).

(** A PostgreSQL server that accepts connections as handle 9 and never
    answers a statement: every timer fires while the statement is
    pending. *)
Definition silentBackend : Adapters.Backend :=
  Adapters.mkBackend
    (fun _ => Ok 9)
    (fun _ _ => Ok 0%Z)
    (fun _ _ => Ok 0%Z)
    (fun _ _ => Ok 0%Z)
    (fun _ _ => Ok [])
    (fun _ _ => Ok [])
    (fun _ _ => Ok 0%Z)
    (fun _ _ => Ok [])
    (fun _ => true)
    (fun _ => false).

Definition freshServices : Adapters.Services :=
  Adapters.mkServices (Pool.newPool AppConfig.defaults) [].

(** The same MySQL database as [Examples.mysqlShop], reached with another
    account. *)
Definition mysqlShopAsAuditor : DBConnection.t :=
  DBConnection.mk mysql (Some "db1.local") (Some 3306%Z) (Some "auditor")
    (Some "secret") "shop" None.

End MoreExamples2.

(* ================================================================== *)
(** * Properties *)
(* ================================================================== *)

(* ------------------------------------------------------------------ *)
(** ** Strings *)
(* ------------------------------------------------------------------ *)

Section StringFacts.

Lemma lowerChar_not_upper (c : ascii) : isUpperAscii (lowerChar c) = false.
Proof. destruct c as [[] [] [] [] [] [] [] []]; reflexivity. Qed.

Lemma toLowerCase_no_upper (s : string) : hasUpperAscii (toLowerCase s) = false.
Proof.
  induction s as [|c s IH]; simpl; [reflexivity|].
  now rewrite lowerChar_not_upper, IH.
Qed.

Lemma trimStart_no_upper (s : string) :
  hasUpperAscii s = false -> hasUpperAscii (trimStart s) = false.
Proof.
  induction s as [|c s IH]; simpl; intros H; [reflexivity|].
  apply orb_false_iff in H as [Hc Hs].
  destruct (isWhiteSpace c); [now apply IH|].
  simpl. now rewrite Hc, Hs.
Qed.

Lemma trimEnd_no_upper (s : string) :
  hasUpperAscii s = false -> hasUpperAscii (trimEnd s) = false.
Proof.
  induction s as [|c s IH]; simpl; intros H; [reflexivity|].
  apply orb_false_iff in H as [Hc Hs].
  specialize (IH Hs).
  destruct (trimEnd s) as [|d r].
  - destruct (isWhiteSpace c); simpl; [reflexivity|now rewrite Hc].
  - change (hasUpperAscii (String c (String d r)) = false).
    simpl in *. now rewrite Hc, IH.
Qed.

Lemma normalize_no_upper (t : string) : hasUpperAscii (normalize t) = false.
Proof.
  unfold normalize, trim.
  apply trimEnd_no_upper, trimStart_no_upper, toLowerCase_no_upper.
Qed.

Lemma includes_In (arr : list string) (x : string) :
  includes arr x = true <-> In x arr.
Proof.
  unfold includes. rewrite existsb_exists. split.
  - intros [y [Hy Heq]]. apply String.eqb_eq in Heq. now subst.
  - intros H. exists x. split; [assumption|apply String.eqb_refl].
Qed.

Lemma includes_false (arr : list string) (x : string) :
  includes arr x = false <-> ~ In x arr.
Proof.
  rewrite <- includes_In. destruct (includes arr x); intuition congruence.
Qed.

End StringFacts.

(* ------------------------------------------------------------------ *)
(** ** Type compatibility *)
(* ------------------------------------------------------------------ *)

Section TypeCompatFacts.

Lemma ownProperty_In (m : list (string * list string)) (key : string)
  (v : list string) :
  ownProperty m key = Some v -> In (key, v) m.
Proof.
  induction m as [|[k w] m IH]; simpl; [discriminate|].
  destruct (String.eqb k key) eqn:E.
  - apply String.eqb_eq in E. intros [= <-]. left. now subst.
  - intros H. right. now apply IH.
Qed.

(** No accepted set of the table lists a property name of
    [Object.prototype]. *)
Lemma prototype_key_in_no_group (key : string) :
  includes objectPrototypeKeys key = true ->
  forall entry, In entry typeMap -> includes (snd entry) key = false.
Proof.
  intros Hk. apply includes_In in Hk.
  assert (Hall : forallb (fun k =>
            forallb (fun entry : string * list string =>
                       negb (includes (snd entry) k)) typeMap)
            objectPrototypeKeys = true) by (vm_compute; reflexivity).
  rewrite forallb_forall in Hall. specialize (Hall key Hk).
  rewrite forallb_forall in Hall.
  intros entry He. specialize (Hall entry He).
  now apply negb_true_iff in Hall.
Qed.

Lemma inherited_prototype_key (key : string) :
  getProperty key = Inherited -> includes objectPrototypeKeys key = true.
Proof.
  unfold getProperty. destruct (ownProperty typeMap key); [discriminate|].
  destruct (includes objectPrototypeKeys key); [reflexivity|discriminate].
Qed.

Lemma getProperty_own (key : string) (v : list string) :
  getProperty key = OwnArray v -> In (key, v) typeMap.
Proof.
  unfold getProperty. destruct (ownProperty typeMap key) as [w|] eqn:E.
  - intros [= <-]. now apply ownProperty_In.
  - destruct (includes objectPrototypeKeys key); discriminate.
Qed.

Lemma sameGroup_sym (a b : string) : sameGroup a b = sameGroup b a.
Proof.
  unfold sameGroup. induction typeMap as [|[k l] m IH]; simpl; [reflexivity|].
  now rewrite IH, andb_comm.
Qed.

(** Types that are equal after trimming and lower-casing are compatible. *)
Lemma areTypesCompatible_normalized_equal (a b : string) :
  normalize a = normalize b -> areTypesCompatible a b = Ok true.
Proof.
  intros H. unfold areTypesCompatible. rewrite H, String.eqb_refl. reflexivity.
Qed.

Lemma areTypesCompatible_refl (t : string) : areTypesCompatible t t = Ok true.
Proof. now apply areTypesCompatible_normalized_equal. Qed.

(** Whenever the resolver returns in one direction it returns the same
    verdict in the other. *)
Lemma areTypesCompatible_sym (a b : string) (v : bool) :
  areTypesCompatible a b = Ok v -> areTypesCompatible b a = Ok v.
Proof.
  unfold areTypesCompatible.
  rewrite (String.eqb_sym (normalize b) (normalize a)).
  destruct (String.eqb (normalize a) (normalize b)); [trivial|].
  unfold mappingCheck.
  destruct (getProperty (normalize a)) as [la| |] eqn:Ea;
    destruct (getProperty (normalize b)) as [lb| |] eqn:Eb; simpl;
    try discriminate;
    repeat match goal with
           | |- context [if includes ?l ?x then _ else _] =>
               destruct (includes l x) eqn:?; simpl
           end;
    try discriminate; try (intros; assumption);
    try (rewrite sameGroup_sym; intros; assumption).
  (* the accepted set of [a] would list a property name of Object.prototype *)
  exfalso.
  apply getProperty_own in Ea.
  apply inherited_prototype_key in Eb.
  pose proof (prototype_key_in_no_group _ Eb _ Ea) as Hno. simpl in Hno.
  congruence.
Qed.

(** Away from the two lower-case property names of [Object.prototype] the
    resolver returns a verdict. *)
Lemma areTypesCompatible_total_on_plain_types (a b : string) :
  getProperty (normalize a) <> Inherited ->
  getProperty (normalize b) <> Inherited ->
  exists v, areTypesCompatible a b = Ok v.
Proof.
  intros Ha Hb. unfold areTypesCompatible, mappingCheck.
  destruct (String.eqb (normalize a) (normalize b)); [eauto|].
  destruct (getProperty (normalize a)) as [la| |]; [|contradiction|];
    destruct (getProperty (normalize b)) as [lb| |]; try contradiction; simpl;
    repeat match goal with
           | |- context [if includes ?l ?x then _ else _] =>
               destruct (includes l x); simpl
           end; eauto.
Qed.

(** The resolver throws exactly when the normalized names differ and one
    of them is a property name of [Object.prototype]. *)
Lemma areTypesCompatible_throws_iff (a b : string) :
  (exists e, areTypesCompatible a b = Throw e)
  <-> normalize a <> normalize b
      /\ (getProperty (normalize a) = Inherited
          \/ getProperty (normalize b) = Inherited).
Proof.
  split.
  - intros [e He]. split.
    + intros Heq. rewrite (areTypesCompatible_normalized_equal a b Heq) in He.
      discriminate.
    + destruct (getProperty (normalize a)) as [la| |] eqn:Ea; auto;
        destruct (getProperty (normalize b)) as [lb| |] eqn:Eb; auto;
        exfalso;
        destruct (areTypesCompatible_total_on_plain_types a b) as [v Hv];
        congruence.
  - intros [Hne Hinh]. apply String.eqb_neq in Hne.
    unfold areTypesCompatible, mappingCheck. rewrite Hne.
    destruct (getProperty (normalize a)) as [la| |] eqn:Ea; simpl.
    + destruct Hinh as [Hinh|Hinh]; [discriminate|]. rewrite Hinh.
      apply getProperty_own in Ea.
      apply inherited_prototype_key in Hinh.
      pose proof (prototype_key_in_no_group _ Hinh _ Ea) as Hno.
      simpl in Hno. rewrite Hno. simpl. eauto.
    + eauto.
    + destruct Hinh as [Hinh|Hinh]; [discriminate|]. rewrite Hinh.
      simpl. eauto.
Qed.

Lemma inherited_after_normalize (t : string) :
  getProperty (normalize t) = Inherited <->
  normalize t = "constructor" \/ normalize t = "__proto__".
Proof.
  split.
  - intros H. apply inherited_prototype_key in H. apply includes_In in H.
    pose proof (normalize_no_upper t) as Hup.
    simpl in H.
    repeat destruct H as [H|H]; try (now left); try (now right);
      try (rewrite <- H in Hup; vm_compute in Hup; discriminate).
  - intros [H|H]; rewrite H; reflexivity.
Qed.

End TypeCompatFacts.

Section TypeCompatClaims.

(** C3.  The resolver is not total: for a type name that normalizes to
    [constructor] (SQLite accepts any identifier as a declared column type)
    the guard [typeMap[normalizedSource]] finds the function inherited from
    [Object.prototype], and calling [.includes] on it raises a TypeError,
    whichever side the name is on.  Reflexivity, the normalized-equal case
    and symmetry of the returned verdicts do hold
    ([areTypesCompatible_refl], [areTypesCompatible_normalized_equal],
    [areTypesCompatible_sym]). *)
Theorem areTypesCompatible_throws_on_prototype_key :
  areTypesCompatible "CONSTRUCTOR" "text"
    = Throw (JsError "typeMap[normalizedSource].includes is not a function")
  /\ areTypesCompatible "text" "CONSTRUCTOR"
    = Throw (JsError "typeMap[normalizedTarget].includes is not a function").
Proof. split; reflexivity. Qed.

(** The keys written in upper case are exactly the keys of the table
    that hold an upper-case letter. *)
Lemma upperCaseKeys_complete :
  upperCaseKeys = filter hasUpperAscii (map fst typeMap).
Proof. reflexivity. Qed.

Lemma upperCaseKeys_checked :
  forallb
    (fun entry : string * list string =>
       if includes upperCaseKeys (fst entry)
       then forallb
              (fun t => match areTypesCompatible (fst entry) t with
                        | Ok true => true
                        | _ => false
                        end)
              (snd entry)
       else true)
    typeMap = true.
Proof. vm_compute. reflexivity. Qed.

(** C4.  For an upper-case key of the table and a type name [t] of its
    accepted set, [areTypesCompatible key t] returns [true]; the property
    read [typeMap[normalizedSource]] is never made with the upper-case key,
    because a normalized name holds no upper-case letter. *)
Theorem uppercase_catalog_entries_match (key t : string) (accepted : list string) :
  In key upperCaseKeys ->
  In (key, accepted) typeMap ->
  In t accepted ->
  areTypesCompatible key t = Ok true
  /\ forall s, normalize s <> key.
Proof.
  intros Hkey Hentry Ht. split.
  - pose proof upperCaseKeys_checked as Hall.
    rewrite forallb_forall in Hall. specialize (Hall _ Hentry). cbn [fst snd] in Hall.
    apply includes_In in Hkey. rewrite Hkey in Hall.
    rewrite forallb_forall in Hall. specialize (Hall _ Ht).
    destruct (areTypesCompatible key t) as [[|]|]; congruence.
  - intros s Heq. pose proof (normalize_no_upper s) as Hup.
    rewrite Heq in Hup. simpl in Hkey.
    repeat destruct Hkey as [Hkey|Hkey]; try contradiction;
      subst key; vm_compute in Hup; discriminate.
Qed.

Lemma uppercase_catalog_entries_match_witness :
  areTypesCompatible "TEXT" "char" = Ok true
  /\ forall s, normalize s <> "TEXT".
Proof.
  apply (uppercase_catalog_entries_match "TEXT" "char"
           ["text"; "character varying"; "varchar"; "char"]).
  - simpl. tauto.
  - unfold typeMap. simpl. do 30 right. left. reflexivity.
  - simpl. tauto.
Defined.

End TypeCompatClaims.

(* ------------------------------------------------------------------ *)
(** ** Schema comparison *)
(* ------------------------------------------------------------------ *)

Section SchemaFacts.

Lemma compareSchemas_count_mismatch (sourceColumns targetColumns : list Column.t) :
  List.length sourceColumns <> List.length targetColumns ->
  compareSchemas sourceColumns targetColumns = Ok false.
Proof.
  intros H. unfold compareSchemas.
  apply Nat.eqb_neq in H. now rewrite H.
Qed.

Lemma compareColumns_true_iff (sourceColumns targetColumns : list Column.t) :
  List.length sourceColumns = List.length targetColumns ->
  compareColumns sourceColumns targetColumns = Ok true
  <-> Forall2 columnsAgree sourceColumns targetColumns.
Proof.
  revert targetColumns.
  induction sourceColumns as [|s src IH]; intros [|t tgt] Hlen;
    simpl in Hlen; try discriminate.
  - split; [constructor|reflexivity].
  - injection Hlen as Hlen. specialize (IH tgt Hlen). simpl.
    unfold columnsAgree at 1.
    destruct (String.eqb (toLowerCase (Column.name s))
                         (toLowerCase (Column.name t))) eqn:En; simpl.
    2:{ apply String.eqb_neq in En. split; [discriminate|].
        intros H. inversion H; subst. tauto. }
    apply String.eqb_eq in En.
    destruct (Bool.eqb (Column.nullable s) (Column.nullable t)) eqn:Eb; simpl.
    2:{ apply Bool.eqb_false_iff in Eb. split; [discriminate|].
        intros H. inversion H; subst. tauto. }
    apply Bool.eqb_prop in Eb.
    destruct (areTypesCompatible (Column.type s) (Column.type t))
      as [[|]|e] eqn:Et; simpl.
    + rewrite IH. split.
      * intros H. constructor; [|assumption]. unfold columnsAgree. auto.
      * intros H. now inversion H.
    + split; [discriminate|]. intros H. inversion H as [|? ? ? ? Hag]; subst.
      destruct Hag as (_ & _ & Hc). congruence.
    + split; [discriminate|]. intros H. inversion H as [|? ? ? ? Hag]; subst.
      destruct Hag as (_ & _ & Hc). congruence.
Qed.

(** [compareSchemas] returns [true] exactly when the column counts are
    equal and the columns agree at every position. *)
Lemma compareSchemas_true_iff (sourceColumns targetColumns : list Column.t) :
  compareSchemas sourceColumns targetColumns = Ok true
  <-> Forall2 columnsAgree sourceColumns targetColumns.
Proof.
  unfold compareSchemas.
  destruct (Nat.eqb (List.length sourceColumns) (List.length targetColumns)) eqn:E;
    simpl.
  - apply Nat.eqb_eq in E. now apply compareColumns_true_iff.
  - apply Nat.eqb_neq in E. split; [discriminate|].
    intros H. apply Forall2_length in H. contradiction.
Qed.

Lemma compareColumns_false_iff (sourceColumns targetColumns : list Column.t) :
  Forall2 typeCheckReturns sourceColumns targetColumns ->
  compareColumns sourceColumns targetColumns = Ok false
  <-> Exists (fun p => columnsDisagree (fst p) (snd p))
             (combine sourceColumns targetColumns).
Proof.
  induction 1 as [|s t src tgt [v Hv] Hrest IH]; simpl.
  - split; [discriminate|]. intros H. inversion H.
  - rewrite Exists_cons. cbn [fst snd].
    unfold columnsDisagree, namesDiffer, nullabilityDiffers, typesIncompatible.
    destruct (String.eqb (toLowerCase (Column.name s))
                         (toLowerCase (Column.name t))) eqn:En; simpl.
    2:{ apply String.eqb_neq in En. tauto. }
    apply String.eqb_eq in En.
    destruct (Bool.eqb (Column.nullable s) (Column.nullable t)) eqn:Eb; simpl.
    2:{ apply Bool.eqb_false_iff in Eb. tauto. }
    apply Bool.eqb_prop in Eb.
    rewrite Hv. simpl. destruct v; simpl.
    + rewrite IH. split; [tauto|].
      intros [[H|[H|H]]|H]; try contradiction; try discriminate; assumption.
    + tauto.
Qed.

(** When the type check returns at every position, [compareSchemas]
    returns [false] exactly when the counts differ or the columns disagree
    at some position. *)
Lemma compareSchemas_false_iff (sourceColumns targetColumns : list Column.t) :
  (List.length sourceColumns = List.length targetColumns ->
   Forall2 typeCheckReturns sourceColumns targetColumns) ->
  compareSchemas sourceColumns targetColumns = Ok false
  <-> List.length sourceColumns <> List.length targetColumns
      \/ Exists (fun p => columnsDisagree (fst p) (snd p))
                (combine sourceColumns targetColumns).
Proof.
  intros Hret. unfold compareSchemas.
  destruct (Nat.eqb (List.length sourceColumns) (List.length targetColumns)) eqn:E;
    simpl.
  - apply Nat.eqb_eq in E. rewrite (compareColumns_false_iff _ _ (Hret E)).
    tauto.
  - apply Nat.eqb_neq in E. tauto.
Qed.

(** C5.  A column whose declared type normalizes to [constructor] makes
    [compareSchemas] raise the TypeError of [areTypesCompatible] instead of
    returning: here the names differ at the second position, yet [false]
    is not returned.  Away from that defect the claim holds
    ([compareSchemas_count_mismatch], [compareSchemas_true_iff],
    [compareSchemas_false_iff]). *)
Theorem compareSchemas_throws_before_later_mismatch :
  let sourceColumns :=
    [Column.mk "id" "CONSTRUCTOR" false; Column.mk "name" "text" false] in
  let targetColumns :=
    [Column.mk "id" "text" false; Column.mk "label" "text" false] in
  Exists (fun p => namesDiffer (fst p) (snd p))
         (combine sourceColumns targetColumns)
  /\ compareSchemas sourceColumns targetColumns
     = Throw (JsError "typeMap[normalizedSource].includes is not a function").
Proof.
  split.
  - apply Exists_cons_tl, Exists_cons_hd. unfold namesDiffer. simpl. discriminate.
  - reflexivity.
Qed.

End SchemaFacts.

(* ------------------------------------------------------------------ *)
(** ** Sample-data comparison and the table verifier *)
(* ------------------------------------------------------------------ *)

Section TableVerifierFacts.

Variable cfg : AppConfig.t.
Variable w : World.
Variables sourceConfig targetConfig : DBConnection.t.
Variable tableName : string.

(** C9.  Two SQLite descriptors that name the same database are declared
    matching at once: the result is valid and the query trace is returned
    as it was received, so no sample row is fetched from either side. *)
Theorem verifyDataMapping_same_sqlite_shortcut (sampleSize : Z) (tr : list Event) :
  DBConnection.type sourceConfig = sqlite ->
  DBConnection.type targetConfig = sqlite ->
  DBConnection.database sourceConfig = DBConnection.database targetConfig ->
  verifyDataMapping w sourceConfig targetConfig tableName sampleSize tr
  = (Ok (mkResult true
           "Identical SQLite database - same file for source and target"),
     tr).
Proof.
  intros Hs Ht Hd.
  unfold verifyDataMapping, IO.tryCatch, sameSqliteDatabase.
  rewrite Hs, Ht, Hd, String.eqb_refl. reflexivity.
Qed.

(** Outside the shortcut both sides are sampled, the source first. *)
Lemma verifyDataMapping_samples_otherwise (sampleSize : Z) (tr : list Event) :
  sameSqliteDatabase sourceConfig targetConfig = false ->
  exists tr',
    snd (verifyDataMapping w sourceConfig targetConfig tableName sampleSize tr)
    = tr ++ SampleQuery sourceConfig tableName sampleSize :: tr'.
Proof.
  intros H. unfold verifyDataMapping, IO.tryCatch, IO.bind, IO.query, IO.lift.
  rewrite H.
  destruct (getSampleData w sourceConfig tableName sampleSize) as [sd|e]; simpl.
  - destruct (getSampleData w targetConfig tableName sampleSize) as [td|e]; simpl.
    + exists [SampleQuery targetConfig tableName sampleSize].
      rewrite <- app_assoc.
      destruct (compareSamples sd td); reflexivity.
    + exists [SampleQuery targetConfig tableName sampleSize].
      now rewrite <- app_assoc.
  - exists []. reflexivity.
Qed.

(** [verifyDataMapping] never throws: its [catch] turns every failure into
    an invalid result. *)
Lemma verifyDataMapping_returns (sampleSize : Z) (tr : list Event) :
  exists d tr',
    verifyDataMapping w sourceConfig targetConfig tableName sampleSize tr
    = (Ok d, tr').
Proof.
  unfold verifyDataMapping, IO.tryCatch, IO.bind, IO.query, IO.lift, IO.ret.
  destruct (sameSqliteDatabase sourceConfig targetConfig); [eauto|].
  destruct (getSampleData w sourceConfig tableName sampleSize) as [sd|e];
    [|eauto].
  destruct (getSampleData w targetConfig tableName sampleSize) as [td|e];
    [|eauto].
  destruct (compareSamples sd td); eauto.
Qed.


(** The verdict exists as soon as the four adapter calls and the schema
    comparison return. *)
Lemma processTableVerification_returns (tr : list Event)
  (sr trw : Z) (sc tc : list Column.t) (sm : bool) :
  getTableRowCount w sourceConfig tableName = Ok sr ->
  getTableRowCount w targetConfig tableName = Ok trw ->
  getTableSchema w sourceConfig tableName = Ok sc ->
  getTableSchema w targetConfig tableName = Ok tc ->
  compareSchemas sc tc = Ok sm ->
  exists r tr',
    processTableVerification cfg w sourceConfig targetConfig tableName tr
    = (Ok r, tr')
    /\ sourceRows r = sr /\ targetRows r = trw /\ schemaMatch r = sm.
Proof.
  intros H1 H2 H3 H4 H5.
  unfold processTableVerification, IO.bind, IO.query, IO.lift, IO.ret.
  rewrite H1, H2, H3, H4, H5.
  destruct (sm && Z.eqb sr trw).
  - match goal with
    | |- context [verifyDataMapping ?a ?b ?c ?d ?e ?f] =>
        destruct (verifyDataMapping_returns e f) as (d0 & tr1 & Hd)
    end.
    rewrite Hd. eauto 10.
  - eauto 10.
Qed.

End TableVerifierFacts.

Lemma verifyDataMapping_same_sqlite_shortcut_witness :
  verifyDataMapping Examples.shopWorld
    (Examples.sqliteFile "shop.db" "/data/shop.db")
    (Examples.sqliteFile "shop.db" "/data/shop.db") "customers" 5 []
  = (Ok (mkResult true
           "Identical SQLite database - same file for source and target"),
     []).
Proof.
  apply (verifyDataMapping_same_sqlite_shortcut Examples.shopWorld
           (Examples.sqliteFile "shop.db" "/data/shop.db")
           (Examples.sqliteFile "shop.db" "/data/shop.db") "customers" 5 []);
    reflexivity.
Defined.

(* ------------------------------------------------------------------ *)
(** ** Sorting and positions *)
(* ------------------------------------------------------------------ *)

Section SortFacts.

Context {A : Type}.
Variable key : A -> Z.

Let compare (a b : A) : Z := (key a - key b)%Z.
Let ordered (a b : A) : Prop := (key a <= key b)%Z.

Lemma insertSorted_perm (x : A) (l : list A) :
  Permutation (insertSorted compare x l) (x :: l).
Proof.
  induction l as [|y l IH]; simpl; [reflexivity|].
  destruct (compare x y <=? 0)%Z; [reflexivity|].
  rewrite IH. apply perm_swap.
Qed.

Lemma sort_perm (l : list A) : Permutation (sort compare l) l.
Proof.
  induction l as [|x l IH]; simpl; [reflexivity|].
  change (fold_right (insertSorted compare) [] l) with (sort compare l).
  rewrite insertSorted_perm. now constructor.
Qed.

Lemma insertSorted_sorted (x : A) (l : list A) :
  StronglySorted ordered l -> StronglySorted ordered (insertSorted compare x l).
Proof.
  induction 1 as [|y l Hs IH Hall]; simpl.
  - repeat constructor.
  - destruct (compare x y <=? 0)%Z eqn:E.
    + apply Z.leb_le in E. unfold compare in E.
      constructor; [now constructor|].
      constructor; [unfold ordered; lia|].
      eapply Forall_impl; [|exact Hall]. unfold ordered. intros; lia.
    + apply Z.leb_gt in E. unfold compare in E.
      constructor; [assumption|].
      apply (Permutation_Forall (Permutation_sym (insertSorted_perm x l))).
      constructor; [unfold ordered; lia|assumption].
Qed.

Lemma sort_sorted (l : list A) : StronglySorted ordered (sort compare l).
Proof.
  induction l as [|x l IH]; simpl; [constructor|].
  now apply insertSorted_sorted.
Qed.

(** Two sorted arrangements of the same elements coincide when elements
    with equal keys are equal. *)
Lemma sorted_perm_unique (l1 l2 : list A) :
  (forall a b, In a l1 -> In b l1 -> key a = key b -> a = b) ->
  StronglySorted ordered l1 -> StronglySorted ordered l2 ->
  Permutation l1 l2 -> l1 = l2.
Proof.
  revert l2. induction l1 as [|x l1 IH]; intros l2 Hinj H1 H2 Hp.
  - apply Permutation_nil in Hp. now subst.
  - destruct l2 as [|y l2].
    { apply Permutation_sym, Permutation_nil in Hp. discriminate. }
    apply StronglySorted_inv in H1 as [H1 Hx].
    apply StronglySorted_inv in H2 as [H2 Hy].
    assert (Hxy : x = y).
    { assert (Hin_y : In y (x :: l1)).
      { apply Permutation_sym in Hp.
        eapply Permutation_in; [exact Hp|now left]. }
      assert (Hin_x : In x (y :: l2)).
      { eapply Permutation_in; [exact Hp|now left]. }
      destruct Hin_y as [->|Hin_y]; [reflexivity|].
      destruct Hin_x as [->|Hin_x]; [reflexivity|].
      rewrite Forall_forall in Hx, Hy.
      specialize (Hx _ Hin_y). specialize (Hy _ Hin_x).
      unfold ordered in Hx, Hy.
      apply Hinj; [now left|now right|lia]. }
    subst y. f_equal.
    apply IH; try assumption.
    + intros a b Ha Hb. apply Hinj; now right.
    + eapply Permutation_cons_inv; exact Hp.
Qed.

End SortFacts.

Section IndexFacts.

Lemma indexOf_nonneg_In (l : list string) (x : string) :
  In x l -> (0 <= indexOf l x)%Z.
Proof.
  induction l as [|y l IH]; simpl; [contradiction|].
  destruct (String.eqb y x) eqn:E; [lia|].
  intros [H|H].
  - subst. rewrite String.eqb_refl in E. discriminate.
  - specialize (IH H). destruct (indexOf l x <? 0)%Z eqn:El; [|lia].
    apply Z.ltb_lt in El. lia.
Qed.

Lemma indexOf_absent (l : list string) (x : string) :
  ~ In x l -> indexOf l x = (-1)%Z.
Proof.
  induction l as [|y l IH]; simpl; [reflexivity|].
  intros H. destruct (String.eqb y x) eqn:E.
  - apply String.eqb_eq in E. tauto.
  - rewrite IH by tauto. reflexivity.
Qed.

Lemma indexOf_lower_bound (l : list string) (x : string) :
  (-1 <= indexOf l x)%Z.
Proof.
  induction l as [|y l IH]; simpl; [lia|].
  destruct (String.eqb y x); [lia|].
  destruct (indexOf l x <? 0)%Z eqn:El; [lia|]. apply Z.ltb_ge in El. lia.
Qed.

(** Behind a prefix that does not hold [x] the position shifts by the
    length of the prefix. *)
Lemma indexOf_app_absent (l1 l2 : list string) (x : string) :
  ~ In x l1 -> In x l2 ->
  indexOf (l1 ++ l2) x = (Z.of_nat (List.length l1) + indexOf l2 x)%Z.
Proof.
  induction l1 as [|y l1 IH]; simpl List.length; intros Hn Hin.
  - simpl. lia.
  - simpl app. simpl indexOf.
    destruct (String.eqb y x) eqn:E.
    { apply String.eqb_eq in E. subst. exfalso. apply Hn. now left. }
    rewrite IH; [|intros H; apply Hn; now right|assumption].
    pose proof (indexOf_nonneg_In l2 x Hin).
    destruct (_ <? 0)%Z eqn:El; [apply Z.ltb_lt in El|]; lia.
Qed.

(** Names found at the same position are equal. *)
Lemma indexOf_inj (l : list string) (x y : string) :
  In x l -> In y l -> indexOf l x = indexOf l y -> x = y.
Proof.
  induction l as [|z l IH]; simpl; [contradiction|].
  intros Hx Hy.
  destruct (String.eqb z x) eqn:Ex; destruct (String.eqb z y) eqn:Ey.
  - apply String.eqb_eq in Ex, Ey. congruence.
  - assert (In y l) as Hy'.
    { destruct Hy as [->|]; [rewrite String.eqb_refl in Ey; discriminate|assumption]. }
    pose proof (indexOf_nonneg_In l y Hy').
    destruct (_ <? 0)%Z eqn:El; [apply Z.ltb_lt in El|]; lia.
  - assert (In x l) as Hx'.
    { destruct Hx as [->|]; [rewrite String.eqb_refl in Ex; discriminate|assumption]. }
    pose proof (indexOf_nonneg_In l x Hx').
    destruct (_ <? 0)%Z eqn:El; [apply Z.ltb_lt in El|]; lia.
  - assert (In x l) as Hx'.
    { destruct Hx as [->|]; [rewrite String.eqb_refl in Ex; discriminate|assumption]. }
    assert (In y l) as Hy'.
    { destruct Hy as [->|]; [rewrite String.eqb_refl in Ey; discriminate|assumption]. }
    pose proof (indexOf_nonneg_In l x Hx').
    pose proof (indexOf_nonneg_In l y Hy').
    destruct (indexOf l x <? 0)%Z eqn:El1; [apply Z.ltb_lt in El1; lia|].
    destruct (indexOf l y <? 0)%Z eqn:El2; [apply Z.ltb_lt in El2; lia|].
    intros Heq. apply IH; try assumption. lia.
Qed.

Lemma NoDup_app_disjoint (q l : list string) (b : string) :
  NoDup (q ++ l) -> In b q -> In b l -> False.
Proof.
  induction q as [|c q IHq]; simpl; [intros _ []|].
  intros Hnd Hq Hb. inversion Hnd as [|? ? Hc Hnd']; subst.
  destruct Hq as [->|Hq]; [|now apply IHq].
  apply Hc. apply in_or_app. now right.
Qed.

Lemma NoDup_Grouped_suffix (pre l : list string) :
  NoDup (pre ++ l) ->
  StronglySorted
    (fun a b => (indexOf (pre ++ l) a <= indexOf (pre ++ l) b)%Z) l.
Proof.
  revert pre. induction l as [|a l IH]; intros pre Hnd; [constructor|].
  constructor.
  - specialize (IH (pre ++ [a])). rewrite <- app_assoc in IH. simpl in IH.
    now apply IH.
  - apply Forall_forall. intros b Hb.
    assert (Ha_pre : ~ In a pre).
    { intros H. apply NoDup_remove_2 in Hnd. apply Hnd.
      apply in_or_app. now left. }
    assert (Hb_pre : ~ In b (pre ++ [a])).
    { replace (pre ++ a :: l) with ((pre ++ [a]) ++ l) in Hnd
        by (rewrite <- app_assoc; reflexivity).
      intros Hq. exact (NoDup_app_disjoint _ _ _ Hnd Hq Hb). }
    rewrite (indexOf_app_absent pre (a :: l) a Ha_pre) by now left.
    replace (pre ++ a :: l) with ((pre ++ [a]) ++ l)
      by (rewrite <- app_assoc; reflexivity).
    rewrite (indexOf_app_absent (pre ++ [a]) l b Hb_pre Hb).
    pose proof (indexOf_nonneg_In l b Hb).
    rewrite length_app. simpl. rewrite String.eqb_refl. lia.
Qed.

(** Distinct names are grouped. *)
Lemma NoDup_Grouped (tableNames : list string) :
  NoDup tableNames -> Grouped tableNames.
Proof. intros H. exact (NoDup_Grouped_suffix [] tableNames H). Qed.

End IndexFacts.

(* ------------------------------------------------------------------ *)
(** ** The parallel workers *)
(* ------------------------------------------------------------------ *)

Section WorkerFacts.

Variable verify : string -> Result TableResult.
Variable tableNames : list string.

Let inFlight (w : Worker) : list string :=
  match w with Processing t => [t] | _ => [] end.

Lemma setWorker_length (ws : list Worker) (i : nat) (w : Worker) :
  List.length (setWorker ws i w) = List.length ws.
Proof.
  revert i. induction ws as [|w0 ws IH]; intros [|i]; simpl; auto.
Qed.

Lemma setWorker_processing (ws : list Worker) (i : nat) (w0 w : Worker) :
  nth_error ws i = Some w0 ->
  Permutation (inFlight w0 ++ processingTables (setWorker ws i w))
              (inFlight w ++ processingTables ws).
Proof.
  revert i. induction ws as [|w1 ws IH]; intros [|i]; simpl; try discriminate.
  - intros [= ->].
    change (Permutation (inFlight w0 ++ inFlight w ++ processingTables ws)
                        (inFlight w ++ inFlight w0 ++ processingTables ws)).
    rewrite !app_assoc. apply Permutation_app_tail, Permutation_app_comm.
  - intros H. specialize (IH i H).
    change (Permutation
              (inFlight w0 ++ inFlight w1 ++ processingTables (setWorker ws i w))
              (inFlight w ++ inFlight w1 ++ processingTables ws)).
    rewrite (app_assoc (inFlight w0)), (Permutation_app_comm (inFlight w0)),
            <- app_assoc, IH.
    rewrite (app_assoc (inFlight w1)), (Permutation_app_comm (inFlight w1)),
            <- app_assoc.
    reflexivity.
Qed.

Lemma setWorker_finished (ws : list Worker) (i : nat) (w : Worker) :
  In Finished (setWorker ws i w) -> w = Finished \/ In Finished ws.
Proof.
  revert i. induction ws as [|w0 ws IH]; intros [|i]; simpl; try tauto.
  intros [H|H]; [tauto|]. destruct (IH i H); tauto.
Qed.

Lemma setWorker_weight (ws : list Worker) (i : nat) (w0 w : Worker) :
  nth_error ws i = Some w0 ->
  list_sum (map workerWeight (setWorker ws i w)) + workerWeight w0
  = list_sum (map workerWeight ws) + workerWeight w.
Proof.
  revert i. induction ws as [|w1 ws IH]; intros [|i]; simpl; try discriminate.
  - intros [= ->]. lia.
  - intros H. specialize (IH i H). lia.
Qed.

Lemma firstn_snoc_nth_error (l : list string) (i : nat) (t : string) :
  nth_error l i = Some t -> firstn (S i) l = firstn i l ++ [t].
Proof.
  revert i. induction l as [|x l IH]; intros [|i]; simpl; try discriminate.
  - now intros [= ->].
  - intros H. now rewrite <- IH.
Qed.

Lemma startWorkers_invariant (concurrency : nat) :
  Invariant verify tableNames (startWorkers concurrency).
Proof.
  constructor; simpl.
  - lia.
  - exists []. split; [reflexivity|]. simpl.
    induction concurrency; simpl; auto.
  - intros H. apply repeat_spec in H. discriminate.
Qed.

(** Every step of every worker keeps the invariant. *)
Lemma workerStep_invariant (s : Shared) (i : nat) :
  Invariant verify tableNames s ->
  Invariant verify tableNames (workerStep verify tableNames s i).
Proof.
  intros [Hidx (done & Hres & Hperm) Hfin]. unfold workerStep.
  destruct (nth_error (workers s) i) as [[|t|]|] eqn:Ew;
    try (constructor; eauto; fail).
  - (* at the loop head *)
    destruct (nth_error tableNames (currentIndex s)) as [t|] eqn:Et.
    + assert (Hlt : currentIndex s < List.length tableNames).
      { apply nth_error_Some. congruence. }
      constructor; cbn [currentIndex results workers].
      * lia.
      * exists done. split; [assumption|].
        rewrite (firstn_snoc_nth_error _ _ _ Et).
        pose proof (setWorker_processing _ _ _ (Processing t) Ew) as Hp.
        simpl in Hp. rewrite Hp.
        rewrite <- Hperm, <- app_assoc.
        apply Permutation_app_head.
        change (t :: processingTables (workers s))
          with ([t] ++ processingTables (workers s)).
        apply Permutation_app_comm.
      * intros H. apply setWorker_finished in H as [H|H]; [discriminate|].
        specialize (Hfin H). lia.
    + apply nth_error_None in Et.
      constructor; cbn [currentIndex results workers].
      * lia.
      * exists done. split; [assumption|].
        pose proof (setWorker_processing _ _ _ Finished Ew) as Hp.
        simpl in Hp. now rewrite Hp.
      * intros _. lia.
  - (* the verification of [t] settles *)
    constructor; cbn [currentIndex results workers].
    + assumption.
    + exists (done ++ [t]). split.
      * rewrite map_app, Hres. reflexivity.
      * pose proof (setWorker_processing _ _ _ AtLoopHead Ew) as Hp.
        simpl in Hp. rewrite <- Hperm, <- Hp, <- app_assoc. reflexivity.
    + intros H. apply setWorker_finished in H as [H|H]; [discriminate|auto].
Qed.

Lemma workerStep_workers_length (s : Shared) (i : nat) :
  List.length (workers (workerStep verify tableNames s i))
  = List.length (workers s).
Proof.
  unfold workerStep.
  destruct (nth_error (workers s) i) as [[|t|]|]; try reflexivity.
  - destruct (nth_error tableNames (currentIndex s)); simpl;
      apply setWorker_length.
  - simpl. apply setWorker_length.
Qed.

Lemma runSchedule_invariant (schedule : list nat) (s : Shared) :
  Invariant verify tableNames s ->
  Invariant verify tableNames (runSchedule verify tableNames schedule s).
Proof.
  revert s. induction schedule as [|i schedule IH]; intros s H; simpl.
  - assumption.
  - apply IH, workerStep_invariant, H.
Qed.

Lemma runSchedule_workers_length (schedule : list nat) (s : Shared) :
  List.length (workers (runSchedule verify tableNames schedule s))
  = List.length (workers s).
Proof.
  revert s. induction schedule as [|i schedule IH]; intros s; simpl.
  - reflexivity.
  - fold (runSchedule verify tableNames schedule
            (workerStep verify tableNames s i)).
    rewrite IH. apply workerStep_workers_length.
Qed.

Lemma awaitAll_invariant (fuel : nat) (s : Shared) :
  Invariant verify tableNames s ->
  Invariant verify tableNames (awaitAll verify tableNames fuel s).
Proof.
  revert s. induction fuel as [|fuel IH]; intros s H; simpl.
  - assumption.
  - destruct (firstActive (workers s)); [|assumption].
    apply IH, workerStep_invariant, H.
Qed.

Lemma awaitAll_workers_length (fuel : nat) (s : Shared) :
  List.length (workers (awaitAll verify tableNames fuel s))
  = List.length (workers s).
Proof.
  revert s. induction fuel as [|fuel IH]; intros s; simpl.
  - reflexivity.
  - destruct (firstActive (workers s)); [|reflexivity].
    rewrite IH. apply workerStep_workers_length.
Qed.

Lemma firstActive_Some (ws : list Worker) (i : nat) :
  firstActive ws = Some i ->
  exists w, nth_error ws i = Some w /\ w <> Finished.
Proof.
  revert i. induction ws as [|w ws IH]; simpl; [discriminate|].
  destruct w; simpl; intros i.
  - intros [= <-]. exists AtLoopHead. split; [reflexivity|discriminate].
  - intros [= <-]. eexists. split; [reflexivity|discriminate].
  - destruct (firstActive ws) as [j|]; simpl; [|discriminate].
    intros [= <-]. apply (IH j eq_refl).
Qed.

Lemma firstActive_None (ws : list Worker) :
  firstActive ws = None -> Forall (fun w => w = Finished) ws.
Proof.
  induction ws as [|w ws IH]; simpl; [constructor|].
  destruct w; simpl; try discriminate.
  destruct (firstActive ws); simpl; [discriminate|].
  intros _. constructor; auto.
Qed.

(** A step of a worker that has not returned uses up the budget. *)
Lemma workerStep_decreases (s : Shared) (i : nat) (w : Worker) :
  nth_error (workers s) i = Some w -> w <> Finished ->
  stepsLeft tableNames (workerStep verify tableNames s i)
  < stepsLeft tableNames s.
Proof.
  intros Ew Hw. unfold workerStep, stepsLeft. rewrite Ew.
  destruct w as [|t|]; [| |contradiction].
  - destruct (nth_error tableNames (currentIndex s)) as [t|] eqn:Et; simpl.
    + assert (currentIndex s < List.length tableNames)
        by (apply nth_error_Some; congruence).
      pose proof (setWorker_weight _ _ _ (Processing t) Ew). simpl in *. lia.
    + pose proof (setWorker_weight _ _ _ Finished Ew). simpl in *. lia.
  - simpl. pose proof (setWorker_weight _ _ _ AtLoopHead Ew). simpl in *. lia.
Qed.

(** [Promise.all] resolves: within the budget every worker returns. *)
Lemma awaitAll_finished (fuel : nat) (s : Shared) :
  stepsLeft tableNames s <= fuel ->
  allFinished (awaitAll verify tableNames fuel s).
Proof.
  revert s. induction fuel as [|fuel IH]; intros s Hfuel; simpl.
  - unfold allFinished. unfold stepsLeft in Hfuel.
    assert (Hz : list_sum (map workerWeight (workers s)) = 0) by lia.
    clear Hfuel. induction (workers s) as [|w ws IHw]; [constructor|].
    simpl in Hz. constructor.
    + destruct w; simpl in Hz; try lia. reflexivity.
    + apply IHw. lia.
  - destruct (firstActive (workers s)) as [i|] eqn:Ea.
    + destruct (firstActive_Some _ _ Ea) as (w & Ew & Hw).
      apply IH. pose proof (workerStep_decreases s i w Ew Hw). lia.
    + now apply firstActive_None.
Qed.

Lemma allFinished_nothing_in_flight (s : Shared) :
  allFinished s -> processingTables (workers s) = [].
Proof.
  unfold allFinished. induction 1 as [|w ws Hw _ IH]; [reflexivity|].
  subst w. simpl. exact IH.
Qed.

(** Once all workers have returned, the entries pushed are those of the
    tables of the list, each table once. *)
Lemma finished_results (s : Shared) :
  Invariant verify tableNames s -> allFinished s ->
  (workers s <> [] \/ tableNames = []) ->
  Permutation (results s) (map (comparisonEntry verify) tableNames).
Proof.
  intros [Hidx (done & Hres & Hperm) Hfin] Hall Hne.
  rewrite (allFinished_nothing_in_flight s Hall), app_nil_r in Hperm.
  assert (Hi : currentIndex s = List.length tableNames).
  { destruct Hne as [Hne|Hne].
    - apply Hfin. unfold allFinished in Hall.
      destruct (workers s) as [|w ws]; [contradiction|].
      inversion Hall; subst. now left.
    - subst tableNames. simpl in *. lia. }
  rewrite Hi, firstn_all in Hperm.
  rewrite Hres. now apply Permutation_map.
Qed.

End WorkerFacts.

(* ------------------------------------------------------------------ *)
(** ** Counting verdicts *)
(* ------------------------------------------------------------------ *)

Section TallyFacts.

Lemma matchCount_cons (c : TableComparison.t) (l : list TableComparison.t) :
  matchCount (c :: l)
  = ((if isMatch (TableComparison.status c) then 1 else 0) + matchCount l)%Z.
Proof.
  unfold matchCount. simpl.
  destruct (isMatch (TableComparison.status c)); simpl List.length; lia.
Qed.

Lemma mismatchCount_cons (c : TableComparison.t) (l : list TableComparison.t) :
  mismatchCount (c :: l)
  = ((if isMatch (TableComparison.status c) then 0 else 1) + mismatchCount l)%Z.
Proof.
  unfold mismatchCount. simpl.
  destruct (isMatch (TableComparison.status c)); simpl List.length; lia.
Qed.

Lemma matchCount_bounds (l : list TableComparison.t) :
  (0 <= matchCount l <= Z.of_nat (List.length l))%Z.
Proof.
  induction l as [|c l IH]; [unfold matchCount; simpl; lia|].
  rewrite matchCount_cons. simpl List.length.
  destruct (isMatch (TableComparison.status c)); lia.
Qed.

Lemma match_mismatch_total (l : list TableComparison.t) :
  (matchCount l + mismatchCount l = Z.of_nat (List.length l))%Z.
Proof.
  induction l as [|c l IH]; [reflexivity|].
  rewrite matchCount_cons, mismatchCount_cons. simpl List.length.
  destruct (isMatch (TableComparison.status c)); lia.
Qed.

(** All verdicts are MATCH exactly when the MATCH count reaches the number
    of verdicts. *)
Lemma all_match_iff (l : list TableComparison.t) :
  matchCount l = Z.of_nat (List.length l)
  <-> Forall (fun c => TableComparison.status c = MATCH) l.
Proof.
  induction l as [|c l IH]; [split; [constructor|reflexivity]|].
  rewrite matchCount_cons. simpl List.length.
  pose proof (matchCount_bounds l) as Hb.
  destruct (TableComparison.status c) eqn:Es; cbn [isMatch].
  - split.
    + intros H. constructor; [assumption|]. apply IH. lia.
    + intros H. inversion H as [|? ? Hc Hl]; subst. apply IH in Hl. lia.
  - split; [lia|]. intros H. inversion H as [|? ? Hc Hl]; subst. congruence.
Qed.

Lemma matchCount_perm (l l' : list TableComparison.t) :
  Permutation l l' -> matchCount l = matchCount l'.
Proof.
  induction 1 as [|c l l' _ IH|c d l|l l' l'' _ IH1 _ IH2].
  - reflexivity.
  - rewrite !matchCount_cons. lia.
  - rewrite !matchCount_cons. lia.
  - congruence.
Qed.

Lemma tallyStep_fold (l : list TableComparison.t) (acc : Tally) :
  fold_left tallyStep l acc
  = mkTally (comparison acc ++ l)
            (totalSourceRows acc + sourceRowsTotal l)
            (matchedTables acc + matchCount l).
Proof.
  revert acc. induction l as [|c l IH]; intros acc.
  - simpl. destruct acc as [cmp tot mat]. simpl.
    rewrite app_nil_r. f_equal; unfold matchCount; simpl; lia.
  - simpl fold_left. rewrite IH. unfold tallyStep at 1. simpl.
    rewrite <- app_assoc. simpl. rewrite matchCount_cons.
    f_equal; destruct (isMatch (TableComparison.status c)); lia.
Qed.

Variable verify : string -> Result TableResult.

Lemma sequentialStep_tallyStep (acc : Tally) (tableName : string) :
  sequentialStep verify acc tableName
  = tallyStep acc (comparisonEntry verify tableName).
Proof.
  unfold sequentialStep, tallyStep, comparisonEntry.
  destruct (verify tableName) as [r|e]; simpl; [reflexivity|].
  f_equal. lia.
Qed.

(** The sequential loop records the entry of every table, in the order
    of the list, and counts over these entries. *)
Lemma processSequentially_spec (commonTables : list string) :
  processSequentially verify commonTables
  = mkTally (map (comparisonEntry verify) commonTables)
            (sourceRowsTotal (map (comparisonEntry verify) commonTables))
            (matchCount (map (comparisonEntry verify) commonTables)).
Proof.
  unfold processSequentially.
  assert (H : forall acc,
             fold_left (sequentialStep verify) commonTables acc
             = fold_left tallyStep (map (comparisonEntry verify) commonTables) acc).
  { induction commonTables as [|t l IH]; intros acc; [reflexivity|].
    simpl. rewrite sequentialStep_tallyStep. apply IH. }
  rewrite H, tallyStep_fold. reflexivity.
Qed.

Lemma comparisonEntry_tableName (tableName : string) :
  TableComparison.tableName (comparisonEntry verify tableName) = tableName.
Proof. unfold comparisonEntry. now destruct (verify tableName). Qed.

Lemma map_tableName_entries (l : list string) :
  map TableComparison.tableName (map (comparisonEntry verify) l) = l.
Proof.
  induction l as [|t l IH]; simpl; [reflexivity|].
  now rewrite comparisonEntry_tableName, IH.
Qed.

End TallyFacts.

(* ------------------------------------------------------------------ *)
(** ** Parallel mode against the discovery order and sequential mode *)
(* ------------------------------------------------------------------ *)

Section ParallelFacts.

Variable cfg : AppConfig.t.
Variable verify : string -> Result TableResult.
Variable tableNames : list string.

(** The state in which [Promise.all] resolves. *)
Let settled (schedule : list nat) : Shared :=
  let concurrency :=
    mathMin (AppConfig.maxConcurrentTables cfg)
            (Num (Z.of_nat (List.length tableNames))) in
  let scheduled :=
    runSchedule verify tableNames schedule
      (startWorkers (roundsBelow concurrency)) in
  awaitAll verify tableNames (stepsLeft tableNames scheduled) scheduled.

Lemma settled_all_finished (schedule : list nat) :
  allFinished (settled schedule).
Proof. unfold settled. apply awaitAll_finished. lia. Qed.

Lemma settled_invariant (schedule : list nat) :
  Invariant verify tableNames (settled schedule).
Proof.
  unfold settled.
  apply awaitAll_invariant, runSchedule_invariant, startWorkers_invariant.
Qed.

Lemma settled_workers (schedule : list nat) :
  numLe (Num 1) (AppConfig.maxConcurrentTables cfg) = true ->
  workers (settled schedule) <> [] \/ tableNames = [].
Proof.
  intros Hmax. destruct tableNames as [|t l] eqn:E; [now right|left].
  intros Hnil. apply (f_equal (@List.length Worker)) in Hnil.
  unfold settled in Hnil.
  rewrite awaitAll_workers_length, runSchedule_workers_length in Hnil.
  unfold startWorkers in Hnil. simpl workers in Hnil.
  rewrite repeat_length in Hnil. simpl List.length in Hnil.
  destruct (AppConfig.maxConcurrentTables cfg) as [k|]; [|discriminate].
  simpl in Hmax, Hnil. apply Z.leb_le in Hmax. lia.
Qed.

Lemma processTablesInParallel_unfold (schedule : list nat) :
  processTablesInParallel cfg verify tableNames schedule
  = sort (fun a b => (discoveryIndex tableNames a
                      - discoveryIndex tableNames b)%Z)
         (results (settled schedule)).
Proof. reflexivity. Qed.

(** Every table of the list is verified once: the returned list holds the
    entries of the tables, each as often as the table is listed. *)
Lemma processTablesInParallel_permutation (schedule : list nat) :
  numLe (Num 1) (AppConfig.maxConcurrentTables cfg) = true ->
  Permutation (processTablesInParallel cfg verify tableNames schedule)
              (map (comparisonEntry verify) tableNames).
Proof.
  intros Hmax. rewrite processTablesInParallel_unfold, sort_perm.
  apply finished_results.
  - apply settled_invariant.
  - apply settled_all_finished.
  - now apply settled_workers.
Qed.

Lemma processTablesInParallel_sorted (schedule : list nat) :
  StronglySorted (inDiscoveryOrder tableNames)
    (processTablesInParallel cfg verify tableNames schedule).
Proof.
  rewrite processTablesInParallel_unfold.
  apply (sort_sorted (discoveryIndex tableNames)).
Qed.

(** Every returned entry belongs to a table of the list. *)
Lemma processTablesInParallel_tables_listed (schedule : list nat) :
  Forall (fun c => In (TableComparison.tableName c) tableNames)
    (processTablesInParallel cfg verify tableNames schedule).
Proof.
  rewrite processTablesInParallel_unfold.
  apply (Permutation_Forall
           (Permutation_sym
              (sort_perm (discoveryIndex tableNames)
                 (results (settled schedule))))).
  destruct (settled_invariant schedule) as [_ (done & Hres & Hperm) _].
  rewrite Hres, Forall_map. apply Forall_forall. intros t Ht.
  rewrite comparisonEntry_tableName.
  assert (Hin : In t (firstn (currentIndex (settled schedule)) tableNames)).
  { apply (Permutation_in _ Hperm). apply in_or_app. now left. }
  rewrite <- (firstn_skipn (currentIndex (settled schedule)) tableNames).
  apply in_or_app. now left.
Qed.

Lemma entries_sorted (l : list string) :
  StronglySorted
    (fun a b => (indexOf tableNames a <= indexOf tableNames b)%Z) l ->
  StronglySorted (inDiscoveryOrder tableNames)
    (map (comparisonEntry verify) l).
Proof.
  induction l as [|t l IH]; intros H; simpl; [constructor|].
  apply StronglySorted_inv in H as [Hs Hall].
  constructor; [now apply IH|].
  rewrite Forall_map. eapply Forall_impl; [|exact Hall].
  intros b Hb. unfold inDiscoveryOrder, discoveryIndex.
  now rewrite !comparisonEntry_tableName.
Qed.

Lemma entries_sorted_of_grouped :
  Grouped tableNames ->
  StronglySorted (inDiscoveryOrder tableNames)
    (map (comparisonEntry verify) tableNames).
Proof. apply entries_sorted. Qed.

(** The sort undoes every completion order: whatever rearrangement of the
    entries the workers pushed, sorting it by discovery index yields the
    entries in the order of a grouped table list. *)
Lemma sort_restores_discovery_order (pushed : list TableComparison.t) :
  Permutation pushed (map (comparisonEntry verify) tableNames) ->
  Grouped tableNames ->
  sort (byDiscoveryOrder tableNames) pushed
  = map (comparisonEntry verify) tableNames.
Proof.
  intros Hpushed Hg.
  assert (Hp : Permutation (sort (byDiscoveryOrder tableNames) pushed)
                           (map (comparisonEntry verify) tableNames)).
  { rewrite <- Hpushed.
    apply (sort_perm (discoveryIndex tableNames)). }
  apply (sorted_perm_unique (discoveryIndex tableNames)).
  - intros a b Ha Hb Hkey.
    apply (Permutation_in _ Hp) in Ha. apply (Permutation_in _ Hp) in Hb.
    apply in_map_iff in Ha as (ta & <- & Hta).
    apply in_map_iff in Hb as (tb & <- & Htb).
    unfold discoveryIndex in Hkey.
    rewrite !comparisonEntry_tableName in Hkey.
    now rewrite (indexOf_inj tableNames ta tb Hta Htb Hkey).
  - apply (sort_sorted (discoveryIndex tableNames)).
  - now apply entries_sorted_of_grouped.
  - exact Hp.
Qed.

(** For a grouped table list the returned list is the list of entries in
    discovery order, whatever the schedule. *)
Lemma processTablesInParallel_discovery_order (schedule : list nat) :
  numLe (Num 1) (AppConfig.maxConcurrentTables cfg) = true ->
  Grouped tableNames ->
  processTablesInParallel cfg verify tableNames schedule
  = map (comparisonEntry verify) tableNames.
Proof.
  intros Hmax Hg. unfold processTablesInParallel.
  apply sort_restores_discovery_order; [|exact Hg].
  apply finished_results.
  - apply settled_invariant.
  - apply settled_all_finished.
  - now apply settled_workers.
Qed.

(** Without workers nothing is verified, whatever the schedule. *)
Lemma runSchedule_no_worker (schedule : list nat) (s : Shared) :
  workers s = [] -> runSchedule verify tableNames schedule s = s.
Proof.
  intros Hw. unfold runSchedule.
  induction schedule as [|i schedule IH]; simpl; [reflexivity|].
  replace (workerStep verify tableNames s i) with s; [exact IH|].
  unfold workerStep. rewrite Hw. now destruct i.
Qed.

Lemma awaitAll_no_worker (fuel : nat) (s : Shared) :
  workers s = [] -> awaitAll verify tableNames fuel s = s.
Proof. intros Hw. destruct fuel; simpl; [reflexivity|]. now rewrite Hw. Qed.

(** When [maxConcurrentTables] is [NaN], so is [concurrency]; the loop
    that starts the workers runs no round and the function returns the
    empty list, whatever the tables. *)
Lemma processTablesInParallel_unparsed (schedule : list nat) :
  AppConfig.maxConcurrentTables cfg = NaN ->
  processTablesInParallel cfg verify tableNames schedule = [].
Proof.
  intros Hnan. unfold processTablesInParallel. rewrite Hnan. simpl.
  rewrite runSchedule_no_worker by reflexivity.
  rewrite awaitAll_no_worker by reflexivity. reflexivity.
Qed.

End ParallelFacts.

Section ParallelClaims.

Variable cfg : AppConfig.t.
Variable verify : string -> Result TableResult.
Variable tableNames : list string.

(** C6.  Whatever the order in which the workers settle (whatever the
    schedule), the list that [processTablesInParallel] returns is ordered
    by the position of each entry's table in the discovery order, every
    entry belonging to a table of that list; and for a grouped table list
    (adapters list tables so) and a [maxConcurrentTables] of at least 1,
    the tables of the returned entries are the discovery list itself. *)
Theorem processTablesInParallel_ordered (schedule : list nat) :
  StronglySorted (inDiscoveryOrder tableNames)
    (processTablesInParallel cfg verify tableNames schedule)
  /\ Forall (fun c => In (TableComparison.tableName c) tableNames)
       (processTablesInParallel cfg verify tableNames schedule)
  /\ (numLe (Num 1) (AppConfig.maxConcurrentTables cfg) = true ->
      Grouped tableNames ->
      map TableComparison.tableName
        (processTablesInParallel cfg verify tableNames schedule)
      = tableNames).
Proof.
  split; [|split].
  - apply processTablesInParallel_sorted.
  - apply processTablesInParallel_tables_listed.
  - intros Hmax Hg.
    rewrite (processTablesInParallel_discovery_order _ _ _ schedule Hmax Hg).
    apply map_tableName_entries.
Qed.

(** X26.  When [maxConcurrentTables] is a number and at least 1, the
    worker loop verifies every table of the list once, under every
    schedule: the returned list is a rearrangement of the entries of the
    tables, one per table; and for a grouped table list it is equal, as a
    list, to the comparison list of sequential mode. *)
Theorem parallel_equals_sequential (schedule : list nat) :
  numLe (Num 1) (AppConfig.maxConcurrentTables cfg) = true ->
  Grouped tableNames ->
  Permutation (processTablesInParallel cfg verify tableNames schedule)
              (map (comparisonEntry verify) tableNames)
  /\ List.length (processTablesInParallel cfg verify tableNames schedule)
     = List.length tableNames
  /\ processTablesInParallel cfg verify tableNames schedule
     = comparison (processSequentially verify tableNames).
Proof.
  intros Hmax Hg.
  pose proof (processTablesInParallel_permutation cfg verify tableNames
                schedule Hmax) as Hp.
  repeat split.
  - exact Hp.
  - rewrite (Permutation_length Hp). apply length_map.
  - rewrite processSequentially_spec. simpl.
    now apply processTablesInParallel_discovery_order.
Qed.

End ParallelClaims.

(** Equal names next to each other, as PostgreSQL lists a table that
    exists in both searched schemas, keep the list grouped. *)
Example adjacent_duplicates_grouped : Grouped ["audit"; "users"; "users"].
Proof.
  unfold Grouped. repeat constructor; vm_compute; discriminate.
Qed.

Lemma shop_tables_grouped : Grouped ["customers"; "orders"].
Proof. apply NoDup_Grouped. repeat constructor; simpl; intuition discriminate. Qed.

Lemma processTablesInParallel_ordered_witness :
  map TableComparison.tableName
    (processTablesInParallel AppConfig.defaults Examples.shopVerify
       ["customers"; "orders"] Examples.ordersFirst)
  = ["customers"; "orders"].
Proof.
  apply (proj2 (proj2 (processTablesInParallel_ordered AppConfig.defaults
                         Examples.shopVerify ["customers"; "orders"]
                         Examples.ordersFirst))).
  - reflexivity.
  - exact shop_tables_grouped.
Defined.

Lemma parallel_equals_sequential_witness :
  processTablesInParallel AppConfig.defaults Examples.shopVerify
    ["customers"; "orders"] Examples.ordersFirst
  = comparison (processSequentially Examples.shopVerify ["customers"; "orders"]).
Proof.
  apply (parallel_equals_sequential AppConfig.defaults Examples.shopVerify
           ["customers"; "orders"] Examples.ordersFirst).
  - reflexivity.
  - exact shop_tables_grouped.
Defined.

(** C10.  The worker loop does not verify every table when the knob is
    not a number.  The configuration that [createAppConfig] yields when
    VERIFICATION_MAX_CONCURRENT_TABLES holds a text without leading digits
    passes [validateConfig], both range tests being false of [NaN]; with
    it [Math.min] gives [NaN], the loop that starts the workers runs no
    round, and [processTablesInParallel] returns the empty list for the
    two tables of the shop under every schedule, where sequential mode
    returns an entry for each. *)
Theorem processTablesInParallel_skips_every_table :
  Config.validateConfig Config.unparsedConcurrency = []
  /\ AppConfig.maxConcurrentTables AppConfig.unparsedConcurrency
     = Config.maxConcurrentTables
         (Config.verification Config.unparsedConcurrency)
  /\ (forall schedule,
        processTablesInParallel AppConfig.unparsedConcurrency
          Examples.shopVerify ["customers"; "orders"] schedule
        = [])
  /\ map TableComparison.tableName
       (comparison (processSequentially Examples.shopVerify
                      ["customers"; "orders"]))
     = ["customers"; "orders"].
Proof.
  split; [reflexivity|]. split; [reflexivity|]. split; [|reflexivity].
  intros schedule. now apply processTablesInParallel_unparsed.
Qed.

(** The entries are pushed in the order in which the verifications
    settle, here [orders] before [customers]; the sort restores the
    discovery order. *)
Example completion_order_differs :
  map TableComparison.tableName
    (results (runSchedule Examples.shopVerify ["customers"; "orders"]
                Examples.ordersFirst (startWorkers 2)))
  = ["orders"; "customers"].
Proof. reflexivity. Qed.

(** For a list in which equal names are apart (no adapter lists tables
    so) the sort by first occurrence brings them together. *)
Example separated_duplicates_are_regrouped :
  map TableComparison.tableName
    (processTablesInParallel AppConfig.defaults Examples.shopVerify
       ["customers"; "orders"; "customers"] [])
  = ["customers"; "customers"; "orders"].
Proof. reflexivity. Qed.

(** Sequential mode (parallel processing switched off) absorbs the
    failure of [orders] in the same way. *)
Example sequential_run_absorbs_failure :
  option_map
    (fun result =>
       map (fun c => (TableComparison.tableName c, TableComparison.status c))
           (VerificationResult.comparison result))
    (match verifyMigration (AppConfig.mk 10 (Num 5) 5 30000 false) Examples.shopWorld
             [] "2025-07-15T10:00:00.000Z" Examples.mysqlShop
             Examples.postgresShop with
     | Ok result => Some result
     | Throw _ => None
     end)
  = Some [("customers", MATCH); ("orders", MISMATCH)].
Proof. reflexivity. Qed.

(* ------------------------------------------------------------------ *)
(** ** The run *)
(* ------------------------------------------------------------------ *)

Section RunFacts.

Variable cfg : AppConfig.t.
Variable w : World.
Variable schedule : list nat.
Variable completedAt : string.
Variables sourceConfig targetConfig : DBConnection.t.

Hypothesis validConcurrency :
  numLe (Num 1) (AppConfig.maxConcurrentTables cfg) = true.

Let verify := verifyTable cfg w sourceConfig targetConfig.

(** In either mode the accumulators hold the entries of the common
    tables, and the counters are taken over these entries. *)
Lemma tallyTables_spec (commonTables : list string) :
  let tally := tallyTables cfg verify commonTables schedule in
  Permutation (comparison tally) (map (comparisonEntry verify) commonTables)
  /\ totalSourceRows tally = sourceRowsTotal (comparison tally)
  /\ matchedTables tally = matchCount (comparison tally).
Proof.
  unfold tallyTables. destruct (useParallel cfg commonTables).
  - rewrite tallyStep_fold. simpl.
    split; [|split; reflexivity].
    now apply processTablesInParallel_permutation.
  - rewrite processSequentially_spec. simpl. auto.
Qed.

(** A run whose connectivity tests and table listings succeed reaches
    aggregation and returns its summary. *)
Lemma verifyMigration_returns (sourceTables targetTables : list string) :
  testConnection w sourceConfig = Ok tt ->
  testConnection w targetConfig = Ok tt ->
  getTables w sourceConfig = Ok sourceTables ->
  getTables w targetConfig = Ok targetTables ->
  verifyMigration cfg w schedule completedAt sourceConfig targetConfig
  = Ok (summarize completedAt (commonTablesOf sourceTables targetTables)
          (tallyTables cfg verify (commonTablesOf sourceTables targetTables)
             schedule)).
Proof.
  intros H1 H2 H3 H4. unfold verifyMigration. rewrite H1, H2, H3, H4.
  reflexivity.
Qed.

Lemma commonTablesOf_In (sourceTables targetTables : list string) (t : string) :
  In t (commonTablesOf sourceTables targetTables)
  <-> In t sourceTables /\ In t targetTables.
Proof.
  unfold commonTablesOf. rewrite filter_In, includes_In. reflexivity.
Qed.

(** X25.  When [maxConcurrentTables] is a number and at least 1, a run
    that reaches aggregation returns a summary whose status is
    SUCCESS exactly when every verdict of the comparison is MATCH; the
    comparison holds one verdict per common table and none for a table
    that only one side lists; and the total, matched and mismatched counts
    are the number of common tables and the numbers of MATCH and of
    MISMATCH verdicts among them. *)
Theorem verifyMigration_summary (sourceTables targetTables : list string) :
  testConnection w sourceConfig = Ok tt ->
  testConnection w targetConfig = Ok tt ->
  getTables w sourceConfig = Ok sourceTables ->
  getTables w targetConfig = Ok targetTables ->
  exists result,
    verifyMigration cfg w schedule completedAt sourceConfig targetConfig
    = Ok result
    /\ (VerificationSummary.status (VerificationResult.summary result) = SUCCESS
        <-> Forall (fun c => TableComparison.status c = MATCH)
                   (VerificationResult.comparison result))
    /\ Permutation
         (map TableComparison.tableName (VerificationResult.comparison result))
         (commonTablesOf sourceTables targetTables)
    /\ (forall c, In c (VerificationResult.comparison result) ->
          In (TableComparison.tableName c) sourceTables
          /\ In (TableComparison.tableName c) targetTables)
    /\ VerificationSummary.totalTables (VerificationResult.summary result)
       = Z.of_nat (List.length (commonTablesOf sourceTables targetTables))
    /\ VerificationSummary.matchedTables (VerificationResult.summary result)
       = matchCount (VerificationResult.comparison result)
    /\ VerificationSummary.mismatchedTables (VerificationResult.summary result)
       = mismatchCount (VerificationResult.comparison result).
Proof.
  intros H1 H2 H3 H4.
  eexists. split; [exact (verifyMigration_returns _ _ H1 H2 H3 H4)|].
  set (commonTables := commonTablesOf sourceTables targetTables).
  destruct (tallyTables_spec commonTables) as (Hp & _ & Hm).
  set (tally := tallyTables cfg verify commonTables schedule) in *.
  assert (Hnames : Permutation (map TableComparison.tableName (comparison tally))
                               commonTables).
  { rewrite <- (map_tableName_entries verify commonTables).
    now apply Permutation_map. }
  assert (Hlen : List.length (comparison tally) = List.length commonTables).
  { rewrite (Permutation_length Hp). apply length_map. }
  pose proof (match_mismatch_total (comparison tally)) as Hsum.
  unfold summarize. simpl. repeat split.
  - intros Hs. apply all_match_iff.
    destruct (_ =? 0)%Z eqn:E; [|discriminate].
    apply Z.eqb_eq in E. lia.
  - intros Hall. apply all_match_iff in Hall.
    destruct (_ =? 0)%Z eqn:E; [reflexivity|].
    apply Z.eqb_neq in E. lia.
  - exact Hnames.
  - apply (commonTablesOf_In sourceTables targetTables).
    apply (Permutation_in _ Hnames). now apply in_map.
  - apply (commonTablesOf_In sourceTables targetTables).
    apply (Permutation_in _ Hnames). now apply in_map.
  - exact Hm.
  - lia.
Qed.

(** C7.  When the verification of a common table raises an error (an
    instance of [Error], as the adapters and the timeout raise), the run
    still returns its summary; the comparison holds for that table the
    MISMATCH entry whose detail is the error message behind the prefix
    "Processing failed: "; and every common table, the remaining ones
    included, has its entry in the comparison.  The statement covers both
    modes, [cfg] and the table list deciding which one runs. *)
Theorem table_failure_becomes_mismatch
  (sourceTables targetTables : list string) (tableName : string)
  (error : Thrown) (message : string) :
  testConnection w sourceConfig = Ok tt ->
  testConnection w targetConfig = Ok tt ->
  getTables w sourceConfig = Ok sourceTables ->
  getTables w targetConfig = Ok targetTables ->
  In tableName (commonTablesOf sourceTables targetTables) ->
  verifyTable cfg w sourceConfig targetConfig tableName = Throw error ->
  errorMessage error = Some message ->
  exists result,
    verifyMigration cfg w schedule completedAt sourceConfig targetConfig
    = Ok result
    /\ In (TableComparison.mk tableName 0 0 false MISMATCH [] [] false
             ("Processing failed: " ++ message))
          (VerificationResult.comparison result)
    /\ (forall other, In other (commonTablesOf sourceTables targetTables) ->
          In (comparisonEntry (verifyTable cfg w sourceConfig targetConfig) other)
             (VerificationResult.comparison result))
    /\ List.length (VerificationResult.comparison result)
       = List.length (commonTablesOf sourceTables targetTables).
Proof.
  intros H1 H2 H3 H4 Hin Hthrow Hmsg.
  eexists. split; [exact (verifyMigration_returns _ _ H1 H2 H3 H4)|].
  set (commonTables := commonTablesOf sourceTables targetTables) in *.
  destruct (tallyTables_spec commonTables) as (Hp & _ & _).
  unfold summarize. simpl.
  assert (Hall : forall other, In other commonTables ->
            In (comparisonEntry verify other)
               (comparison (tallyTables cfg verify commonTables schedule))).
  { intros other Ho. apply Permutation_sym in Hp.
    apply (Permutation_in _ Hp). now apply in_map. }
  repeat split.
  - specialize (Hall tableName Hin). unfold comparisonEntry in Hall.
    unfold verify in Hall at 1. rewrite Hthrow in Hall.
    replace (messageOrUnknown error) with message in Hall; [exact Hall|].
    destruct error; simpl in *; congruence.
  - exact Hall.
  - rewrite (Permutation_length Hp). apply length_map.
Qed.

(** The two sources of a table-level error.  A timer that fires first
    rejects with the [TimeoutError] of [withTimeout]... *)
Lemma verifyTable_timeout (tableName : string) :
  processingTimedOut w tableName = true ->
  let operation : string :=
    ("Table " ++ dquote ++ tableName ++ dquote ++ " processing")%string in
  verifyTable cfg w sourceConfig targetConfig tableName
  = Throw (TimeoutError
             (operation ++ " timed out after "
              ++ numberToString (AppConfig.processingTimeout cfg) ++ "ms")
             (AppConfig.processingTimeout cfg) operation).
Proof.
  intros H. unfold verifyTable, withTimeout. rewrite H. reflexivity.
Qed.

(** ... and a rejected adapter call rejects the verification with the
    adapter's error. *)
Lemma verifyTable_adapter_failure (tableName : string) (error : Thrown) :
  processingTimedOut w tableName = false ->
  getTableRowCount w sourceConfig tableName = Throw error ->
  verifyTable cfg w sourceConfig targetConfig tableName = Throw error.
Proof.
  intros Ht He. unfold verifyTable, withTimeout. rewrite Ht.
  unfold IO.outcome, processTableVerification, IO.bind, IO.query.
  rewrite He. reflexivity.
Qed.

End RunFacts.


Lemma verifyMigration_summary_witness :
  exists result,
    verifyMigration AppConfig.defaults Examples.shopWorld Examples.ordersFirst
      "2025-07-15T10:00:00.000Z" Examples.mysqlShop Examples.postgresShop
    = Ok result
    /\ (VerificationSummary.status (VerificationResult.summary result) = SUCCESS
        <-> Forall (fun c => TableComparison.status c = MATCH)
                   (VerificationResult.comparison result))
    /\ Permutation
         (map TableComparison.tableName (VerificationResult.comparison result))
         ["customers"; "orders"].
Proof.
  destruct (verifyMigration_summary AppConfig.defaults Examples.shopWorld
              Examples.ordersFirst "2025-07-15T10:00:00.000Z"
              Examples.mysqlShop Examples.postgresShop
              eq_refl
              ["customers"; "legacy"; "orders"] ["audit"; "customers"; "orders"]
              eq_refl eq_refl eq_refl eq_refl)
    as (result & Hrun & Hiff & Hnames & _).
  exists result. repeat split; try assumption; apply Hiff.
Defined.

Lemma table_failure_becomes_mismatch_witness :
  exists result,
    verifyMigration AppConfig.defaults Examples.shopWorld Examples.ordersFirst
      "2025-07-15T10:00:00.000Z" Examples.mysqlShop Examples.postgresShop
    = Ok result
    /\ In (TableComparison.mk "orders" 0 0 false MISMATCH [] [] false
             "Processing failed: MySQL row count for orders failed: gone")
          (VerificationResult.comparison result)
    /\ List.length (VerificationResult.comparison result) = 2.
Proof.
  destruct (table_failure_becomes_mismatch AppConfig.defaults Examples.shopWorld
              Examples.ordersFirst "2025-07-15T10:00:00.000Z"
              Examples.mysqlShop Examples.postgresShop
              eq_refl
              ["customers"; "legacy"; "orders"] ["audit"; "customers"; "orders"]
              "orders"
              (DatabaseError "MySQL row count for orders failed: gone" "QUERY_ERROR")
              "MySQL row count for orders failed: gone"
              eq_refl eq_refl eq_refl eq_refl
              ltac:(simpl; tauto) eq_refl eq_refl)
    as (result & Hrun & Hentry & _ & Hlen).
  exists result. repeat split; assumption.
Defined.

(** Without workers the parallel branch tallies nothing: a run over two
    or more common tables reports every one of them as an issue and
    returns no verdict. *)
Lemma verifyMigration_unparsed (cfg : AppConfig.t) (w : World)
  (schedule : list nat) (completedAt : string)
  (sourceConfig targetConfig : DBConnection.t)
  (sourceTables targetTables : list string) :
  AppConfig.maxConcurrentTables cfg = NaN ->
  AppConfig.enableParallelProcessing cfg = true ->
  testConnection w sourceConfig = Ok tt ->
  testConnection w targetConfig = Ok tt ->
  getTables w sourceConfig = Ok sourceTables ->
  getTables w targetConfig = Ok targetTables ->
  1 < List.length (commonTablesOf sourceTables targetTables) ->
  verifyMigration cfg w schedule completedAt sourceConfig targetConfig
  = Ok (summarize completedAt (commonTablesOf sourceTables targetTables)
          emptyTally).
Proof.
  intros Hnan Hpar H1 H2 H3 H4 Hlen.
  rewrite (verifyMigration_returns cfg w schedule completedAt sourceConfig
             targetConfig sourceTables targetTables H1 H2 H3 H4).
  unfold tallyTables, useParallel. rewrite Hpar.
  apply Nat.ltb_lt in Hlen. rewrite Hlen. simpl andb. cbv iota.
  now rewrite processTablesInParallel_unparsed.
Qed.

(** C2.  The summary does not follow the verdicts when the concurrency
    knob is not a number.  The configuration that [createAppConfig] yields
    when VERIFICATION_MAX_CONCURRENT_TABLES holds a text without leading
    digits passes [validateConfig].  With it, and a source and a target
    whose two common tables both verify as MATCH, the run starts no
    worker: under every schedule it reports MISMATCH with two issues, no
    matched table and an empty comparison.  With parallel processing
    switched off the same databases give SUCCESS and two MATCH
    verdicts. *)
Theorem verifyMigration_reports_issues_without_verdicts :
  Config.validateConfig Config.unparsedConcurrency = []
  /\ AppConfig.maxConcurrentTables AppConfig.unparsedConcurrency
     = Config.maxConcurrentTables
         (Config.verification Config.unparsedConcurrency)
  /\ (forall schedule,
        verifyMigration AppConfig.unparsedConcurrency
          MoreExamples.healthyWorld schedule "2025-07-15T10:00:00.000Z"
          Examples.mysqlShop Examples.postgresShop
        = Ok (VerificationResult.mk
                (VerificationSummary.mk SUMMARY_MISMATCH
                   "Migration Verification Found 2 Issues"
                   "2025-07-15T10:00:00.000Z" 2 0 2 0)
                []))
  /\ option_map
       (fun result =>
          (VerificationSummary.status (VerificationResult.summary result),
           map (fun c => (TableComparison.tableName c, TableComparison.status c))
               (VerificationResult.comparison result)))
       (match verifyMigration (AppConfig.mk 10 NaN 5 30000 false)
                MoreExamples.healthyWorld [] "2025-07-15T10:00:00.000Z"
                Examples.mysqlShop Examples.postgresShop with
        | Ok result => Some result
        | Throw _ => None
        end)
     = Some (SUCCESS, [("customers", MATCH); ("orders", MATCH)]).
Proof.
  split; [reflexivity|]. split; [reflexivity|]. split; [|reflexivity].
  intros schedule.
  now rewrite (verifyMigration_unparsed AppConfig.unparsedConcurrency
                 MoreExamples.healthyWorld schedule
                 "2025-07-15T10:00:00.000Z" Examples.mysqlShop
                 Examples.postgresShop
                 ["customers"; "legacy"; "orders"]
                 ["audit"; "customers"; "orders"]
                 eq_refl eq_refl eq_refl eq_refl eq_refl eq_refl
                 ltac:(simpl; lia)).
Qed.

(* ------------------------------------------------------------------ *)
(** ** Connection pool *)
(* ------------------------------------------------------------------ *)

Section PoolFacts.

Import Pool.

Lemma mapGet_Some_In (m : list (string * list PooledConnection))
  (k : string) (pool : list PooledConnection) :
  mapGet m k = Some pool -> In (k, pool) m.
Proof.
  induction m as [|[k0 p0] m IH]; simpl; [discriminate|].
  destruct (String.eqb k0 k) eqn:E.
  - apply String.eqb_eq in E. intros [= <-]. left. now subst.
  - intros H. right. now apply IH.
Qed.









Lemma pool_of_key_keyed (cp : ConnectionPool) (k : string)
  (pool : list PooledConnection) :
  WellFormed cp -> mapGet (pools cp) k = Some pool ->
  Forall (fun pc => getPoolKey (config pc) = k) pool.
Proof.
  intros [_ Hkeyed] Hget. apply mapGet_Some_In in Hget.
  rewrite Forall_forall in Hkeyed. exact (Hkeyed _ Hget).
Qed.



Lemma mapDelete_incl (m : list (string * list PooledConnection)) (k : string) :
  incl (mapDelete m k) m.
Proof.
  induction m as [|[k0 p0] m IH]; simpl; [apply incl_refl|].
  destruct (String.eqb k0 k).
  - apply incl_tl, incl_refl.
  - apply incl_cons; [now left|]. now apply incl_tl.
Qed.

Lemma mapDelete_NoDup (m : list (string * list PooledConnection)) (k : string) :
  NoDup (map fst m) -> NoDup (map fst (mapDelete m k)).
Proof.
  induction m as [|[k0 p0] m IH]; simpl; [trivial|].
  intros Hnd. inversion Hnd as [|? ? Hk0 Hnd']; subst.
  destruct (String.eqb k0 k); [assumption|]. simpl.
  constructor; [|now apply IH].
  intros Hin. apply Hk0. apply in_map_iff in Hin as (e & <- & He).
  apply in_map. now apply (mapDelete_incl m k).
Qed.

Lemma closePool_wellFormed (poolKey : option string) (cp : ConnectionPool) :
  WellFormed cp -> WellFormed (closePool poolKey cp).
Proof.
  intros [Hnd Hkeyed]. unfold closePool.
  destruct (truthyKey poolKey) as [key|].
  - destruct (mapGet (pools cp) key); [|now split].
    split; simpl; [now apply mapDelete_NoDup|].
    rewrite Forall_forall in *. intros e He.
    apply Hkeyed. now apply (mapDelete_incl (pools cp) key).
  - split; simpl; constructor.
Qed.

Lemma cleanupExpiredConnections_wellFormed (now : Z) (cp : ConnectionPool) :
  WellFormed cp -> WellFormed (cleanupExpiredConnections now cp).
Proof.
  intros [Hnd Hkeyed]. split; simpl.
  - rewrite map_map. simpl. exact Hnd.
  - rewrite Forall_map. eapply Forall_impl; [|exact Hkeyed].
    intros [k pool] Hpool. simpl in *.
    rewrite Forall_forall in *. intros pc Hpc.
    apply filter_In in Hpc as [Hpc _]. now apply Hpool.
Qed.


End PoolFacts.

Section PoolClaims.

Import Pool.

Lemma isAvailable_iff (now : Z) (pc : PooledConnection) :
  isAvailable now pc = true
  <-> inUse pc = false /\ (now - lastUsed pc < 300000)%Z.
Proof.
  unfold isAvailable, isConnectionValid.
  rewrite andb_true_iff, negb_true_iff, Z.ltb_lt. reflexivity.
Qed.


Lemma allEntries_In (cp : ConnectionPool) (k : string)
  (pool : list PooledConnection) (pc : PooledConnection) :
  In (k, pool) (pools cp) -> In pc pool -> In pc (allEntries cp).
Proof.
  intros Hp Hpc. unfold allEntries. apply in_flat_map.
  exists (k, pool). split; assumption.
Qed.

(** With no reusable entry, the lookup of [getConnection] comes back
    empty-handed. *)
Lemma no_reusable_none (now : Z) (c : DBConnection.t) (cp : ConnectionPool) :
  WellFormed cp ->
  (forall pc, In pc (allEntries cp) -> ~ reusableFor now c pc) ->
  getAvailableConnection now cp (getPoolKey c) = None.
Proof.
  intros Hwf Hnone. unfold getAvailableConnection.
  destruct (mapGet (pools cp) (getPoolKey c)) as [pool|] eqn:Eget;
    [|reflexivity].
  destruct (find (isAvailable now) pool) as [pc|] eqn:Efind; [|reflexivity].
  exfalso. apply find_some in Efind as [Hin Hav].
  apply (Hnone pc).
  - eapply allEntries_In; [apply mapGet_Some_In; exact Eget|exact Hin].
  - pose proof (pool_of_key_keyed _ _ _ Hwf Eget) as Hk.
    rewrite Forall_forall in Hk.
    apply isAvailable_iff in Hav. unfold reusableFor. split; [|exact Hav].
    now apply Hk.
Qed.









(** The identity key is the rendering of the five fields, so descriptors
    whose fields hold the separator can share a key. *)
Example getPoolKey_renders_fields :
  getPoolKey (DBConnection.mk mysql (Some "db") (Some 3306%Z) (Some "app")
                None "shop:eu" None)
  = getPoolKey (DBConnection.mk mysql (Some "db") (Some 3306%Z) (Some "eu:app")
                  None "shop" None).
Proof. reflexivity. Qed.

(** Beyond the limit nothing is created: a full pool with every
    connection in use rejects the request whatever the driver would do. *)
Lemma getConnection_exhausted (now : Z) (driver : Result Handle)
  (c : DBConnection.t) (cp : ConnectionPool) :
  WellFormed cp ->
  Forall (fun pc => inUse pc = true) (allEntries cp) ->
  (maxConnections cp <= activeConnections cp)%Z ->
  getConnection now driver c cp
  = (Throw (DatabaseError "Connection pool exhausted" "RESOURCE_EXHAUSTED"), cp).
Proof.
  intros Hwf Hbusy Hfull.
  assert (Hnone : forall pc, In pc (allEntries cp) -> ~ reusableFor now c pc).
  { intros pc Hin (_ & Hidle & _). rewrite Forall_forall in Hbusy.
    rewrite (Hbusy _ Hin) in Hidle. discriminate. }
  unfold getConnection. rewrite (no_reusable_none now c cp Hwf Hnone).
  apply Z.leb_le in Hfull. now rewrite Hfull.
Qed.

End PoolClaims.

(* ================================================================== *)
(** * Further properties of the engine *)
(* ================================================================== *)

Section ResolverProperties.

(** X1.  [areTypesCompatible] throws exactly when the two names differ
    after normalization and one of them normalizes to [constructor] or
    [__proto__]; for every other pair of names it returns a verdict. *)
Theorem areTypesCompatible_throws_exactly (a b : string) :
  ((exists e, areTypesCompatible a b = Throw e)
   <-> normalize a <> normalize b
       /\ (normalize a = "constructor" \/ normalize a = "__proto__"
           \/ normalize b = "constructor" \/ normalize b = "__proto__"))
  /\ ((exists v, areTypesCompatible a b = Ok v)
      <-> ~ (exists e, areTypesCompatible a b = Throw e)).
Proof.
  split.
  - rewrite areTypesCompatible_throws_iff.
    rewrite !inherited_after_normalize. tauto.
  - destruct (areTypesCompatible a b) as [v|e].
    + split; [intros _ [e He]; discriminate|intros _; eauto].
    + split; [intros [v Hv]; discriminate|intros H; exfalso; apply H; eauto].
Qed.

(** X2.  Whenever the resolver returns a verdict for a pair of names, it
    returns the same verdict for the swapped pair. *)
Theorem areTypesCompatible_verdict_symmetric (a b : string) (v : bool) :
  areTypesCompatible a b = Ok v <-> areTypesCompatible b a = Ok v.
Proof. split; apply areTypesCompatible_sym. Qed.

(** X3.  [compareSchemas] returns [true] exactly when the two column lists
    have the same length and, position by position, equal names up to
    case, equal nullability and types the resolver accepts. *)
Theorem compareSchemas_accepts_iff (sourceColumns targetColumns : list Column.t) :
  compareSchemas sourceColumns targetColumns = Ok true
  <-> List.length sourceColumns = List.length targetColumns
      /\ Forall2 columnsAgree sourceColumns targetColumns.
Proof.
  rewrite compareSchemas_true_iff. split.
  - intros H. split; [now apply Forall2_length in H|assumption].
  - tauto.
Qed.

End ResolverProperties.

Section DataMappingProperties.

Variable w : World.
Variables sourceConfig targetConfig : DBConnection.t.
Variable tableName : string.
Variable sampleSize : Z.

(** X4.  [verifyDataMapping] never rejects.  When the source sample cannot
    be fetched, the target is not sampled and the result is invalid with
    the error message in its detail; when only the target sample fails,
    the result is invalid in the same way after both queries. *)
Theorem verifyDataMapping_absorbs_failures (tr : list Event) :
  (exists d tr',
     verifyDataMapping w sourceConfig targetConfig tableName sampleSize tr
     = (Ok d, tr'))
  /\ (forall e,
        sameSqliteDatabase sourceConfig targetConfig = false ->
        getSampleData w sourceConfig tableName sampleSize = Throw e ->
        verifyDataMapping w sourceConfig targetConfig tableName sampleSize tr
        = (Ok (invalid ("Error during data mapping verification: "
                        ++ messageOrString e)),
           tr ++ [SampleQuery sourceConfig tableName sampleSize]))
  /\ (forall rows e,
        sameSqliteDatabase sourceConfig targetConfig = false ->
        getSampleData w sourceConfig tableName sampleSize = Ok rows ->
        getSampleData w targetConfig tableName sampleSize = Throw e ->
        verifyDataMapping w sourceConfig targetConfig tableName sampleSize tr
        = (Ok (invalid ("Error during data mapping verification: "
                        ++ messageOrString e)),
           (tr ++ [SampleQuery sourceConfig tableName sampleSize])
           ++ [SampleQuery targetConfig tableName sampleSize])).
Proof.
  split; [apply verifyDataMapping_returns|]. split.
  - intros e Hs He.
    unfold verifyDataMapping, IO.tryCatch, IO.bind, IO.query, IO.ret.
    rewrite Hs, He. reflexivity.
  - intros rows e Hs Hrows He.
    unfold verifyDataMapping, IO.tryCatch, IO.bind, IO.query, IO.ret.
    rewrite Hs, Hrows, He. reflexivity.
Qed.

End DataMappingProperties.

Section SampleComparison.

Lemma find_first_same_key (keys : list string) (key : string) :
  NoDup (map toLowerCase keys) -> In key keys ->
  find (fun tk => String.eqb (toLowerCase tk) (toLowerCase key)) keys
  = Some key.
Proof.
  induction keys as [|k keys IH]; simpl; [contradiction|].
  intros Hnd Hin. inversion Hnd as [|? ? Hk Hnd']; subst.
  destruct (String.eqb (toLowerCase k) (toLowerCase key)) eqn:E.
  - destruct Hin as [->|Hin]; [reflexivity|].
    apply String.eqb_eq in E. exfalso. apply Hk. rewrite E.
    now apply in_map.
  - destruct Hin as [->|Hin]; [rewrite String.eqb_refl in E; discriminate|].
    now apply IH.
Qed.

Lemma findTargetKey_same_row (r : Row) (key : string) :
  PlainKeys r -> In key (keysOf r) ->
  findTargetKey (keysOf r) key = Some key.
Proof.
  intros [Hnd Hne] Hin. unfold findTargetKey.
  rewrite (find_first_same_key _ _ Hnd Hin).
  destruct key as [|c key]; [contradiction|reflexivity].
Qed.

Lemma compareCells_same_row (i : nat) (r : Row) (keys : list string) :
  PlainKeys r -> incl keys (keysOf r) ->
  compareCells i r r (keysOf r) keys = None.
Proof.
  intros Hplain. induction keys as [|key keys IH]; intros Hincl; simpl;
    [reflexivity|].
  rewrite (findTargetKey_same_row r key Hplain) by (apply Hincl; now left).
  assert (Hrest : incl keys (keysOf r))
    by (intros x Hx; apply Hincl; now right).
  destruct (rowGet r key); simpl; try rewrite String.eqb_refl; simpl;
    now apply IH.
Qed.

Lemma compareRows_same_rows (i : nat) (rows : list Row) :
  Forall PlainKeys rows -> compareRows i rows rows = Ok None.
Proof.
  intros H. revert i. induction H as [|r rows Hr _ IH]; intros i; simpl;
    [reflexivity|].
  rewrite Nat.eqb_refl. simpl.
  rewrite (compareCells_same_row i r (keysOf r) Hr (incl_refl _)).
  apply IH.
Qed.

(** X5.  A sample compared with itself is reported as matching, provided
    the column names of every row are non-empty and distinct when case is
    ignored. *)
Theorem compareSamples_same_sample (rows : list Row) :
  Forall PlainKeys rows ->
  compareSamples rows rows
  = Ok (mkResult true ("All " ++ natToString (List.length rows)
                       ++ " sample rows match perfectly")).
Proof.
  intros H. unfold compareSamples. rewrite Nat.eqb_refl. simpl.
  rewrite (compareRows_same_rows 0 rows H). reflexivity.
Qed.

End SampleComparison.

Lemma compareSamples_same_sample_witness :
  compareSamples Examples.customersRows Examples.customersRows
  = Ok (mkResult true "All 2 sample rows match perfectly").
Proof.
  apply (compareSamples_same_sample Examples.customersRows).
  repeat constructor; simpl; intuition discriminate.
Defined.

(** Without the proviso the comparison of a row with itself can fail: two
    columns that differ in case only are both matched to the first one. *)
Example compareSamples_case_twins :
  compareSamples [[("id", JsCell "1"); ("ID", JsCell "2")]]
                 [[("id", JsCell "1"); ("ID", JsCell "2")]]
  = Ok (invalid ("Value mismatch in row 1, column " ++ dquote ++ "ID/id"
                 ++ dquote ++ ": source=" ++ dquote ++ "2" ++ dquote
                 ++ ", target=" ++ dquote ++ "1" ++ dquote)).
Proof. reflexivity. Qed.

Section RunProperties.

Variable cfg : AppConfig.t.
Variable w : World.
Variable schedule : list nat.
Variable completedAt : string.
Variables sourceConfig targetConfig : DBConnection.t.

(** X6.  [verifyMigration] fails only when one of its four opening calls
    fails (the two connectivity tests, then the two table listings); it
    then throws a plain [Error] whose message is that of the first failing
    call behind "Database verification failed: ".  In every other case it
    returns a result. *)
Theorem verifyMigration_fails_only_at_setup :
  match verifyMigration cfg w schedule completedAt sourceConfig targetConfig with
  | Ok _ =>
      (exists u, testConnection w sourceConfig = Ok u)
      /\ (exists u, testConnection w targetConfig = Ok u)
      /\ (exists l, getTables w sourceConfig = Ok l)
      /\ (exists l, getTables w targetConfig = Ok l)
  | Throw e =>
      exists cause,
        e = JsError ("Database verification failed: " ++ messageOrUnknown cause)
        /\ (testConnection w sourceConfig = Throw cause
            \/ ((exists u, testConnection w sourceConfig = Ok u)
                /\ (testConnection w targetConfig = Throw cause
                    \/ ((exists u, testConnection w targetConfig = Ok u)
                        /\ (getTables w sourceConfig = Throw cause
                            \/ ((exists l, getTables w sourceConfig = Ok l)
                                /\ getTables w targetConfig = Throw cause))))))
  end.
Proof.
  unfold verifyMigration.
  destruct (testConnection w sourceConfig) as [u1|e1]; simpl; [|eauto].
  destruct (testConnection w targetConfig) as [u2|e2]; simpl; [|eauto 10].
  destruct (getTables w sourceConfig) as [l1|e3]; simpl; [|eauto 12].
  destruct (getTables w targetConfig) as [l2|e4]; simpl; [eauto 10|].
  exists e4. split; [reflexivity|]. right. split; [eauto|].
  right. split; [eauto|]. right. split; [eauto|reflexivity].
Qed.

Lemma commonTablesOf_disjoint (sourceTables targetTables : list string) :
  (forall t, In t sourceTables -> ~ In t targetTables) ->
  commonTablesOf sourceTables targetTables = [].
Proof.
  intros H. unfold commonTablesOf.
  induction sourceTables as [|t l IH]; simpl; [reflexivity|].
  destruct (includes targetTables t) eqn:E.
  - apply includes_In in E. exfalso. apply (H t); [now left|assumption].
  - apply IH. intros x Hx. apply H. now right.
Qed.

(** X7.  When no table name occurs on both sides (names are compared with
    case), the run verifies nothing and still reports SUCCESS, with all
    counts at zero and an empty comparison. *)
Theorem verifyMigration_nothing_in_common
  (sourceTables targetTables : list string) :
  testConnection w sourceConfig = Ok tt ->
  testConnection w targetConfig = Ok tt ->
  getTables w sourceConfig = Ok sourceTables ->
  getTables w targetConfig = Ok targetTables ->
  (forall t, In t sourceTables -> ~ In t targetTables) ->
  verifyMigration cfg w schedule completedAt sourceConfig targetConfig
  = Ok (VerificationResult.mk
          (VerificationSummary.mk SUCCESS
             "Migration Verification Completed Successfully"
             completedAt 0 0 0 0)
          []).
Proof.
  intros H1 H2 H3 H4 Hdis.
  rewrite (verifyMigration_returns cfg w schedule completedAt
             sourceConfig targetConfig _ _ H1 H2 H3 H4).
  rewrite (commonTablesOf_disjoint _ _ Hdis).
  unfold tallyTables, useParallel. simpl. rewrite andb_false_r. reflexivity.
Qed.

Lemma sourceRowsTotal_perm (l l' : list TableComparison.t) :
  Permutation l l' -> sourceRowsTotal l = sourceRowsTotal l'.
Proof.
  induction 1 as [|c l l' _ IH|c d l|l l' l'' _ IH1 _ IH2]; simpl.
  - reflexivity.
  - now rewrite IH.
  - lia.
  - congruence.
Qed.

Lemma sourceRowsTotal_entries (verify : string -> Result TableResult)
  (tables : list string) :
  sourceRowsTotal (map (comparisonEntry verify) tables)
  = rowsCountedOver verify tables.
Proof.
  induction tables as [|t l IH]; simpl; [reflexivity|].
  rewrite IH. unfold comparisonEntry, rowsCounted.
  now destruct (verify t).
Qed.

(** X8.  In either mode and under every schedule, the row total of the
    summary is the sum of the source row counts of the common tables whose
    verification returned (a table whose verification failed adds nothing),
    and the matched and mismatched counts add up to the number of common
    tables. *)
Theorem verifyMigration_totals (sourceTables targetTables : list string) :
  numLe (Num 1) (AppConfig.maxConcurrentTables cfg) = true ->
  testConnection w sourceConfig = Ok tt ->
  testConnection w targetConfig = Ok tt ->
  getTables w sourceConfig = Ok sourceTables ->
  getTables w targetConfig = Ok targetTables ->
  exists result,
    verifyMigration cfg w schedule completedAt sourceConfig targetConfig
    = Ok result
    /\ VerificationSummary.totalRows (VerificationResult.summary result)
       = rowsCountedOver (verifyTable cfg w sourceConfig targetConfig)
           (commonTablesOf sourceTables targetTables)
    /\ (VerificationSummary.matchedTables (VerificationResult.summary result)
        + VerificationSummary.mismatchedTables (VerificationResult.summary result)
        = VerificationSummary.totalTables (VerificationResult.summary result))%Z
    /\ (0 <= VerificationSummary.matchedTables (VerificationResult.summary result)
        <= VerificationSummary.totalTables (VerificationResult.summary result))%Z.
Proof.
  intros Hmax H1 H2 H3 H4.
  eexists. split;
    [exact (verifyMigration_returns cfg w schedule completedAt
              sourceConfig targetConfig _ _ H1 H2 H3 H4)|].
  set (commonTables := commonTablesOf sourceTables targetTables).
  destruct (tallyTables_spec cfg w schedule sourceConfig targetConfig Hmax
              commonTables) as (Hp & Ht & Hm).
  unfold summarize. simpl. rewrite Ht, Hm.
  pose proof (matchCount_bounds
                (comparison (tallyTables cfg
                               (verifyTable cfg w sourceConfig targetConfig)
                               commonTables schedule))) as Hb.
  rewrite (Permutation_length Hp), length_map in Hb.
  split; [|split; lia].
  rewrite (sourceRowsTotal_perm _ _ Hp). apply sourceRowsTotal_entries.
Qed.

End RunProperties.

Lemma verifyMigration_nothing_in_common_witness :
  verifyMigration AppConfig.defaults MoreExamples.disjointWorld []
    "2025-07-15T10:00:00.000Z" Examples.mysqlShop Examples.postgresShop
  = Ok (VerificationResult.mk
          (VerificationSummary.mk SUCCESS
             "Migration Verification Completed Successfully"
             "2025-07-15T10:00:00.000Z" 0 0 0 0)
          []).
Proof.
  apply (verifyMigration_nothing_in_common AppConfig.defaults
           MoreExamples.disjointWorld [] "2025-07-15T10:00:00.000Z"
           Examples.mysqlShop Examples.postgresShop
           ["Users"; "orders_2024"] ["users"]);
    try reflexivity.
  simpl. intuition (subst; discriminate).
Defined.

Lemma verifyMigration_totals_witness :
  exists result,
    verifyMigration AppConfig.defaults Examples.shopWorld Examples.ordersFirst
      "2025-07-15T10:00:00.000Z" Examples.mysqlShop Examples.postgresShop
    = Ok result
    /\ VerificationSummary.totalRows (VerificationResult.summary result) = 2%Z.
Proof.
  destruct (verifyMigration_totals AppConfig.defaults Examples.shopWorld
              Examples.ordersFirst "2025-07-15T10:00:00.000Z"
              Examples.mysqlShop Examples.postgresShop
              ["customers"; "legacy"; "orders"] ["audit"; "customers"; "orders"]
              eq_refl eq_refl eq_refl eq_refl eq_refl)
    as (result & Hrun & Hrows & _).
  exists result. split; [exact Hrun|]. rewrite Hrows. reflexivity.
Defined.

Section ConcurrencyProperties.

Variable verify : string -> Result TableResult.
Variable tableNames : list string.

(** What [validateConfig] lets through: each range test fails to fire,
    which for [NaN] it always does. *)
Lemma validateConfig_nil (config : Config.t) :
  Config.validateConfig config = [] <->
  numLt (Config.connectionTimeout (Config.database config)) (Num 1000) = false
  /\ numLt (Config.maxConcurrentTables (Config.verification config)) (Num 1)
     = false
  /\ numGt (Config.maxConcurrentTables (Config.verification config)) (Num 20)
     = false
  /\ numLt (Config.maxFileSize (Config.fileUpload config)) (Num 1024) = false
  /\ numGt (Config.maxFileSize (Config.fileUpload config)) (Num 1073741824)
     = false.
Proof.
  unfold Config.validateConfig.
  destruct (numLt (Config.connectionTimeout (Config.database config))
                  (Num 1000));
    destruct (numLt (Config.maxConcurrentTables (Config.verification config))
                    (Num 1));
    destruct (numGt (Config.maxConcurrentTables (Config.verification config))
                    (Num 20));
    destruct (numLt (Config.maxFileSize (Config.fileUpload config)) (Num 1024));
    destruct (numGt (Config.maxFileSize (Config.fileUpload config))
                    (Num 1073741824));
    simpl; split; intros H; try discriminate; try tauto;
    repeat match goal with
           | H : _ /\ _ |- _ => destruct H
           end; discriminate.
Qed.

(** X10.  A configuration that [validateConfig] accepts has its
    [maxConcurrentTables] between 1 and 20, or [NaN]: the range test does
    not fire for [NaN].  The parallel engine reading that knob returns one
    entry for every table of the list in the first case, and the empty
    list in the second. *)
Theorem validated_config_runs_every_table (config : Config.t)
  (cfg : AppConfig.t) (schedule : list nat) :
  Config.validateConfig config = [] ->
  AppConfig.maxConcurrentTables cfg
  = Config.maxConcurrentTables (Config.verification config) ->
  match AppConfig.maxConcurrentTables cfg with
  | Num k =>
      (1 <= k <= 20)%Z
      /\ Permutation
           (processTablesInParallel cfg verify tableNames schedule)
           (map (comparisonEntry verify) tableNames)
  | NaN => processTablesInParallel cfg verify tableNames schedule = []
  end.
Proof.
  intros Hvalid Hreads.
  apply validateConfig_nil in Hvalid as (_ & Hlow & Hhigh & _).
  rewrite <- Hreads in Hlow, Hhigh.
  destruct (AppConfig.maxConcurrentTables cfg) as [k|] eqn:Ek.
  - unfold numGt in Hhigh. simpl in Hlow, Hhigh.
    apply Z.ltb_ge in Hlow, Hhigh. split; [lia|].
    apply processTablesInParallel_permutation. rewrite Ek. simpl.
    apply Z.leb_le. lia.
  - now apply processTablesInParallel_unparsed.
Qed.

End ConcurrencyProperties.

Lemma validated_config_runs_every_table_witness :
  (1 <= 5 <= 20)%Z
  /\ Permutation
       (processTablesInParallel AppConfig.defaults Examples.shopVerify
          ["customers"; "orders"] Examples.ordersFirst)
       (map (comparisonEntry Examples.shopVerify) ["customers"; "orders"]).
Proof.
  exact (validated_config_runs_every_table Examples.shopVerify
           ["customers"; "orders"] Config.defaults AppConfig.defaults
           Examples.ordersFirst eq_refl eq_refl).
Defined.

(* ------------------------------------------------------------------ *)
(** ** Further properties of the connection pool *)
(* ------------------------------------------------------------------ *)

Section PoolShape.

Import Pool.

Lemma mapGet_split (m : list (string * list PooledConnection)) (k : string)
  (pool : list PooledConnection) :
  mapGet m k = Some pool ->
  exists m1 m2, m = m1 ++ (k, pool) :: m2 /\ mapGet m1 k = None.
Proof.
  induction m as [|[k0 p0] m IH]; simpl; [discriminate|].
  destruct (String.eqb k0 k) eqn:E.
  - apply String.eqb_eq in E. subst k0. intros [= ->].
    exists [], m. split; reflexivity.
  - intros H. destruct (IH H) as (m1 & m2 & -> & Hn).
    exists ((k0, p0) :: m1), m2. split; [reflexivity|]. simpl. now rewrite E.
Qed.

Lemma mapSet_split (m1 m2 : list (string * list PooledConnection)) (k : string)
  (pool v : list PooledConnection) :
  mapGet m1 k = None ->
  mapSet (m1 ++ (k, pool) :: m2) k v = m1 ++ (k, v) :: m2.
Proof.
  induction m1 as [|[k0 p0] m1 IH]; simpl.
  - intros _. now rewrite String.eqb_refl.
  - destruct (String.eqb k0 k); [discriminate|]. intros H. now rewrite IH.
Qed.

Lemma mapDelete_split (m1 m2 : list (string * list PooledConnection))
  (k : string) (pool : list PooledConnection) :
  mapGet m1 k = None ->
  mapDelete (m1 ++ (k, pool) :: m2) k = m1 ++ m2.
Proof.
  induction m1 as [|[k0 p0] m1 IH]; simpl.
  - intros _. now rewrite String.eqb_refl.
  - destruct (String.eqb k0 k); [discriminate|]. intros H. now rewrite IH.
Qed.

Lemma mapSet_absent (m : list (string * list PooledConnection)) (k : string)
  (v : list PooledConnection) :
  mapGet m k = None -> mapSet m k v = m ++ [(k, v)].
Proof.
  induction m as [|[k0 p0] m IH]; simpl; [reflexivity|].
  destruct (String.eqb k0 k); [discriminate|]. intros H. now rewrite IH.
Qed.

Lemma updateFirst_absent (p : PooledConnection -> bool)
  (f : PooledConnection -> PooledConnection) (l : list PooledConnection) :
  existsb p l = false -> updateFirst p f l = l.
Proof.
  induction l as [|x l IH]; simpl; [reflexivity|].
  destruct (p x); simpl; [discriminate|]. intros H. now rewrite IH.
Qed.

Lemma updateFirst_app (p : PooledConnection -> bool)
  (f : PooledConnection -> PooledConnection) (l1 l2 : list PooledConnection) :
  updateFirst p f (l1 ++ l2)
  = if existsb p l1 then updateFirst p f l1 ++ l2
    else l1 ++ updateFirst p f l2.
Proof.
  induction l1 as [|x l1 IH]; simpl; [reflexivity|].
  destruct (p x); simpl; [reflexivity|].
  rewrite IH. now destruct (existsb p l1).
Qed.

Lemma find_split (p : PooledConnection -> bool) (l : list PooledConnection)
  (e : PooledConnection) :
  find p l = Some e ->
  exists pre post,
    l = pre ++ e :: post /\ existsb p pre = false /\ p e = true.
Proof.
  induction l as [|x l IH]; simpl; [discriminate|].
  destruct (p x) eqn:E.
  - intros [= ->]. exists [], l. repeat split. exact E.
  - intros H. destruct (IH H) as (pre & post & -> & Hpre & He).
    exists (x :: pre), post. repeat split; [|exact He]. simpl. now rewrite E.
Qed.

(** On the entries laid out in the order of the map, a release marks the
    first entry that holds the connection. *)
Lemma releaseIn_flat (now : Z) (h : Handle)
  (m : list (string * list PooledConnection)) :
  match releaseIn now h m with
  | Some m' =>
      flat_map snd m' = updateFirst (holds h) (markIdle now) (flat_map snd m)
      /\ existsb (holds h) (flat_map snd m) = true
  | None => existsb (holds h) (flat_map snd m) = false
  end.
Proof.
  induction m as [|[k pool] m IH]; simpl; [reflexivity|].
  rewrite existsb_app, updateFirst_app.
  destruct (existsb (holds h) pool) eqn:E; simpl; [split; reflexivity|].
  destruct (releaseIn now h m) as [m'|]; simpl.
  - destruct IH as [-> ->]. split; reflexivity.
  - exact IH.
Qed.

Lemma allEntries_releaseConnection (now : Z) (h : Handle) (cp : ConnectionPool) :
  allEntries (fst (releaseConnection now h cp))
  = updateFirst (holds h) (markIdle now) (allEntries cp).
Proof.
  unfold releaseConnection, allEntries.
  pose proof (releaseIn_flat now h (pools cp)) as H.
  destruct (releaseIn now h (pools cp)) as [m'|]; simpl.
  - now destruct H.
  - now rewrite updateFirst_absent.
Qed.

Lemma filter_partition_length (f : PooledConnection -> bool)
  (l : list PooledConnection) :
  List.length (filter f l) + List.length (filter (fun x => negb (f x)) l)
  = List.length l.
Proof.
  induction l as [|x l IH]; simpl; [reflexivity|].
  destruct (f x); simpl; lia.
Qed.

Lemma allEntries_cleanup (now : Z) (cp : ConnectionPool) :
  allEntries (cleanupExpiredConnections now cp)
  = filter (fun pc => negb (isExpired now pc)) (allEntries cp).
Proof.
  unfold allEntries, cleanupExpiredConnections. simpl.
  induction (pools cp) as [|[k pool] m IH]; simpl; [reflexivity|].
  now rewrite filter_app, IH.
Qed.

(** What an acquisition does to the entries: nothing when it fails; when
    it succeeds they read [X ++ y :: Y] with [y] the entry handed out, in
    use, where the entries before read [X ++ Y] or [X ++ e :: Y] with an
    idle [e] that holds the same connection. *)
Lemma getConnection_flat (now : Z) (driver : Result Handle)
  (c : DBConnection.t) (cp : ConnectionPool) :
  match getConnection now driver c cp with
  | (Throw _, cp') => cp' = cp
  | (Ok h, cp') =>
      exists X y Y,
        allEntries cp' = X ++ y :: Y
        /\ connection y = h /\ inUse y = true
        /\ ((allEntries cp = X ++ Y /\ driver = Ok h
             /\ activeConnections cp' = (activeConnections cp + 1)%Z
             /\ (activeConnections cp < maxConnections cp)%Z)
            \/ (exists e, allEntries cp = X ++ e :: Y
                          /\ connection e = h /\ inUse e = false
                          /\ activeConnections cp' = activeConnections cp))
        /\ maxConnections cp' = maxConnections cp
  end.
Proof.
  unfold getConnection, getAvailableConnection, allEntries.
  destruct (mapGet (pools cp) (getPoolKey c)) as [pool|] eqn:Eget.
  - destruct (mapGet_split _ _ _ Eget) as (m1 & m2 & Hm & Hn).
    destruct (find (isAvailable now) pool) as [e|] eqn:Efind.
    + destruct (find_split _ _ _ Efind) as (pre & post & Hpool & Hpre & He).
      simpl. rewrite Hm, (mapSet_split m1 m2 _ pool _ Hn).
      exists (flat_map snd m1 ++ pre), (markInUse now e),
             (post ++ flat_map snd m2).
      rewrite !flat_map_app. simpl. rewrite Hpool, updateFirst_app, Hpre.
      simpl. rewrite He. rewrite <- !app_assoc. simpl.
      repeat split.
      right. exists e. repeat split.
      * now rewrite <- app_assoc.
      * apply isAvailable_iff in He. tauto.
    + destruct (maxConnections cp <=? activeConnections cp)%Z eqn:Elim;
        [reflexivity|].
      unfold createConnection.
      destruct (DBConnection.type c); try reflexivity;
        (destruct driver as [h|e]; [|reflexivity]); simpl;
        rewrite Hm, (mapSet_split m1 m2 _ pool _ Hn);
        eexists (flat_map snd m1 ++ pool), _, (flat_map snd m2);
        rewrite !flat_map_app; simpl; rewrite <- !app_assoc; simpl;
        (repeat split); left; (repeat split);
        apply Z.leb_gt in Elim; lia.
  - destruct (maxConnections cp <=? activeConnections cp)%Z eqn:Elim;
      [reflexivity|].
    unfold createConnection.
    destruct (DBConnection.type c); try reflexivity;
      (destruct driver as [h|e]; [|reflexivity]); simpl;
      rewrite (mapSet_absent _ _ _ Eget);
      eexists (flat_map snd (pools cp)), _, [];
      rewrite flat_map_app; simpl;
      (repeat split); left; rewrite app_nil_r; (repeat split);
      apply Z.leb_gt in Elim; lia.
Qed.

End PoolShape.

Section PoolProperties.

Import Pool.

Lemma length_allEntries_delete (cp : ConnectionPool) (key : string)
  (pool : list PooledConnection) :
  mapGet (pools cp) key = Some pool ->
  List.length (flat_map snd (mapDelete (pools cp) key)) + List.length pool
  = List.length (allEntries cp).
Proof.
  intros H. destruct (mapGet_split _ _ _ H) as (m1 & m2 & Hm & Hn).
  unfold allEntries. rewrite Hm, (mapDelete_split m1 m2 key pool Hn).
  rewrite !flat_map_app. simpl. rewrite !length_app. lia.
Qed.

Lemma updateFirst_same_length (p : PooledConnection -> bool)
  (f : PooledConnection -> PooledConnection) (l : list PooledConnection) :
  List.length (updateFirst p f l) = List.length l.
Proof.
  induction l as [|x l IH]; simpl; [reflexivity|].
  destruct (p x); simpl; [reflexivity|now rewrite IH].
Qed.

(** An uninterrupted [getConnection] is its two stretches, one after
    the other. *)
Lemma getConnection_stretches (now : Z) (driver : Result Handle)
  (c : DBConnection.t) (cp : ConnectionPool) :
  getConnection now driver c cp
  = match getConnectionCheck now c cp with
    | (Reused h, cp1) => (Ok h, cp1)
    | (Refused e, cp1) => (Throw e, cp1)
    | (MustCreate, cp1) =>
        match createConnection driver c with
        | Throw e => (Throw e, cp1)
        | Ok h => (Ok h, getConnectionStore now c h cp1)
        end
    end.
Proof.
  unfold getConnection, getConnectionCheck, getConnectionStore.
  destruct (getAvailableConnection now cp (getPoolKey c)); [reflexivity|].
  now destruct (maxConnections cp <=? activeConnections cp)%Z.
Qed.

Lemma getConnectionCheck_pool (now : Z) (c : DBConnection.t)
  (cp : ConnectionPool) (e : Thrown) :
  snd (getConnectionCheck now c cp) = snd (getConnection now (Throw e) c cp).
Proof.
  rewrite getConnection_stretches.
  destruct (getConnectionCheck now c cp) as [[h|e'|] cp1]; try reflexivity.
  unfold createConnection. now destruct (DBConnection.type c).
Qed.

Lemma getConnectionStore_entries (now : Z) (c : DBConnection.t) (h : Handle)
  (cp : ConnectionPool) :
  List.length (allEntries (getConnectionStore now c h cp))
  = S (List.length (allEntries cp)).
Proof.
  unfold getConnectionStore, allEntries. simpl.
  destruct (mapGet (pools cp) (getPoolKey c)) as [pool|] eqn:E.
  - destruct (mapGet_split _ _ _ E) as (m1 & m2 & Hm & Hn).
    rewrite Hm, (mapSet_split m1 m2 _ pool _ Hn), !flat_map_app. simpl.
    repeat (rewrite !length_app; simpl). lia.
  - rewrite (mapSet_absent _ _ _ E), flat_map_app. simpl.
    repeat (rewrite !length_app; simpl). lia.
Qed.

Lemma getConnection_counted (now : Z) (driver : Result Handle)
  (c : DBConnection.t) (cp : ConnectionPool) :
  CounterAgrees cp ->
  CounterAgrees (snd (getConnection now driver c cp))
  /\ ((activeConnections cp <= maxConnections cp)%Z ->
      (activeConnections (snd (getConnection now driver c cp))
       <= maxConnections (snd (getConnection now driver c cp)))%Z).
Proof.
  unfold CounterAgrees. intros Hcount.
  pose proof (getConnection_flat now driver c cp) as H.
  destruct (getConnection now driver c cp) as [[h'|e] cp']; simpl;
    [|subst cp'; tauto].
  destruct H as (X & y & Y & -> & _ & _ & Hbefore & Hm).
  destruct Hbefore as [(HE & _ & Ha & Hlt)|(e & HE & _ & _ & Ha)];
    (split; [rewrite Ha, Hcount, HE, !length_app; simpl; lia
            |rewrite Ha, Hm; lia]).
Qed.

Lemma poolStep_counter (step : PoolStep) (cp : ConnectionPool) :
  CounterAgrees cp -> CounterAgrees (poolStep cp step).
Proof.
  intros Hcount. destruct step as [now c|now c h|now h|now]; simpl.
  - rewrite (getConnectionCheck_pool now c cp (JsError "")).
    now apply getConnection_counted.
  - unfold CounterAgrees in *. rewrite getConnectionStore_entries.
    simpl. lia.
  - unfold CounterAgrees in *.
    rewrite allEntries_releaseConnection, updateFirst_same_length.
    unfold releaseConnection.
    destruct (releaseIn now h (pools cp)); simpl; exact Hcount.
  - unfold CounterAgrees in *. rewrite allEntries_cleanup. simpl.
    pose proof (filter_partition_length (isExpired now) (allEntries cp)).
    unfold allEntries in *. lia.
Qed.

(** X11.  The counter [activeConnections] equals the number of pooled
    entries after every sequence of the synchronous stretches of
    [getConnection] (the check before the driver connects, the bookkeeping
    after it), of [releaseConnection] and of [cleanupExpiredConnections],
    however overlapping calls interleave them.  The limit [maxConnections]
    is kept by [releaseConnection], by [cleanupExpiredConnections] and by
    a [getConnection] that no other call overlaps; overlapping calls can
    push the counter above it ([overlapping_calls_exceed_the_limit]). *)
Theorem pool_counter_is_kept (steps : list PoolStep) (now : Z)
  (driver : Result Handle) (c : DBConnection.t) (h : Handle)
  (cp : ConnectionPool) :
  CounterAgrees cp ->
  CounterAgrees (runPool steps cp)
  /\ ((activeConnections cp <= maxConnections cp)%Z ->
      Counted (snd (getConnection now driver c cp))
      /\ Counted (fst (releaseConnection now h cp))
      /\ Counted (cleanupExpiredConnections now cp)).
Proof.
  intros Hcount. split.
  - unfold runPool. revert cp Hcount.
    induction steps as [|step steps IH]; intros cp Hcount; simpl;
      [exact Hcount|].
    apply IH. now apply poolStep_counter.
  - intros Hmax. unfold Counted. repeat split.
    + now apply getConnection_counted.
    + now apply getConnection_counted.
    + exact (poolStep_counter (ReleaseStep now h) cp Hcount).
    + unfold releaseConnection.
      destruct (releaseIn now h (pools cp)); simpl; exact Hmax.
    + exact (poolStep_counter (CleanupStep now) cp Hcount).
    + simpl. lia.
Qed.

Lemma pool_counter_is_kept_witness :
  CounterAgrees
    (runPool [CheckStep 3000 Examples.postgresShop;
              CheckStep 3000 Examples.postgresShop;
              StoreStep 3100 Examples.postgresShop 8;
              CleanupStep 400000;
              StoreStep 400100 Examples.postgresShop 9;
              ReleaseStep 400200 8]
       Examples.warmPool)
  /\ Counted (cleanupExpiredConnections 400000 Examples.warmPool).
Proof.
  destruct (pool_counter_is_kept
              [CheckStep 3000 Examples.postgresShop;
               CheckStep 3000 Examples.postgresShop;
               StoreStep 3100 Examples.postgresShop 8;
               CleanupStep 400000;
               StoreStep 400100 Examples.postgresShop 9;
               ReleaseStep 400200 8]
              400000 (Ok 8) Examples.postgresShop 7 Examples.warmPool)
    as (Hsteps & Hbound).
  { reflexivity. }
  split; [exact Hsteps|]. apply Hbound. discriminate.
Defined.

(** Two calls for a pool that admits one connection: each passes the
    test of the limit before the other has stored its connection, and the
    pool ends with two. *)
Example overlapping_calls_exceed_the_limit :
  let single := mkPool [] 0 1 in
  fst (getConnectionCheck 0 Examples.mysqlShop single) = MustCreate
  /\ fst (getConnectionCheck 0 Examples.mysqlShop
            (snd (getConnectionCheck 0 Examples.mysqlShop single)))
     = MustCreate
  /\ activeConnections
       (runPool [CheckStep 0 Examples.mysqlShop;
                 CheckStep 0 Examples.mysqlShop;
                 StoreStep 10 Examples.mysqlShop 1;
                 StoreStep 10 Examples.mysqlShop 2]
          single)
     = 2%Z
  /\ maxConnections
       (runPool [CheckStep 0 Examples.mysqlShop;
                 CheckStep 0 Examples.mysqlShop;
                 StoreStep 10 Examples.mysqlShop 1;
                 StoreStep 10 Examples.mysqlShop 2]
          single)
     = 1%Z.
Proof. repeat split. Qed.

Lemma mapGet_cleanup (now : Z) (m : list (string * list PooledConnection))
  (key : string) :
  mapGet (map (fun entry : string * list PooledConnection =>
                 (fst entry,
                  filter (fun pc => negb (isExpired now pc)) (snd entry))) m)
         key
  = option_map (filter (fun pc => negb (isExpired now pc))) (mapGet m key).
Proof.
  induction m as [|[k pool] m IH]; simpl; [reflexivity|].
  destruct (String.eqb k key); [reflexivity|exact IH].
Qed.

Lemma find_filter (p q : PooledConnection -> bool) (l : list PooledConnection) :
  (forall x, p x = true -> q x = true) ->
  find p (filter q l) = find p l.
Proof.
  intros H. induction l as [|x l IH]; simpl; [reflexivity|].
  destruct (q x) eqn:Eq; simpl.
  - destruct (p x); [reflexivity|exact IH].
  - destruct (p x) eqn:Ep; [|exact IH].
    rewrite (H x Ep) in Eq. discriminate.
Qed.

(** X12.  [cleanupExpiredConnections] removes exactly the entries that are
    idle and were last used more than 300000 ms ago, so a connection in
    use is never removed; and it does not change which connection
    [getConnection] finds for any key at that time or later. *)
Theorem cleanup_removes_only_stale_idle (now later : Z) (key : string)
  (cp : ConnectionPool) :
  (now <= later)%Z ->
  allEntries (cleanupExpiredConnections now cp)
  = filter (fun pc => inUse pc || (ageOf now pc <=? 300000)%Z) (allEntries cp)
  /\ (forall pc, In pc (allEntries cp) -> inUse pc = true ->
                 In pc (allEntries (cleanupExpiredConnections now cp)))
  /\ getAvailableConnection later (cleanupExpiredConnections now cp) key
     = getAvailableConnection later cp key.
Proof.
  intros Hle.
  assert (Hsame : forall pc,
            negb (isExpired now pc)
            = inUse pc || (ageOf now pc <=? 300000)%Z).
  { intros pc. unfold isExpired, ageOf.
    destruct (inUse pc); simpl; [reflexivity|].
    destruct (300000 <? now - lastUsed pc)%Z eqn:E1;
      destruct (now - lastUsed pc <=? 300000)%Z eqn:E2; try reflexivity;
      [apply Z.ltb_lt in E1; apply Z.leb_le in E2
      |apply Z.ltb_ge in E1; apply Z.leb_gt in E2]; lia. }
  split; [|split].
  - rewrite allEntries_cleanup. apply filter_ext. exact Hsame.
  - intros pc Hin Hbusy. rewrite allEntries_cleanup. apply filter_In.
    split; [exact Hin|]. rewrite Hsame, Hbusy. reflexivity.
  - unfold getAvailableConnection, cleanupExpiredConnections. simpl.
    rewrite mapGet_cleanup.
    destruct (mapGet (pools cp) key) as [pool|]; simpl; [|reflexivity].
    apply find_filter. intros x Hx. apply isAvailable_iff in Hx as [Hidle Hage].
    rewrite Hsame, Hidle. simpl. unfold ageOf. apply Z.leb_le. lia.
Qed.

Lemma cleanup_removes_only_stale_idle_witness :
  allEntries (cleanupExpiredConnections 400000 Examples.warmPool) = []
  /\ allEntries (cleanupExpiredConnections 3000 Examples.warmPool)
     = allEntries Examples.warmPool.
Proof.
  split.
  - rewrite (proj1 (cleanup_removes_only_stale_idle 400000 400000 ""
                      Examples.warmPool ltac:(discriminate))).
    reflexivity.
  - rewrite (proj1 (cleanup_removes_only_stale_idle 3000 3000 ""
                      Examples.warmPool ltac:(discriminate))).
    reflexivity.
Defined.

(** X13.  An idle entry last used exactly 300000 ms ago is in limbo:
    [getConnection] no longer finds it under any key, and
    [cleanupExpiredConnections] does not remove it. *)
Theorem idle_entry_at_the_limit (now : Z) (pc : PooledConnection)
  (cp : ConnectionPool) :
  In pc (allEntries cp) ->
  inUse pc = false ->
  ageOf now pc = 300000%Z ->
  isAvailable now pc = false
  /\ (forall key, getAvailableConnection now cp key <> Some pc)
  /\ In pc (allEntries (cleanupExpiredConnections now cp)).
Proof.
  intros Hin Hidle Hage. unfold ageOf in Hage.
  assert (Hav : isAvailable now pc = false).
  { unfold isAvailable, isConnectionValid. rewrite Hidle, Hage. reflexivity. }
  repeat split.
  - exact Hav.
  - intros key Hget. unfold getAvailableConnection in Hget.
    destruct (mapGet (pools cp) key) as [pool|]; [|discriminate].
    apply find_some in Hget as [_ Hget]. congruence.
  - rewrite allEntries_cleanup. apply filter_In. split; [exact Hin|].
    unfold isExpired. rewrite Hidle, Hage. reflexivity.
Qed.

Lemma idle_entry_at_the_limit_witness :
  isAvailable 302000 (mkPooled 7 mysql 2000 false Examples.mysqlShop) = false
  /\ In (mkPooled 7 mysql 2000 false Examples.mysqlShop)
        (allEntries (cleanupExpiredConnections 302000 Examples.warmPool)).
Proof.
  destruct (idle_entry_at_the_limit 302000
              (mkPooled 7 mysql 2000 false Examples.mysqlShop)
              Examples.warmPool) as (H1 & _ & H2).
  - simpl. tauto.
  - reflexivity.
  - reflexivity.
  - split; assumption.
Defined.

End PoolProperties.

Section PoolBorrowers.

Import Pool.

Lemma not_held_existsb (h : Handle) (l : list PooledConnection) :
  ~ In h (map connection l) -> existsb (holds h) l = false.
Proof.
  induction l as [|x l IH]; simpl; [reflexivity|].
  intros H. unfold holds at 1.
  destruct (Nat.eqb (connection x) h) eqn:E; simpl.
  - apply Nat.eqb_eq in E. exfalso. apply H. now left.
  - apply IH. intros Hin. apply H. now right.
Qed.

Lemma held_existsb (h : Handle) (l : list PooledConnection) :
  existsb (holds h) l = true -> In h (map connection l).
Proof.
  rewrite existsb_exists. intros (x & Hx & Hh).
  apply Nat.eqb_eq in Hh. subst h. now apply in_map.
Qed.

Lemma NoDup_middle_only (A B C : list Handle) (h : Handle) :
  NoDup (A ++ B ++ C) -> In h B -> ~ In h (A ++ C).
Proof.
  intros Hnd HB Hin.
  apply in_app_or in Hin as [HA|HC].
  - apply (NoDup_app_remove_r) in Hnd as Hnd'.
    revert Hnd. apply in_split in HA as (A1 & A2 & ->).
    rewrite <- app_assoc. simpl. intros Hnd.
    apply NoDup_remove_2 in Hnd. apply Hnd.
    apply in_or_app. right. apply in_or_app. right.
    apply in_or_app. now left.
  - apply NoDup_app_remove_l in Hnd.
    apply in_split in HB as (B1 & B2 & ->).
    rewrite <- app_assoc in Hnd. simpl in Hnd.
    apply NoDup_remove_2 in Hnd. apply Hnd.
    apply in_or_app. right. apply in_or_app. now right.
Qed.

(** X14.  [closePool(poolKey)] with a non-empty key removes every entry
    filed under the key, whether idle or in use, and lowers the counter by
    their number; a borrower that later releases one of these connections
    is not found in the pool, so the connection is closed directly and the
    pool is left as it is.  The empty key is falsy: with it every pool is
    closed and the counter set to zero. *)
Theorem closePool_drops_borrowed_connections (now : Z) (key : string)
  (pool : list PooledConnection) (pc : PooledConnection)
  (cp : ConnectionPool) :
  Adapters.UniqueHandles cp ->
  key <> "" ->
  mapGet (pools cp) key = Some pool ->
  In pc pool ->
  ~ In (connection pc) (map connection (allEntries (closePool (Some key) cp)))
  /\ releaseConnection now (connection pc) (closePool (Some key) cp)
     = (closePool (Some key) cp, true)
  /\ activeConnections (closePool (Some key) cp)
     = (activeConnections cp - Z.of_nat (List.length pool))%Z
  /\ closePool (Some "") cp = mkPool [] 0 (maxConnections cp).
Proof.
  intros Huniq Hkey Hget Hin.
  assert (Hclose : closePool (Some key) cp
                   = mkPool (mapDelete (pools cp) key)
                       (activeConnections cp - Z.of_nat (List.length pool))
                       (maxConnections cp)).
  { unfold closePool. destruct key as [|ch rest]; [contradiction|].
    simpl truthyKey. cbv iota. now rewrite Hget. }
  destruct (mapGet_split _ _ _ Hget) as (m1 & m2 & Hm & Hn).
  assert (Hgone : ~ In (connection pc)
                       (map connection (allEntries (closePool (Some key) cp)))).
  { rewrite Hclose. unfold allEntries. simpl.
    rewrite Hm, (mapDelete_split m1 m2 key pool Hn), flat_map_app, map_app.
    unfold Adapters.UniqueHandles, allEntries in Huniq.
    rewrite Hm, flat_map_app in Huniq. simpl in Huniq.
    rewrite !map_app in Huniq.
    apply (NoDup_middle_only _ (map connection pool) _ _ Huniq).
    now apply in_map. }
  split; [exact Hgone|]. split; [|split].
  - unfold releaseConnection.
    pose proof (releaseIn_flat now (connection pc)
                  (pools (closePool (Some key) cp))) as Hflat.
    destruct (releaseIn now (connection pc) (pools (closePool (Some key) cp)));
      [|reflexivity].
    destruct Hflat as [_ Hheld]. apply held_existsb in Hheld.
    contradiction.
  - now rewrite Hclose.
  - reflexivity.
Qed.

Lemma closePool_drops_borrowed_connections_witness :
  releaseConnection 5000 8
    (closePool (Some (getPoolKey Examples.postgresShop))
       (snd (getConnection 3000 (Ok 8) Examples.postgresShop Examples.warmPool)))
  = (closePool (Some (getPoolKey Examples.postgresShop))
       (snd (getConnection 3000 (Ok 8) Examples.postgresShop Examples.warmPool)),
     true).
Proof.
  apply (closePool_drops_borrowed_connections 5000
           (getPoolKey Examples.postgresShop)
           [mkPooled 8 postgres 3000 true Examples.postgresShop]
           (mkPooled 8 postgres 3000 true Examples.postgresShop)).
  - unfold Adapters.UniqueHandles. simpl.
    repeat constructor; simpl; intuition discriminate.
  - discriminate.
  - reflexivity.
  - now left.
Defined.

(** X15.  What [getPoolStats] reports is consistent: for every pool the
    total is the sum of the in-use and the available count, the pools are
    listed under their keys in map order, and on a pool whose counter
    agrees with its entries the totals add up to [activeConnections]. *)
Theorem getPoolStats_adds_up (cp : ConnectionPool) :
  Forall (fun entry : string * PoolStats =>
            total (snd entry)
            = statsInUse (snd entry) + available (snd entry))
         (snd (getPoolStats cp))
  /\ map fst (snd (getPoolStats cp)) = map fst (pools cp)
  /\ (Counted cp ->
      fst (fst (getPoolStats cp))
      = Z.of_nat (list_sum (map (fun entry : string * PoolStats =>
                                   total (snd entry))
                                (snd (getPoolStats cp))))).
Proof.
  unfold getPoolStats. simpl. repeat split.
  - rewrite Forall_map. apply Forall_forall. intros [k pool] _. simpl.
    symmetry. apply filter_partition_length.
  - rewrite map_map. reflexivity.
  - intros [Hc _]. rewrite Hc. f_equal. unfold allEntries.
    rewrite map_map. simpl.
    induction (pools cp) as [|[k pool] m IH]; simpl; [reflexivity|].
    rewrite length_app, IH. reflexivity.
Qed.

Lemma withPooledConnection_returns {A : Type} (now : Z) (b : Adapters.Backend)
  (config : DBConnection.t) (body : Result A) (p : ConnectionPool) :
  Adapters.UniqueHandles p ->
  Adapters.FreshConnect b config p ->
  filter inUse (allEntries (snd (Adapters.withPooledConnection now b config body p)))
  = filter inUse (allEntries p).
Proof.
  intros Huniq Hfresh. unfold Adapters.withPooledConnection.
  pose proof (getConnection_flat now (Adapters.connect b config) config p) as H.
  destruct (getConnection now (Adapters.connect b config) config p)
    as [[h|e] p1]; simpl; [|now subst p1].
  destruct H as (X & y & Y & HE1 & Hy & Hbusy & Hbefore & _).
  rewrite allEntries_releaseConnection, HE1.
  assert (HX : existsb (holds h) X = false).
  { apply not_held_existsb.
    destruct Hbefore as [(HE & Hdrv & _)|(e & HE & He & _)].
    - intros Hin. apply (Hfresh h Hdrv). rewrite HE, map_app.
      apply in_or_app. now left.
    - unfold Adapters.UniqueHandles in Huniq. rewrite HE, map_app in Huniq.
      simpl in Huniq. apply NoDup_remove_2 in Huniq.
      intros Hin. apply Huniq. rewrite He. apply in_or_app. now left. }
  rewrite updateFirst_app, HX. simpl.
  unfold holds at 1. rewrite Hy, Nat.eqb_refl.
  rewrite filter_app. simpl.
  destruct Hbefore as [(HE & _)|(e & HE & _ & Hidle & _)]; rewrite HE.
  - now rewrite filter_app.
  - rewrite filter_app. simpl. now rewrite Hidle.
Qed.

(** A connection that [getConnection] hands out is checked out
    afterwards and was not before. *)
Lemma getConnection_checks_out (now : Z) (b : Adapters.Backend)
  (config : DBConnection.t) (p : ConnectionPool) (h : Handle) :
  Adapters.UniqueHandles p ->
  Adapters.FreshConnect b config p ->
  fst (getConnection now (Adapters.connect b config) config p) = Ok h ->
  In h (Adapters.inUseHandles
          (snd (getConnection now (Adapters.connect b config) config p)))
  /\ ~ In h (Adapters.inUseHandles p).
Proof.
  intros Huniq Hfresh Hok. unfold Adapters.inUseHandles.
  pose proof (getConnection_flat now (Adapters.connect b config) config p) as H.
  destruct (getConnection now (Adapters.connect b config) config p)
    as [[h'|e] p1]; simpl in Hok; [|discriminate].
  injection Hok as ->. simpl.
  destruct H as (X & y & Y & HE1 & Hy & Hbusy & Hbefore & _).
  split.
  - rewrite HE1, filter_app, map_app. apply in_or_app. right.
    simpl. rewrite Hbusy. simpl. now left.
  - intros Hin. apply in_map_iff in Hin as (x & Hx & Hfx).
    apply filter_In in Hfx as [Hxin Hxbusy].
    destruct Hbefore as [(HE & Hdrv & _)|(e & HE & He & Hidle & _)].
    + apply (Hfresh h Hdrv). rewrite <- Hx. now apply in_map.
    + unfold Adapters.UniqueHandles in Huniq. rewrite HE, map_app in Huniq.
      simpl in Huniq. apply NoDup_remove_2 in Huniq. apply Huniq.
      rewrite HE in Hxin. rewrite <- map_app, He, <- Hx.
      apply in_map. apply in_app_or in Hxin as [Hxin|[Hxin|Hxin]].
      * apply in_or_app. now left.
      * subst x. congruence.
      * apply in_or_app. now right.
Qed.

(** X16.  The pooled adapters give back what they borrow as long as the
    timer of [withTimeout] does not fire first: whatever the outcome of
    [getTableRowCount] or of the schema query then (result, query error,
    exhausted pool, failed connection), the entries in use afterwards are
    those that were in use before.  When the timer fires while the
    statement is pending, the connection the adapter obtained is still
    checked out when the caller receives the outcome, and was not before.
    Both provided every pooled connection is pooled once and the driver
    hands out a connection the pool does not hold yet. *)
Theorem adapters_return_what_they_borrow (now queryTimeout : Z)
  (b : Adapters.Backend) (config : DBConnection.t) (tableName : string)
  (p : ConnectionPool) :
  Adapters.UniqueHandles p ->
  Adapters.FreshConnect b config p ->
  (Adapters.timedOut b (rowCountLabel (DBConnection.type config)) = false ->
   filter inUse
     (allEntries (snd (Adapters.getTableRowCount now queryTimeout b config
                         tableName p)))
   = filter inUse (allEntries p))
  /\ (Adapters.timedOut b (schemaLabel (DBConnection.type config)) = false ->
      filter inUse
        (allEntries (snd (Adapters.querySchema now queryTimeout b config
                            tableName p)))
      = filter inUse (allEntries p))
  /\ (forall h,
        DBConnection.type config <> sqlite ->
        Adapters.timedOut b (rowCountLabel (DBConnection.type config)) = true ->
        Adapters.stalledConnecting b (rowCountLabel (DBConnection.type config))
        = false ->
        fst (getConnection now (Adapters.connect b config) config p) = Ok h ->
        In h (Adapters.inUseHandles
                (snd (Adapters.getTableRowCount now queryTimeout b config
                        tableName p)))
        /\ ~ In h (Adapters.inUseHandles p))
  /\ (forall h,
        DBConnection.type config <> sqlite ->
        Adapters.timedOut b (schemaLabel (DBConnection.type config)) = true ->
        Adapters.stalledConnecting b (schemaLabel (DBConnection.type config))
        = false ->
        fst (getConnection now (Adapters.connect b config) config p) = Ok h ->
        In h (Adapters.inUseHandles
                (snd (Adapters.querySchema now queryTimeout b config
                        tableName p)))
        /\ ~ In h (Adapters.inUseHandles p)).
Proof.
  intros Huniq Hfresh.
  unfold Adapters.getTableRowCount, Adapters.querySchema, Adapters.raced,
    Adapters.whilePending,
    Adapters.getMySQLRowCount, Adapters.getPostgreSQLRowCount,
    Adapters.getMySQLTableSchema, Adapters.getPostgreSQLTableSchema.
  destruct (DBConnection.type config); simpl rowCountLabel; simpl schemaLabel;
    (split; [|split; [|split]]);
    try (intros Hto; try reflexivity; rewrite Hto; cbn [snd];
         apply withPooledConnection_returns; assumption);
    try (intros h Hty Hto Hstage Hok; try congruence;
         rewrite Hto, Hstage; cbn [snd];
         now apply getConnection_checks_out).
Qed.

End PoolBorrowers.

Lemma adapters_return_what_they_borrow_witness :
  filter Pool.inUse
    (Pool.allEntries
       (snd (Adapters.getTableRowCount 3000 60000 MoreExamples2.failingBackend
               Examples.postgresShop "orders" Examples.warmPool)))
  = []
  /\ In 9 (Adapters.inUseHandles
             (snd (Adapters.getTableRowCount 3000 60000
                     MoreExamples2.silentBackend Examples.postgresShop
                     "orders" Examples.warmPool))).
Proof.
  split.
  - refine (eq_trans
              (proj1 (adapters_return_what_they_borrow 3000 60000
                        MoreExamples2.failingBackend Examples.postgresShop
                        "orders" Examples.warmPool _ _) eq_refl)
              eq_refl).
    + unfold Adapters.UniqueHandles. simpl. repeat constructor. simpl. tauto.
    + intros h Hh. simpl in Hh. injection Hh as <-. simpl.
      intuition discriminate.
  - refine (proj1 (proj1 (proj2 (proj2
              (adapters_return_what_they_borrow 3000 60000
                 MoreExamples2.silentBackend Examples.postgresShop
                 "orders" Examples.warmPool _ _)))
              9 _ eq_refl eq_refl eq_refl)).
    + unfold Adapters.UniqueHandles. simpl. repeat constructor. simpl. tauto.
    + intros h Hh. simpl in Hh. injection Hh as <-. simpl.
      intuition discriminate.
    + discriminate.
Defined.

(* ------------------------------------------------------------------ *)
(** ** Properties of the schema cache *)
(* ------------------------------------------------------------------ *)

Section SchemaCacheProperties.

Import SchemaCache.

Lemma lookup_store_same (c : t) (key : string) (e : CacheEntry) :
  lookup (store c key e) key = Some e.
Proof.
  induction c as [|[k e0] c IH]; simpl.
  - now rewrite String.eqb_refl.
  - destruct (String.eqb k key) eqn:E; simpl; rewrite E; [reflexivity|exact IH].
Qed.

Lemma lookup_store_other (c : t) (key key' : string) (e : CacheEntry) :
  key' <> key -> lookup (store c key e) key' = lookup c key'.
Proof.
  intros Hne. induction c as [|[k e0] c IH]; simpl.
  - destruct (String.eqb key key') eqn:E; [|reflexivity].
    apply String.eqb_eq in E. congruence.
  - destruct (String.eqb k key) eqn:E; simpl.
    + apply String.eqb_eq in E. subst k.
      destruct (String.eqb key key') eqn:E'; [|reflexivity].
      apply String.eqb_eq in E'. congruence.
    + destruct (String.eqb k key'); [reflexivity|exact IH].
Qed.

Lemma lookup_delete_same (c : t) (key : string) :
  lookup (delete c key) key = None.
Proof.
  unfold delete. induction c as [|[k e0] c IH]; simpl; [reflexivity|].
  destruct (String.eqb k key) eqn:E; simpl; [exact IH|].
  rewrite E. exact IH.
Qed.

Lemma lookup_delete_other (c : t) (key key' : string) :
  key' <> key -> lookup (delete c key) key' = lookup c key'.
Proof.
  intros Hne. unfold delete.
  induction c as [|[k e0] c IH]; simpl; [reflexivity|].
  destruct (String.eqb k key) eqn:E; simpl.
  - apply String.eqb_eq in E. subst k.
    destruct (String.eqb key key') eqn:E'; [|exact IH].
    apply String.eqb_eq in E'. congruence.
  - destruct (String.eqb k key'); [reflexivity|exact IH].
Qed.

Lemma lookup_filter_unique (keep : string * CacheEntry -> bool) (c : t)
  (key : string) :
  Unique c ->
  lookup (filter keep c) key
  = match lookup c key with
    | Some e => if keep (key, e) then Some e else None
    | None => None
    end.
Proof.
  unfold Unique. induction c as [|[k e0] c IH]; simpl; [reflexivity|].
  intros Hnd. inversion Hnd as [|? ? Hk Hnd']; subst.
  destruct (String.eqb k key) eqn:E.
  - apply String.eqb_eq in E. subst k.
    destruct (keep (key, e0)); simpl.
    + now rewrite String.eqb_refl.
    + rewrite (IH Hnd').
      destruct (lookup c key) as [e|] eqn:El; [|reflexivity].
      exfalso. apply Hk. clear - El.
      induction c as [|[k1 e1] c IHc]; simpl in *; [discriminate|].
      destruct (String.eqb k1 key) eqn:E1.
      * apply String.eqb_eq in E1. now left.
      * right. now apply IHc.
  - destruct (keep (k, e0)); simpl; [rewrite E|]; apply (IH Hnd').
Qed.

Lemma store_keys (c : t) (key : string) (e : CacheEntry) :
  map fst (store c key e)
  = match lookup c key with
    | Some _ => map fst c
    | None => map fst c ++ [key]
    end.
Proof.
  induction c as [|[k e0] c IH]; simpl; [reflexivity|].
  destruct (String.eqb k key); simpl; [reflexivity|].
  rewrite IH. now destruct (lookup c key).
Qed.

Lemma lookup_None_notin (c : t) (key : string) :
  lookup c key = None -> ~ In key (map fst c).
Proof.
  induction c as [|[k e0] c IH]; simpl; [tauto|].
  destruct (String.eqb k key) eqn:E; [discriminate|].
  apply String.eqb_neq in E. intros H [Hk|Hk]; [contradiction|].
  now apply IH.
Qed.

Lemma filter_unique (keep : string * CacheEntry -> bool) (c : t) :
  Unique c -> Unique (filter keep c).
Proof.
  unfold Unique. induction c as [|[k e0] c IH]; simpl; [trivial|].
  intros Hnd. inversion Hnd as [|? ? Hk Hnd']; subst.
  destruct (keep (k, e0)); simpl; [|now apply IH].
  constructor; [|now apply IH].
  intros Hin. apply Hk. apply in_map_iff in Hin as (x & <- & Hx).
  apply filter_In in Hx as [Hx _]. now apply in_map.
Qed.

(** The methods keep a key from occurring twice. *)
Lemma cache_methods_keep_unique (now : Z) (config : DBConnection.t)
  (tableName : string) (name : option string) (columns : list Column.t) (c : t) :
  Unique c ->
  Unique (set now config tableName columns c)
  /\ Unique (snd (get now config tableName c))
  /\ Unique (invalidate config name c)
  /\ Unique (cleanupExpired now c).
Proof.
  intros Hu. repeat split.
  - unfold set, Unique. rewrite store_keys.
    destruct (lookup c (getCacheKey config tableName)) eqn:E; [exact Hu|].
    apply lookup_None_notin in E.
    apply NoDup_app; [exact Hu|repeat constructor; simpl; tauto|].
    intros x Hx [<-|[]]. contradiction.
  - unfold get. destruct (lookup c (getCacheKey config tableName)); [|exact Hu].
    destruct (TTL <? now - timestamp c0)%Z; [|exact Hu].
    now apply filter_unique.
  - unfold invalidate. destruct (truthyName name); now apply filter_unique.
  - now apply filter_unique.
Qed.

(** X17.  A schema stored with [set] is returned by [get] for the same
    descriptor and table as long as no more than 300000 ms have passed;
    asked later, [get] answers [null] and drops the entry. *)
Theorem schema_cache_round_trip (now later : Z) (config : DBConnection.t)
  (tableName : string) (columns : list Column.t) (c : t) :
  fst (get later config tableName (set now config tableName columns c))
  = (if (300000 <? later - now)%Z then None else Some columns)
  /\ lookup (snd (get later config tableName
                    (set now config tableName columns c)))
            (getCacheKey config tableName)
     = (if (300000 <? later - now)%Z then None
        else Some (mkEntry columns now (getConnectionKey config))).
Proof.
  unfold get, set. rewrite lookup_store_same. simpl. unfold TTL.
  destruct (300000 <? later - now)%Z; simpl; split; try reflexivity.
  - apply lookup_delete_same.
  - apply lookup_store_same.
Qed.

(** [get] after [set], as a pair. *)
Lemma get_after_set (now later : Z) (config : DBConnection.t)
  (tableName : string) (columns : list Column.t) (c : t) :
  (later - now <= 300000)%Z ->
  get later config tableName (set now config tableName columns c)
  = (Some columns, set now config tableName columns c).
Proof.
  intros Hage. unfold get, set. rewrite lookup_store_same. simpl. unfold TTL.
  destruct (300000 <? later - now)%Z eqn:E; [|reflexivity].
  apply Z.ltb_lt in E. lia.
Qed.

(** X18.  [invalidate] with a table name makes the next [get] for that
    descriptor and table answer [null] and leaves the entries under other
    keys alone; called with the empty string as table name it behaves as
    if no name were given and drops every entry of the connection. *)
Theorem invalidate_table (later : Z) (config : DBConnection.t)
  (tableName otherKey : string) (c : t) :
  (tableName <> "" ->
   fst (get later config tableName (invalidate config (Some tableName) c))
   = None
   /\ (otherKey <> getCacheKey config tableName ->
       lookup (invalidate config (Some tableName) c) otherKey
       = lookup c otherKey))
  /\ invalidate config (Some "") c = invalidate config None c
  /\ Forall (fun entry => connectionKey (snd entry) <> getConnectionKey config)
            (invalidate config None c).
Proof.
  repeat split.
  - destruct tableName as [|ch rest]; [contradiction|].
    unfold get, invalidate. simpl truthyName. cbv iota.
    now rewrite lookup_delete_same.
  - intros Hother. destruct tableName as [|ch rest]; [contradiction|].
    unfold invalidate. simpl truthyName. cbv iota.
    now apply lookup_delete_other.
  - unfold invalidate. simpl. apply Forall_forall. intros e He.
    apply filter_In in He as [_ He]. apply negb_true_iff in He.
    now apply String.eqb_neq in He.
Qed.

(** X19.  After [invalidate] without a table name, a schema that any
    descriptor of the same connection (same type, host, port and database)
    had stored is no longer served. *)
Theorem invalidate_connection (now later : Z) (config other : DBConnection.t)
  (tableName : string) (columns : list Column.t) (c : t) :
  Unique c ->
  getConnectionKey other = getConnectionKey config ->
  fst (get later other tableName
         (invalidate config None (set now other tableName columns c)))
  = None.
Proof.
  intros Hu Hkey. unfold get, invalidate. simpl truthyName. cbv iota.
  rewrite lookup_filter_unique.
  - unfold set. rewrite lookup_store_same. simpl.
    rewrite Hkey, String.eqb_refl. reflexivity.
  - apply (cache_methods_keep_unique now other tableName None columns c Hu).
Qed.

Lemma invalidate_connection_witness :
  fst (get 2000 MoreExamples2.mysqlShopAsAuditor "customers"
         (invalidate Examples.mysqlShop None
            (set 1000 MoreExamples2.mysqlShopAsAuditor "customers"
               Examples.customersMysql [])))
  = None.
Proof.
  apply (invalidate_connection 1000 2000 Examples.mysqlShop
           MoreExamples2.mysqlShopAsAuditor "customers"
           Examples.customersMysql []).
  - constructor.
  - reflexivity.
Defined.

(** X20.  The cache key leaves out the user: a schema stored through one
    descriptor is served, within the 300000 ms, to every descriptor with
    the same type, host, port and database, whatever its user, password
    or file path. *)
Theorem cache_is_shared_across_users (now later : Z)
  (config other : DBConnection.t) (tableName : string)
  (columns : list Column.t) (c : t) :
  DBConnection.type other = DBConnection.type config ->
  DBConnection.host other = DBConnection.host config ->
  DBConnection.port other = DBConnection.port config ->
  DBConnection.database other = DBConnection.database config ->
  (later - now <= 300000)%Z ->
  fst (get later other tableName (set now config tableName columns c))
  = Some columns.
Proof.
  intros Ht Hh Hp Hd Hage.
  assert (Hkey : getCacheKey other tableName = getCacheKey config tableName).
  { unfold getCacheKey. now rewrite Ht, Hh, Hp, Hd. }
  unfold get. rewrite Hkey. unfold set. rewrite lookup_store_same. simpl.
  unfold TTL. destruct (300000 <? later - now)%Z eqn:E; [|reflexivity].
  apply Z.ltb_lt in E. lia.
Qed.

Lemma cache_is_shared_across_users_witness :
  fst (get 2000 MoreExamples2.mysqlShopAsAuditor "customers"
         (set 1000 Examples.mysqlShop "customers" Examples.customersMysql []))
  = Some Examples.customersMysql.
Proof.
  apply (cache_is_shared_across_users 1000 2000 Examples.mysqlShop
           MoreExamples2.mysqlShopAsAuditor "customers"
           Examples.customersMysql []);
    try reflexivity.
  discriminate.
Defined.

(** X21.  [cleanupExpired] is invisible to readers: at the time of the
    sweep or later, [get] answers the same with and without it. *)
Theorem cleanupExpired_is_invisible (now later : Z) (config : DBConnection.t)
  (tableName : string) (c : t) :
  Unique c ->
  (now <= later)%Z ->
  fst (get later config tableName (cleanupExpired now c))
  = fst (get later config tableName c).
Proof.
  intros Hu Hle. unfold get, cleanupExpired.
  rewrite (lookup_filter_unique _ c _ Hu).
  destruct (lookup c (getCacheKey config tableName)) as [e|]; [|reflexivity].
  simpl. unfold TTL.
  destruct (300000 <? now - timestamp e)%Z eqn:E1; simpl.
  - apply Z.ltb_lt in E1.
    destruct (300000 <? later - timestamp e)%Z eqn:E2; [reflexivity|].
    apply Z.ltb_ge in E2. lia.
  - now destruct (300000 <? later - timestamp e)%Z.
Qed.

Lemma cleanupExpired_is_invisible_witness :
  fst (get 2000 Examples.mysqlShop "customers"
         (cleanupExpired 1500
            (set 1000 Examples.mysqlShop "customers" Examples.customersMysql [])))
  = fst (get 2000 Examples.mysqlShop "customers"
           (set 1000 Examples.mysqlShop "customers" Examples.customersMysql [])).
Proof.
  apply (cleanupExpired_is_invisible 1500 2000 Examples.mysqlShop "customers"
           (set 1000 Examples.mysqlShop "customers" Examples.customersMysql [])).
  - repeat constructor. simpl. tauto.
  - discriminate.
Defined.

End SchemaCacheProperties.


(* ------------------------------------------------------------------ *)
(** ** Properties of [getTableSchema] and [getSampleData] *)
(* ------------------------------------------------------------------ *)

Section SchemaQueries.

Import Adapters.

(** X22.  Once [getTableSchema] has fetched the schema of a table of a
    MySQL or PostgreSQL database from the server, every call for the same
    descriptor and table within the next 300000 ms returns that schema
    without touching the pool, the cache or the server, whatever the
    server would answer by then. *)
Theorem getTableSchema_serves_from_cache (now later queryTimeout queryTimeout' : Z)
  (b b' : Backend) (config : DBConnection.t) (tableName : string)
  (s s1 : Services) (columns : list Column.t) :
  DBConnection.type config <> sqlite ->
  fst (SchemaCache.get now config tableName (cache s)) = None ->
  getTableSchema now queryTimeout b config tableName s = (Ok columns, s1) ->
  (later - now <= 300000)%Z ->
  getTableSchema later queryTimeout' b' config tableName s1 = (Ok columns, s1).
Proof.
  intros Hty Hmiss Hfirst Hage.
  assert (Hs : isSqlite (DBConnection.type config) = false)
    by (destruct (DBConnection.type config); [reflexivity|reflexivity|congruence]).
  unfold getTableSchema in Hfirst. rewrite Hs in Hfirst.
  destruct (SchemaCache.get now config tableName (cache s)) as [cached cache1].
  simpl in Hmiss. subst cached.
  destruct (querySchema now queryTimeout b config tableName (pool s))
    as [r p'].
  destruct r as [cols|error]; [|discriminate].
  injection Hfirst as -> <-.
  unfold getTableSchema. rewrite Hs. cbn [cache pool].
  rewrite (get_after_set now later config tableName columns cache1 Hage).
  reflexivity.
Qed.

Lemma getTableSchema_serves_from_cache_witness :
  getTableSchema 2000 60000 MoreExamples2.failingBackend Examples.mysqlShop
    "customers"
    (snd (getTableSchema 1000 60000 MoreExamples2.describingBackend
            Examples.mysqlShop "customers" MoreExamples2.freshServices))
  = (Ok [Column.mk "id" "int" false; Column.mk "Name" "varchar" true],
     snd (getTableSchema 1000 60000 MoreExamples2.describingBackend
            Examples.mysqlShop "customers" MoreExamples2.freshServices)).
Proof.
  apply (getTableSchema_serves_from_cache 1000 2000 60000 60000
           MoreExamples2.describingBackend MoreExamples2.failingBackend
           Examples.mysqlShop "customers" MoreExamples2.freshServices).
  - discriminate.
  - reflexivity.
  - reflexivity.
  - discriminate.
Defined.

(** X23.  [getTableSchema] rejects with a [DatabaseError] only; in
    particular a timeout of the MySQL schema query reaches the caller as
    the [DatabaseError] with code OPERATION_ERROR and the message
    "Get table schema failed: MySQL getTableSchema timed out after ...ms".
    [getTableRowCount] returns its timed promise without awaiting it, so
    there the [TimeoutError] itself reaches the caller. *)
Theorem getTableSchema_rejects_with_DatabaseError (now queryTimeout : Z)
  (b : Backend) (config : DBConnection.t) (tableName : string)
  (s : Services) :
  match fst (getTableSchema now queryTimeout b config tableName s) with
  | Ok _ => True
  | Throw error => exists message code, error = DatabaseError message code
  end
  /\ (DBConnection.type config = mysql ->
      fst (SchemaCache.get now config tableName (cache s)) = None ->
      timedOut b "MySQL getTableSchema" = true ->
      fst (getTableSchema now queryTimeout b config tableName s)
      = Throw (DatabaseError
                 ("Get table schema failed: MySQL getTableSchema timed out after "
                  ++ numberToString queryTimeout ++ "ms")
                 "OPERATION_ERROR"))
  /\ (DBConnection.type config = mysql ->
      timedOut b "MySQL getTableRowCount" = true ->
      fst (getTableRowCount now queryTimeout b config tableName (pool s))
      = Throw (TimeoutError
                 ("MySQL getTableRowCount timed out after "
                  ++ numberToString queryTimeout ++ "ms")
                 queryTimeout "MySQL getTableRowCount")).
Proof.
  repeat split.
  - unfold getTableSchema.
    destruct (if isSqlite (DBConnection.type config) then (None, cache s)
              else SchemaCache.get now config tableName (cache s))
      as [cached cache1].
    destruct cached as [columns|]; [exact I|].
    destruct (querySchema now queryTimeout b config tableName (pool s))
      as [r p'].
    destruct r as [columns|error]; [exact I|].
    cbn [fst]. destruct error; simpl; eauto.
  - intros Hty Hmiss Hto. unfold getTableSchema. rewrite Hty. cbn [isSqlite].
    destruct (SchemaCache.get now config tableName (cache s))
      as [cached cache1].
    simpl in Hmiss. subst cached.
    unfold querySchema, raced, withTimeout. rewrite Hty, Hto. reflexivity.
  - intros Hty Hto. unfold getTableRowCount, raced, withTimeout.
    rewrite Hty, Hto. reflexivity.
Qed.

End SchemaQueries.

Section SampleConnections.

Import Sampling.

Local Ltac pick :=
  repeat match goal with
         | H : _ /\ _ |- _ => destruct H
         | H : exists _, _ |- _ => destruct H
         | H : _ \/ _ |- _ => destruct H
         | H : False |- _ => destruct H
         | H : In _ _ |- _ => simpl in H
         | H : Queried _ = Queried _ |- _ => injection H as H
         end;
  subst; try discriminate; try congruence.

Local Ltac listed := simpl; repeat (first [left; reflexivity | right]).

(** X24.  [getSampleData] closes the connection it opened exactly when one
    of its SELECT statements succeeded: if every statement fails (MySQL:
    the one; PostgreSQL: the schema-qualified one and the plain one) the
    function rejects and the connection is left open.  It sends no other
    statements than these, and opens a connection exactly when the server
    accepts it (never for SQLite). *)
Theorem getSampleData_ends_only_after_success (sb : SampleBackend)
  (config : DBConnection.t) (tableName : string) (sampleSize : Z) :
  (In Ended (snd (getSampleData sb config tableName sampleSize))
   <-> In Opened (snd (getSampleData sb config tableName sampleSize))
       /\ exists sql rows,
            In sql (sampleQueries config tableName sampleSize)
            /\ run sb sql = Ok rows)
  /\ (In Opened (snd (getSampleData sb config tableName sampleSize))
      <-> DBConnection.type config <> sqlite
          /\ exists u, openAnswer sb = Ok u)
  /\ (forall sql,
        In (Queried sql) (snd (getSampleData sb config tableName sampleSize))
        -> In sql (sampleQueries config tableName sampleSize)).
Proof.
  unfold getSampleData, sampleQueries, endThenReturn.
  destruct (DBConnection.type config).
  - (* mysql *)
    destruct (openAnswer sb) as [u|e] eqn:Eo.
    + destruct (run sb (mysqlSampleQuery tableName sampleSize))
        as [rows|e] eqn:Er.
      * destruct (endAnswer sb); cbn [snd];
          (split; [|split]);
          [ split; [intros _; split; [listed|]; do 2 eexists;
                     split; [|exact Er]; listed
                   | intros _; listed]
          | split; [intros _; split; [discriminate|eauto] | intros _; listed]
          | intros sql H; pick; listed
          | split; [intros _; split; [listed|]; do 2 eexists;
                     split; [|exact Er]; listed
                   | intros _; listed]
          | split; [intros _; split; [discriminate|eauto] | intros _; listed]
          | intros sql H; pick; listed ].
      * cbn [snd]. split; [|split].
        -- split; intros H; pick.
        -- split; [intros _; split; [discriminate|eauto] | intros _; listed].
        -- intros sql H; pick; listed.
    + cbn [snd]. split; [|split].
      * split; intros H; pick.
      * split; intros H; pick.
      * intros sql H; pick.
  - (* postgres *)
    destruct (openAnswer sb) as [u|e] eqn:Eo.
    + destruct (run sb (postgresQualifiedQuery config tableName sampleSize))
        as [rows|e] eqn:Er.
      * destruct (endAnswer sb); cbn [snd];
          (split; [|split]);
          [ split; [intros _; split; [listed|]; do 2 eexists;
                     split; [|exact Er]; listed
                   | intros _; listed]
          | split; [intros _; split; [discriminate|eauto] | intros _; listed]
          | intros sql H; pick; listed
          | split; [intros _; split; [listed|]; do 2 eexists;
                     split; [|exact Er]; listed
                   | intros _; listed]
          | split; [intros _; split; [discriminate|eauto] | intros _; listed]
          | intros sql H; pick; listed ].
      * destruct (run sb (postgresPlainQuery tableName sampleSize))
          as [rows|e'] eqn:Er'.
        -- destruct (endAnswer sb); cbn [snd];
             (split; [|split]);
             [ split; [intros _; split; [listed|]; do 2 eexists;
                        split; [|exact Er']; listed
                      | intros _; listed]
             | split; [intros _; split; [discriminate|eauto] | intros _; listed]
             | intros sql H; pick; listed
             | split; [intros _; split; [listed|]; do 2 eexists;
                        split; [|exact Er']; listed
                      | intros _; listed]
             | split; [intros _; split; [discriminate|eauto] | intros _; listed]
             | intros sql H; pick; listed ].
        -- cbn [snd]. split; [|split].
           ++ split; intros H; pick.
           ++ split; [intros _; split; [discriminate|eauto] | intros _; listed].
           ++ intros sql H; pick; listed.
    + cbn [snd]. split; [|split].
      * split; intros H; pick.
      * split; intros H; pick.
      * intros sql H; pick.
  - (* sqlite *)
    cbn [snd]. split; [|split].
    + split; intros H; pick.
    + split; intros H; pick.
    + intros sql H; pick.
Qed.

End SampleConnections.
